(** * trackerscope: the tracking blocker, its rules, the network monitor
      and the tracking analysis

    A shallow embedding of [src/blocking/tracking_blocker.py] (rule store,
    rule index, request and response interceptors, log, report), of
    [src/blocking/blocking_rules_manager.py] (default rules), of
    [src/monitors/network_monitor.py] (request table) and of
    [src/analysis/tracking_analysis_engine.py] (tracking graph, JavaScript
    analyses, risk score), followed by the properties of the
    specification and further properties of the code, each one proved or
    refuted on the embedded code.

    Python exceptions are values of [exn]; a call that may raise returns a
    [result].  The objects the code mutates ([self.rules], the SQLite
    tables, the intercepted request and response) are threaded explicitly.

    A [str] is represented by its UTF-8 encoding and [bytes] by the bytes
    themselves, both as a [string]; looking for a substring and replacing
    it give the same answer on the encoding as on the code points.  A
    [string] that is not well-formed UTF-8 stands for no [str], and a
    [str] with a lone surrogate has no representation.  The functions of
    the standard library that the code calls ([re], [urllib.parse],
    [bytes.decode], [str.lower]) are parameters of the embedding: every
    statement holds for whatever they compute, and the worked examples run
    on concrete models of them. *)

From Stdlib Require Import ZArith Ascii String Sorted Permutation Lia.
From stdpp Require Import base option list sorting gmap strings.

Local Open Scope string_scope.
Local Open Scope list_scope.
Local Open Scope Z_scope.

(** ** Exceptions and results *)

Inductive exn : Type :=
  | KeyError (key : string)
  | ReError (pattern : string)
  | AttributeError (msg : string)
  | JSONDecodeError
  | ValueError
  | OverflowError
  | OperationalError.

Inductive result (A : Type) : Type :=
  | Ok (a : A)
  | Raise (e : exn).
Arguments Ok {A} a.
Arguments Raise {A} e.

(** ** Text helpers: [in], [str.startswith], [str.replace], [str.join] *)

Fixpoint startswith (p s : string) : bool :=
  match p, s with
  | EmptyString, _ => true
  | String a p', String b s' => if Ascii.eqb a b then startswith p' s' else false
  | String _ _, EmptyString => false
  end.

(** [sub in s] on Python strings. *)
Fixpoint contains (sub s : string) : bool :=
  startswith sub s ||
  match s with
  | EmptyString => false
  | String _ s' => contains sub s'
  end.

(** [s.replace(old, new)] for a non-empty [old]: occurrences are replaced
    from the left and do not overlap; [skip] counts the characters of the
    occurrence just replaced that are still to be dropped. *)
Fixpoint replace_from (old new s : string) (skip : nat) : string :=
  match s with
  | EmptyString => EmptyString
  | String c s' =>
      match skip with
      | S k => replace_from old new s' k
      | O =>
          if startswith old s
          then new +:+ replace_from old new s' (Nat.pred (String.length old))
          else String c (replace_from old new s' O)
      end
  end.

Definition str_replace (old new s : string) : string := replace_from old new s O.

Fixpoint str_join (sep : string) (l : list string) : string :=
  match l with
  | [] => EmptyString
  | [x] => x
  | x :: l' => x +:+ sep +:+ str_join sep l'
  end.

(** Splits [s] before the first character satisfying [stop]. *)
Fixpoint span_until (stop : ascii → bool) (s : string) : string * string :=
  match s with
  | EmptyString => (EmptyString, EmptyString)
  | String c s' =>
      if stop c then (EmptyString, s)
      else let '(a, b) := span_until stop s' in (String c a, b)
  end.

Definition is_char (a : ascii) : ascii → bool := Ascii.eqb a.

(** [s.split(sep)] for a one-character separator. *)
Fixpoint split_on (sep : ascii) (s : string) : list string :=
  match s with
  | EmptyString => [EmptyString]
  | String c s' =>
      if Ascii.eqb c sep then EmptyString :: split_on sep s'
      else match split_on sep s' with
           | [] => [String c EmptyString]
           | w :: ws => String c w :: ws
           end
  end.

(** ** The regular-expression library

    [re.search(pattern, text)] compiles [pattern], raising [re.error] when
    it is malformed, and then looks for a match anywhere in [text].  The
    blocker is embedded over any engine of that shape. *)

Class PyRe : Type := {
  pattern_obj : Type;
  re_compile : string → option pattern_obj;
  pattern_search : pattern_obj → string → bool
}.

Definition re_search `{PyRe} (pattern text : string) : result bool :=
  match re_compile pattern with
  | Some p => Ok (pattern_search p text)
  | None => Raise (ReError pattern)
  end.

(** A concrete engine for the fragment of Python's syntax that the
    repository's own patterns use: literal characters, [.], escaped
    punctuation, groups, [|] and the postfix operators [*], [+], [?].
    Matching is by derivatives.  Character classes, anchors, counted
    repetition, class escapes and stacked quantifiers lie outside the
    fragment; [compile] gives [None] on them and no statement below uses
    such a pattern.  Inside the fragment [None] is Python's [re.error]
    (missing or unbalanced parenthesis, nothing to repeat, a pattern ending
    in a backslash). *)
Module Regex.

Inductive regex : Type :=
  | Void
  | Eps
  | Chr (c : ascii)
  | Dot
  | Cat (r1 r2 : regex)
  | Alt (r1 r2 : regex)
  | Star (r : regex).

Fixpoint nullable (r : regex) : bool :=
  match r with
  | Void | Chr _ | Dot => false
  | Eps | Star _ => true
  | Cat r1 r2 => nullable r1 && nullable r2
  | Alt r1 r2 => nullable r1 || nullable r2
  end.

Definition newline : ascii := Ascii.ascii_of_nat 10.

Fixpoint deriv (a : ascii) (r : regex) : regex :=
  match r with
  | Void | Eps => Void
  | Chr c => if Ascii.eqb a c then Eps else Void
  | Dot => if Ascii.eqb a newline then Void else Eps
  | Cat r1 r2 =>
      if nullable r1 then Alt (Cat (deriv a r1) r2) (deriv a r2)
      else Cat (deriv a r1) r2
  | Alt r1 r2 => Alt (deriv a r1) (deriv a r2)
  | Star r1 => Cat (deriv a r1) (Star r1)
  end.

(** Some prefix of [s] is in the language of [r]. *)
Fixpoint match_prefix (r : regex) (s : string) : bool :=
  nullable r ||
  match s with
  | EmptyString => false
  | String c s' => match_prefix (deriv c r) s'
  end.

(** Some substring of [s] is in the language of [r]. *)
Fixpoint search (r : regex) (s : string) : bool :=
  match_prefix r s ||
  match s with
  | EmptyString => false
  | String _ s' => search r s'
  end.

(** A frame of the parser: the finished branches of the group being read
    and the atoms of its current branch, both latest first; an atom
    carries whether a postfix operator was already applied to it. *)
Record frame : Type := Frame {
  branches : list regex;
  atoms : list (regex * bool)
}.

Definition empty_frame : frame := Frame [] [].

Definition branch_of (l : list (regex * bool)) : regex :=
  fold_left (fun acc a => Cat (fst a) acc) l Eps.

Definition close_frame (f : frame) : regex :=
  fold_left (fun acc b => Alt b acc) (branches f) (branch_of (atoms f)).

Definition push_atom (r : regex) (f : frame) : frame :=
  Frame (branches f) ((r, false) :: atoms f).

Definition next_branch (f : frame) : frame :=
  Frame (branch_of (atoms f) :: branches f) [].

Definition postfix (c : ascii) (r : regex) : regex :=
  if Ascii.eqb c "*" then Star r
  else if Ascii.eqb c "+" then Cat r (Star r)
  else Alt Eps r.

Definition is_postfix (c : ascii) : bool :=
  Ascii.eqb c "*" || Ascii.eqb c "+" || Ascii.eqb c "?".

Definition is_alnum (c : ascii) : bool :=
  let n := Ascii.nat_of_ascii c in
  ((48 <=? n) && (n <=? 57) || (65 <=? n) && (n <=? 90) ||
   (97 <=? n) && (n <=? 122))%nat.

Definition outside_fragment (c : ascii) : bool :=
  Ascii.eqb c "[" || Ascii.eqb c "]" || Ascii.eqb c "{" || Ascii.eqb c "}" ||
  Ascii.eqb c "^" || Ascii.eqb c "$".

Fixpoint parse (s : string) (stack : list frame) (top : frame)
    (escaped : bool) : option regex :=
  match s with
  | EmptyString =>
      if escaped then None
      else match stack with
           | [] => Some (close_frame top)
           | _ :: _ => None
           end
  | String c s' =>
      if escaped then
        if is_alnum c then None
        else parse s' stack (push_atom (Chr c) top) false
      else if Ascii.eqb c "\" then parse s' stack top true
      else if Ascii.eqb c "(" then parse s' (top :: stack) empty_frame false
      else if Ascii.eqb c ")" then
        match stack with
        | [] => None
        | f :: st => parse s' st (push_atom (close_frame top) f) false
        end
      else if Ascii.eqb c "|" then parse s' stack (next_branch top) false
      else if is_postfix c then
        match atoms top with
        | (r, false) :: rest =>
            parse s' stack (Frame (branches top) ((postfix c r, true) :: rest)) false
        | _ => None
        end
      else if outside_fragment c then None
      else if Ascii.eqb c "." then parse s' stack (push_atom Dot top) false
      else parse s' stack (push_atom (Chr c) top) false
  end.

Definition compile (pattern : string) : option regex :=
  parse pattern [] empty_frame false.

End Regex.

Definition model_re : PyRe :=
  {| pattern_obj := Regex.regex;
     re_compile := Regex.compile;
     pattern_search := Regex.search |}.


(** ** Text and bytes

    [bytes.decode('utf-8', 'ignore')] drops the bytes that are not part of
    a well-formed UTF-8 sequence; the empty input gives the empty text.
    With a [str] represented by its encoding, [str.encode('utf-8')] copies
    the representation.  [str.lower] follows the Unicode case tables. *)

Class PyText : Type := {
  decode_ignore : string → string;
  lower : string → string;
  decode_ignore_empty : decode_ignore EmptyString = EmptyString
}.

Definition encode_utf8 (text : string) : string := text.

(** The decoder after the definition of well-formed UTF-8 (Unicode, table
    3-7).  A byte that starts no well-formed sequence is dropped by
    [drop_ill_formed], the decoder with [errors='ignore'];
    [mark_ill_formed], the decoder with [errors='replace'], puts one
    U+FFFD for it and for the bytes after it that continue a sequence it
    could have started. *)
Module Utf8.

Definition between (lo hi : nat) (c : ascii) : bool :=
  let n := Ascii.nat_of_ascii c in ((lo <=? n) && (n <=? hi))%nat.

(** For a lead byte: the range of its second byte and the length of the
    sequence. *)
Definition lead (c : ascii) : option (nat * nat * nat) :=
  if between 194 223 c then Some (128, 191, 2)%nat
  else if between 224 224 c then Some (160, 191, 3)%nat
  else if between 225 236 c then Some (128, 191, 3)%nat
  else if between 237 237 c then Some (128, 159, 3)%nat
  else if between 238 239 c then Some (128, 191, 3)%nat
  else if between 240 240 c then Some (144, 191, 4)%nat
  else if between 241 243 c then Some (128, 191, 4)%nat
  else if between 244 244 c then Some (128, 143, 4)%nat
  else None.

(** The number of bytes at the head of [s] that continue a sequence. *)
Fixpoint continuations (n : nat) (s : string) : nat :=
  match n, s with
  | S n', String c s' => if between 128 191 c then S (continuations n' s') else O
  | _, _ => O
  end.

(** The bytes after a lead byte, as far as they continue its sequence. *)
Definition followers (c : ascii) (rest : string) : nat * nat :=
  match lead c with
  | None => (O, O)
  | Some (lo, hi, len) =>
      match rest with
      | String c2 rest' =>
          if between lo hi c2 then (S (continuations (len - 2) rest'), len - 1)%nat
          else (O, len - 1)%nat
      | EmptyString => (O, len - 1)%nat
      end
  end.

(** [pending] bytes of a sequence already accepted are still to be
    copied. *)
Fixpoint drop_ill_formed_from (s : string) (pending : nat) : string :=
  match s with
  | EmptyString => EmptyString
  | String c s' =>
      match pending with
      | S k => String c (drop_ill_formed_from s' k)
      | O =>
          if between 0 127 c then String c (drop_ill_formed_from s' O)
          else
            let '(found, wanted) := followers c s' in
            if (0 <? wanted)%nat && (found =? wanted)%nat
            then String c (drop_ill_formed_from s' wanted)
            else drop_ill_formed_from s' O
      end
  end.

Definition drop_ill_formed (s : string) : string := drop_ill_formed_from s O.

Definition replacement_character : string :=
  String (Ascii.ascii_of_nat 239)
    (String (Ascii.ascii_of_nat 191) (String (Ascii.ascii_of_nat 189) EmptyString)).

(** [pending] bytes are still to be copied, or, with [copy] false, still
    to be passed over. *)
Fixpoint mark_ill_formed_from (s : string) (pending : nat) (copy : bool) : string :=
  match s with
  | EmptyString => EmptyString
  | String c s' =>
      match pending with
      | S k =>
          if copy then String c (mark_ill_formed_from s' k true)
          else mark_ill_formed_from s' k false
      | O =>
          if between 0 127 c then String c (mark_ill_formed_from s' O true)
          else
            let '(found, wanted) := followers c s' in
            if (0 <? wanted)%nat && (found =? wanted)%nat
            then String c (mark_ill_formed_from s' wanted true)
            else replacement_character +:+ mark_ill_formed_from s' found false
      end
  end.

Definition mark_ill_formed (s : string) : string := mark_ill_formed_from s O true.

End Utf8.

Definition lower_char (c : ascii) : ascii :=
  let n := Ascii.nat_of_ascii c in
  if ((65 <=? n) && (n <=? 90))%nat then Ascii.ascii_of_nat (n + 32) else c.

(** [str.lower] on ASCII text. *)
Fixpoint ascii_lower (s : string) : string :=
  match s with
  | EmptyString => EmptyString
  | String c s' => String (lower_char c) (ascii_lower s')
  end.

(** The concrete text functions of the examples.  [ascii_lower] leaves
    the letters outside ASCII as they are, which [str.lower] does not; the
    examples lower ASCII names only. *)
Definition model_text : PyText :=
  {| decode_ignore := Utf8.drop_ill_formed;
     lower := ascii_lower;
     decode_ignore_empty := eq_refl |}.

(** ** [urllib.parse]

    [urlparse] gives the six parts of a URL or raises [ValueError]; the
    code reads [netloc] and (index 4) [query].  [unquote] decodes percent
    escapes. *)

Record url_parts : Type := UrlParts {
  scheme : string;
  netloc : string;
  path : string;
  params : string;
  query : string;
  fragment : string
}.

Class PyUrl : Type := {
  url_split : string → option url_parts;
  unquote : string → string
}.

Definition urlparse `{PyUrl} (url : string) : result url_parts :=
  match url_split url with
  | Some url_parts => Ok url_parts
  | None => Raise ValueError
  end.

Definition drop_first (s : string) : string :=
  match s with
  | EmptyString => EmptyString
  | String _ s' => s'
  end.

(** A concrete [urllib.parse] after the standard library.  Leading
    control characters and blanks are stripped and tabs and line breaks
    removed; a scheme is a letter followed by scheme characters up to the
    first colon; a network location follows a leading [//] and ends before
    the first [/], [?] or [#]; a bracket without its partner in it raises
    [ValueError]; the fragment is cut at the first [#], the query at the
    first [?], and for the schemes that have them the parameters at the
    first [;] of the last path segment.  Two checks are left out, the one
    of the address between a pair of brackets and the one of a network
    location outside ASCII; no statement below runs the model on such a
    URL. *)
Module Urllib.

Definition is_letter (c : ascii) : bool :=
  let n := Ascii.nat_of_ascii c in
  ((65 <=? n) && (n <=? 90) || (97 <=? n) && (n <=? 122))%nat.

Definition is_digit (c : ascii) : bool :=
  let n := Ascii.nat_of_ascii c in ((48 <=? n) && (n <=? 57))%nat.

Definition scheme_char (c : ascii) : bool :=
  is_letter c || is_digit c || Ascii.eqb c "+" || Ascii.eqb c "-" || Ascii.eqb c ".".

Definition c0_control_or_space (c : ascii) : bool :=
  (Ascii.nat_of_ascii c <=? 32)%nat.

Fixpoint lstrip (strip : ascii → bool) (s : string) : string :=
  match s with
  | EmptyString => EmptyString
  | String c s' => if strip c then lstrip strip s' else s
  end.

Definition unsafe_url_byte (c : ascii) : bool :=
  let n := Ascii.nat_of_ascii c in ((n =? 9) || (n =? 13) || (n =? 10))%nat.

Fixpoint remove_chars (drop : ascii → bool) (s : string) : string :=
  match s with
  | EmptyString => EmptyString
  | String c s' =>
      if drop c then remove_chars drop s' else String c (remove_chars drop s')
  end.

Fixpoint has_char (a : ascii) (s : string) : bool :=
  match s with
  | EmptyString => false
  | String c s' => Ascii.eqb a c || has_char a s'
  end.

Definition split_scheme (url : string) : string * string :=
  match span_until (fun c => negb (scheme_char c)) url with
  | (String c0 pre, String sep rest) =>
      if is_letter c0 && Ascii.eqb sep ":" then (ascii_lower (String c0 pre), rest)
      else (EmptyString, url)
  | _ => (EmptyString, url)
  end.

Definition netloc_stop (c : ascii) : bool :=
  Ascii.eqb c "/" || Ascii.eqb c "?" || Ascii.eqb c "#".

Definition split_netloc (url : string) : string * string :=
  match url with
  | String "/" (String "/" rest) => span_until netloc_stop rest
  | _ => (EmptyString, url)
  end.

Definition balanced_brackets (loc : string) : bool :=
  Bool.eqb (has_char "[" loc) (has_char "]" loc).

Definition uses_params : list string :=
  [EmptyString; "ftp"; "hdl"; "prospero"; "http"; "imap"; "https"; "shttp";
   "rtsp"; "rtspu"; "sip"; "sips"; "mms"; "sftp"; "tel"].

(** [s] cut before its last [a]. *)
Fixpoint cut_at_last (a : ascii) (s : string) : option (string * string) :=
  match s with
  | EmptyString => None
  | String c s' =>
      match cut_at_last a s' with
      | Some (pre, post) => Some (String c pre, post)
      | None => if Ascii.eqb c a then Some (EmptyString, s) else None
      end
  end.

Definition _splitparams (url : string) : string * string :=
  match cut_at_last "/" url with
  | Some (pre, segment) =>
      let '(seg, par) := span_until (is_char ";") segment in
      (pre +:+ seg, drop_first par)
  | None =>
      let '(seg, par) := span_until (is_char ";") url in (seg, drop_first par)
  end.

Definition split_url (url : string) : option url_parts :=
  let url0 := remove_chars unsafe_url_byte (lstrip c0_control_or_space url) in
  let '(sch, url1) := split_scheme url0 in
  let '(loc, url2) := split_netloc url1 in
  if balanced_brackets loc then
    let '(url3, frag) := span_until (is_char "#") url2 in
    let '(pth, qry) := span_until (is_char "?") url3 in
    let '(pth', par) :=
      if bool_decide (sch ∈ uses_params) && has_char ";" pth
      then _splitparams pth else (pth, EmptyString) in
    Some (UrlParts sch loc pth' par (drop_first qry) (drop_first frag))
  else None.

Definition hex_value (c : ascii) : option nat :=
  let n := Ascii.nat_of_ascii c in
  if ((48 <=? n) && (n <=? 57))%nat then Some (n - 48)%nat
  else if ((65 <=? n) && (n <=? 70))%nat then Some (n - 55)%nat
  else if ((97 <=? n) && (n <=? 102))%nat then Some (n - 87)%nat
  else None.

(** [unquote_to_bytes]: a percent sign followed by two hexadecimal digits
    becomes the byte they name. *)
Fixpoint unquote_to_bytes (s : string) : string :=
  match s with
  | EmptyString => EmptyString
  | String c t =>
      match t with
      | String h (String l rest) =>
          if Ascii.eqb c "%" then
            match hex_value h, hex_value l with
            | Some a, Some b =>
                String (Ascii.ascii_of_nat (16 * a + b)) (unquote_to_bytes rest)
            | _, _ => String c (unquote_to_bytes t)
            end
          else String c (unquote_to_bytes t)
      | _ => String c (unquote_to_bytes t)
      end
  end.

Definition is_ascii (c : ascii) : bool := (Ascii.nat_of_ascii c <? 128)%nat.

(** [unquote]: each run of ASCII characters is unquoted to bytes and
    decoded with U+FFFD for what does not decode; the characters between
    the runs are kept. *)
Fixpoint unquote_runs (s : string) (run : string) : string :=
  match s with
  | EmptyString => Utf8.mark_ill_formed (unquote_to_bytes run)
  | String c s' =>
      if is_ascii c then unquote_runs s' (run +:+ String c EmptyString)
      else Utf8.mark_ill_formed (unquote_to_bytes run) +:+
           String c (unquote_runs s' EmptyString)
  end.

Definition unquote_text (s : string) : string := unquote_runs s EmptyString.

End Urllib.

Definition model_url : PyUrl :=
  {| url_split := Urllib.split_url;
     unquote := Urllib.unquote_text |}.

Fixpoint plus_to_space (s : string) : string :=
  match s with
  | EmptyString => EmptyString
  | String c s' =>
      String (if Ascii.eqb c "+" then " "%char else c) (plus_to_space s')
  end.

Definition truthy (s : string) : bool :=
  match s with
  | EmptyString => false
  | String _ _ => true
  end.

(** A Python dict of lists as an association list in insertion order. *)
Fixpoint dict_add (k v : string) (d : list (string * list string)) :
    list (string * list string) :=
  match d with
  | [] => [(k, [v])]
  | (k', vs) :: d' =>
      if String.eqb k k' then (k', vs ++ [v]) :: d'
      else (k', vs) :: dict_add k v d'
  end.

Definition dict_pop (k : string) (d : list (string * list string)) :
    list (string * list string) :=
  filter (fun kv => fst kv ≠ k) d.

(** [parse_qs(qs, keep_blank_values=...)]: fields are separated by [&]; an
    empty field is skipped; a field without [=] has the empty value; with
    the default [False] a field with an empty value is dropped. *)
Definition parse_qs `{PyUrl} (qs : string) (keep_blank_values : bool) :
    list (string * list string) :=
  fold_left
    (fun d field =>
       match field with
       | EmptyString => d
       | _ =>
           let '(name, rest) := span_until (is_char "=") field in
           let value := drop_first rest in
           if keep_blank_values || truthy value
           then dict_add (unquote (plus_to_space name)) (unquote (plus_to_space value)) d
           else d
       end)
    (split_on "&" qs) [].

(** ** The cross-domain tracking graph

    [networkx.DiGraph] as far as the analysis uses it: the nodes in
    insertion order and the set of edges (an edge added twice is kept
    once; there is no multiplicity). *)

Record digraph : Type := DiGraph {
  nodes : list string;
  edges : list (string * string)
}.

Definition empty_graph : digraph := DiGraph [] [].

Definition add_node (n : string) (l : list string) : list string :=
  if decide (n ∈ l) then l else l ++ [n].

Definition add_edge (g : digraph) (u v : string) : digraph :=
  DiGraph (add_node v (add_node u (nodes g)))
          (if decide ((u, v) ∈ edges g) then edges g else edges g ++ [(u, v)]).

(** A row of the monitor's [requests] table, with the columns the analysis
    selects; [headers_is_json] records whether [json.loads] accepts the
    stored headers text. *)
Record request_row : Type := RequestRow {
  domain : string;
  url : string;
  headers_is_json : bool;
  third_party : Z
}.

Section TrackingGraph.
Context `{PyUrl}.

(** The loop over the fetched rows: the URL is parsed first, then the
    headers; either can raise and end the analysis. *)
Fixpoint add_rows (rows : list request_row) (graph : digraph) : result digraph :=
  match rows with
  | [] => Ok graph
  | row :: rows' =>
      let source_domain := domain row in
      match urlparse (url row) with
      | Raise e => Raise e
      | Ok url_parts =>
          let target_domain := netloc url_parts in
          if headers_is_json row then
            if truthy source_domain && truthy target_domain
            then add_rows rows' (add_edge graph source_domain target_domain)
            else add_rows rows' graph
          else Raise JSONDecodeError
      end
  end.

(** The graph that [_analyze_cross_domain_tracking] builds from the rows
    with [third_party = 1]. *)
Definition tracking_graph (requests : list request_row) : result digraph :=
  add_rows (filter (fun row => third_party row = 1) requests) empty_graph.
End TrackingGraph.

(** ** Ordering

    A stable insertion sort: an element is placed before the first element
    it is below, so elements that compare equal keep their input order.
    [ORDER BY priority] is embedded as this sort on the rows in rowid
    order. *)

Section InsertionSort.
Context {A : Type} (leb : A → A → bool).

Fixpoint insert_sorted (x : A) (l : list A) : list A :=
  match l with
  | [] => [x]
  | y :: l' => if leb x y then x :: l else y :: insert_sorted x l'
  end.

Definition sort_by (l : list A) : list A := foldr insert_sorted [] l.
End InsertionSort.

(** ** Graph analysis *)

(** Modelled from the spec: the score of a domain is its in-degree, the
    number of distinct domains with an edge into it. *)
Definition predecessors (g : digraph) (d : string) : list string :=
  remove_dups (map fst (filter (fun e => snd e = d) (edges g))).

Definition in_degree (g : digraph) (d : string) : nat :=
  length (predecessors g d).

(** Modelled from the spec: the order of the result, descending score and
    then domain name. *)
Definition tracker_leb (a b : string * nat) : bool :=
  (snd b <? snd a)%nat || ((snd a =? snd b)%nat && String.leb (fst a) (fst b)).

(** Modelled from the spec: [_identify_central_trackers] is called by
    [_analyze_cross_domain_tracking] but defined in no source file.  Every
    node is paired with its score, the pairs are ordered and cut to the
    first [k]. *)
Definition centralTrackers (g : digraph) (k : nat) : list (string * nat) :=
  take k (sort_by tracker_leb (map (fun d => (d, in_degree g d)) (remove_dups (nodes g)))).

Definition successors (g : digraph) (u : string) : list string :=
  remove_dups (map snd (filter (fun e => fst e = u) (edges g))).

(** Modelled from the spec: the search behind [trackingChains].  A path is
    extended by one successor at a time, never to a node already on it, at
    most [n] times; the result lists the paths from [u] in node order. *)
Fixpoint chains_from (g : digraph) (n : nat) (visited : list string) (u : string) :
    list (list string) :=
  match n with
  | O => []
  | S n' =>
      successors g u ≫= fun v =>
        if decide (v ∈ u :: visited) then []
        else [u; v] :: map (cons u) (chains_from g n' (u :: visited) v)
  end.

(** Modelled from the spec: [_identify_tracking_chains] is called by
    [_analyze_cross_domain_tracking] but defined in no source file.  A
    chain is a directed path without repeated nodes; its length is its
    number of edges, from 2 to [maxLength]. *)
Definition trackingChains (g : digraph) (maxLength : nat) : list (list string) :=
  filter (fun p => (3 <= length p)%nat)
         (remove_dups (map fst (edges g)) ≫= chains_from g maxLength []).

(** ** Risk assessment

    [_assess_privacy_risks]; [_has_persistent_fingerprinting] is defined in
    no source file and its answer is a parameter. *)

Record finding : Type := Finding {
  f_type : string;
  f_description : string;
  f_impact : string;
  f_mitigation : string
}.

Record risks : Type := Risks {
  high_risk : list finding;
  medium_risk : list finding;
  low_risk : list finding;
  risk_score : Z
}.

Definition persistent_fingerprinting_finding : finding :=
  Finding "persistent_fingerprinting"
          "Persistent device fingerprinting detected"
          "High"
          "Use anti-fingerprinting tools".

Definition _assess_privacy_risks (_has_persistent_fingerprinting : bool) : risks :=
  let risks0 := Risks [] [] [] 0 in
  let risk_score0 := 0 in
  let '(risks1, risk_score1) :=
    if _has_persistent_fingerprinting
    then (Risks (high_risk risks0 ++ [persistent_fingerprinting_finding])
                (medium_risk risks0) (low_risk risks0) (risk_score risks0),
          risk_score0 + 30)
    else (risks0, risk_score0) in
  Risks (high_risk risks1) (medium_risk risks1) (low_risk risks1)
        (Z.min risk_score1 100).

Definition findings (r : risks) : list finding :=
  high_risk r ++ medium_risk r ++ low_risk r.

(** ** A state and exception monad

    A computation reads and writes a state and either returns or raises;
    what was written before a raise stays written, as with Python objects
    and committed SQLite inserts. *)

Definition M (S A : Type) : Type := S → result A * S.

#[export] Instance M_ret {S} : MRet (M S) := λ A a s, (Ok a, s).

#[export] Instance M_bind {S} : MBind (M S) := λ A B f m s,
  match m s with
  | (Ok a, s') => f a s'
  | (Raise e, s') => (Raise e, s')
  end.

Definition raise {S A} (e : exn) : M S A := λ s, (Raise e, s).
Definition gets {S A} (f : S → A) : M S A := λ s, (Ok (f s), s).
Definition modify {S} (f : S → S) : M S unit := λ s, (Ok tt, f s).
Definition lift_result {S A} (r : result A) : M S A := λ s, (r, s).

(** A [for] loop whose body may [return] from the enclosing function. *)
Inductive flow : Type := Next | Return.

Fixpoint for_each {S A} (l : list A) (body : A → M S flow) : M S flow :=
  match l with
  | [] => mret Next
  | x :: l' =>
      f ← body x;
      match f with
      | Return => mret Return
      | Next => for_each l' body
      end
  end.

(** ** The blocker's data *)

(** A row of [blocking_rules] (without [created_at], which nothing reads). *)
Record rule_row : Type := RuleRow {
  row_id : Z;
  rule_type : string;
  row_pattern : string;
  row_action : string;
  row_description : string;
  row_priority : Z;
  enabled : Z
}.

(** The table and what [sqlite_sequence] holds for it: the largest rowid
    that [AUTOINCREMENT] has seen, 0 when it has seen none. *)
Record rules_table : Type := RulesTable {
  rows : list rule_row;
  last_rowid : Z
}.

(** An entry of [self.rules]: the dict built by [load_rules]. *)
Record rule : Type := Rule {
  r_id : Z;
  r_pattern : string;
  r_action : string;
  r_description : string;
  r_priority : Z
}.

(** A row of [blocking_logs]. *)
Record log_row : Type := LogRow {
  log_rule_id : option Z;
  log_action : string;
  log_request_url : string;
  log_request_type : string;
  log_domain : string
}.

Record blocker : Type := Blocker {
  rules_db : rules_table;
  logs_db : list log_row;
  rules : gmap string (list rule)
}.

(** The intercepted request; [req_body] holds bytes. *)
Record http_request : Type := HttpRequest {
  req_url : string;
  req_body : option string;
  aborted : bool
}.

(** The intercepted response; [resp_body] holds bytes. *)
Record http_response : Type := HttpResponse {
  resp_body : string
}.

(** What an interceptor call can touch: the blocker and the two objects
    selenium-wire hands to it. *)
Record session : Type := Session {
  self : blocker;
  request : http_request;
  response : option http_response
}.

Definition set_rules (idx : gmap string (list rule)) (b : blocker) : blocker :=
  Blocker (rules_db b) (logs_db b) idx.

Definition set_rules_db (t : rules_table) (b : blocker) : blocker :=
  Blocker t (logs_db b) (rules b).

Definition append_log (r : log_row) (s : session) : session :=
  Session (Blocker (rules_db (self s)) (logs_db (self s) ++ [r]) (rules (self s)))
          (request s) (response s).

Definition abort (s : session) : session :=
  Session (self s) (HttpRequest (req_url (request s)) (req_body (request s)) true)
          (response s).

Definition set_response_body (body : string) (s : session) : session :=
  Session (self s) (request s) ((fun _ => HttpResponse body) <$> response s).

Definition known_types : list string :=
  ["url"; "cookie"; "storage"; "script"; "fingerprint"].

Definition empty_index : gmap string (list rule) :=
  list_to_map (map (fun k => (k, [])) known_types).

(** [SELECT * FROM blocking_rules WHERE enabled = 1 ORDER BY priority] *)
Definition priority_leb (a b : rule_row) : bool := row_priority a <=? row_priority b.

Definition select_enabled (t : rules_table) : list rule_row :=
  sort_by priority_leb (filter (fun r => enabled r = 1) (rows t)).

Definition rule_dict (row : rule_row) : rule :=
  Rule (row_id row) (row_pattern row) (row_action row) (row_description row)
       (row_priority row).

Definition load_row (row : rule_row) : M blocker flow :=
  idx ← gets rules;
  match idx !! rule_type row with
  | Some l => modify (set_rules (<[rule_type row := l ++ [rule_dict row]]> idx)) ;; mret Next
  | None => raise (KeyError (rule_type row))
  end.

Definition load_rules : M blocker unit :=
  modify (set_rules empty_index) ;;
  db ← gets rules_db;
  for_each (select_enabled db) load_row ;;
  mret tt.

(** SQLite stores an integer in 64 bits, two's complement. *)
Definition min_int64 : Z := -9223372036854775808.
Definition max_int64 : Z := 9223372036854775807.

Definition sqlite_integer (z : Z) : Prop := min_int64 ≤ z ≤ max_int64.

(** The rule id of a log record can be bound: it is [None] or an integer
    that SQLite can store. *)
Definition storable_id (rule_id : option Z) : Prop :=
  match rule_id with
  | Some id => sqlite_integer id
  | None => True
  end.

#[export] Instance storable_id_dec (rule_id : option Z) : Decision (storable_id rule_id) :=
  match rule_id with
  | Some id => decide (sqlite_integer id)
  | None => left I
  end.

(** The largest rowid among the rows, if there are rows. *)
Definition max_rowid (t : rules_table) : option Z :=
  foldr (fun row acc => Some (from_option (Z.max (row_id row)) (row_id row) acc))
        None (rows t).

(** The rowid that [AUTOINCREMENT] gives to the next row: one more than the
    largest rowid of the table and than the largest it has seen. *)
Definition next_rowid (t : rules_table) : Z :=
  Z.max (from_option (fun m => m + 1) 1 (max_rowid t)) (last_rowid t + 1).

(** The largest rowid was not handed out yet. *)
Definition rowids_left (t : rules_table) : Prop :=
  last_rowid t < max_int64 ∧ Forall (fun row => row_id row < max_int64) (rows t).

(** [INSERT INTO blocking_rules (rule_type, pattern, action, description,
    priority) VALUES (?, ?, ?, ?, ?)]: binding a Python [int] outside 64
    bits raises [OverflowError]; the row gets the next rowid, [enabled] at
    its default, and when the largest rowid was handed out already the
    insert fails; a failed insert stores nothing. *)
Definition table_insert (t : rules_table) (rule_type pattern action description : string)
    (priority : Z) : result rules_table :=
  if decide (sqlite_integer priority) then
    if decide (rowids_left t) then
      Ok (RulesTable
            (rows t ++
             [RuleRow (next_rowid t) rule_type pattern action description priority 1])
            (next_rowid t))
    else Raise OperationalError
  else Raise OverflowError.

Definition insert_rule (rule_type pattern action description : string)
    (priority : Z) : M blocker Z :=
  db ← gets rules_db;
  db' ← lift_result (table_insert db rule_type pattern action description priority);
  modify (set_rules_db db') ;;
  mret (last_rowid db').

Definition add_rule (rule_type pattern action description : string)
    (priority : Z) : M blocker Z :=
  rule_id ← insert_rule rule_type pattern action description priority;
  load_rules ;;
  mret rule_id.

(** [self.rules[key]] *)
Definition rules_of (key : string) : M session (list rule) :=
  idx ← gets (rules ∘ self);
  match idx !! key with
  | Some l => mret l
  | None => raise (KeyError key)
  end.

Definition tracking_params : list string :=
  ["utm_source"; "utm_medium"; "utm_campaign"; "fbclid"; "gclid"; "_ga"; "ref"].

(** [urlparse] is the function imported from [urllib.parse], which has no
    attribute [urlunparse]: evaluating the right-hand side of the last
    assignment raises and [request.url] is never assigned. *)
Definition attribute_error : exn :=
  AttributeError "'function' object has no attribute 'urlunparse'".

Definition dquote : string := String (Ascii.ascii_of_nat 34) EmptyString.

Definition replacements : list (string * string) :=
  [("canvas.toDataURL", "function() { return " +:+ dquote +:+ dquote +:+ "; }");
   ("navigator.userAgent", dquote +:+ "Mozilla/5.0" +:+ dquote);
   ("navigator.plugins", "[]");
   ("navigator.vendorSub", dquote +:+ dquote)].

Definition fingerprinting_patterns : list string :=
  ["canvas\.toDataURL"; "navigator\.userAgent"; "navigator\.plugins";
   "navigator\.platform"; "navigator\.language"; "screen\.width";
   "screen\.height"; "window\.innerWidth"; "window\.innerHeight"].

Section Blocker.
Context `{PyRe} `{PyUrl} `{PyText}.

(** The domain is computed while the arguments of the insert are
    evaluated, and a rule id outside 64 bits cannot be bound: when
    [urlparse] raises, or else the binding does, nothing is inserted. *)
Definition _log_blocking (rule_id : option Z) (action url request_type : string) :
    M session unit :=
  url_parts ← lift_result (urlparse url);
  if decide (storable_id rule_id)
  then modify (append_log (LogRow rule_id action url request_type (netloc url_parts)))
  else raise OverflowError.

(** The query string that [_modify_request] computes for [url_parts[4]]. *)
Definition stripped_query (url : string) : result string :=
  match urlparse url with
  | Raise e => Raise e
  | Ok url_parts =>
      let query0 := parse_qs (query url_parts) true in
      let query1 := fold_left (fun q param => dict_pop param q) tracking_params query0 in
      Ok (str_join "&" (map (fun kv => fst kv +:+ "=" +:+ hd EmptyString (snd kv)) query1))
  end.

Definition _modify_request (rule : rule) : M session unit :=
  if contains "strip_params" (r_pattern rule) then
    url ← gets (req_url ∘ request);
    new_query ← lift_result (stripped_query url);
    raise attribute_error
  else mret tt.

Definition _modify_script (script_body : string) (rule : rule) : string :=
  let script_text := decode_ignore script_body in
  let script_text :=
    if contains "fingerprint" (r_pattern rule)
    then fold_left (fun text on => str_replace (fst on) (snd on) text)
                   replacements script_text
    else script_text in
  encode_utf8 script_text.

(** [any(re.search(pattern, text) for pattern in patterns)] *)
Fixpoint any_search (patterns : list string) (text : string) : result bool :=
  match patterns with
  | [] => Ok false
  | pattern :: rest =>
      match re_search pattern text with
      | Raise e => Raise e
      | Ok true => Ok true
      | Ok false => any_search rest text
      end
  end.

Definition _detect_fingerprinting : M session bool :=
  body ← gets (req_body ∘ request);
  let request_body := default EmptyString body in
  let request_text := decode_ignore request_body in
  lift_result (any_search fingerprinting_patterns request_text).

Definition url_rule_step (rule : rule) : M session flow :=
  url ← gets (req_url ∘ request);
  found ← lift_result (re_search (r_pattern rule) url);
  if found : bool then
    if String.eqb (r_action rule) "block" then
      _log_blocking (Some (r_id rule)) "block" url "url" ;;
      modify abort ;;
      mret Return
    else if String.eqb (r_action rule) "modify" then
      _modify_request rule ;; mret Next
    else mret Next
  else mret Next.

Definition _intercept_request : M session unit :=
  url_rules ← rules_of "url";
  f ← for_each url_rules url_rule_step;
  match f with
  | Return => mret tt
  | Next =>
      fp ← _detect_fingerprinting;
      if fp : bool then
        url ← gets (req_url ∘ request);
        _log_blocking None "block" url "fingerprint" ;;
        modify abort
      else mret tt
  end.

Definition script_rule_step (rule : rule) : M session flow :=
  resp ← gets response;
  let body := default EmptyString (resp_body <$> resp) in
  found ← lift_result (re_search (r_pattern rule) (decode_ignore body));
  if found : bool then
    (if String.eqb (r_action rule) "block" then modify (set_response_body EmptyString)
     else if String.eqb (r_action rule) "modify"
          then modify (set_response_body (_modify_script body rule))
          else mret tt) ;;
    url ← gets (req_url ∘ request);
    _log_blocking (Some (r_id rule)) (r_action rule) url "script" ;;
    mret Next
  else mret Next.

Definition _intercept_response : M session unit :=
  resp ← gets response;
  match resp with
  | Some _ =>
      script_rules ← rules_of "script";
      for_each script_rules script_rule_step ;;
      mret tt
  | None => mret tt
  end.

End Blocker.

(** ** Vocabulary of the statements *)

(** The records that [_log_blocking] writes; [url_parts] is what
    [urlparse] gave for the URL. *)
Definition url_record (r : rule) (url : string) (url_parts : url_parts) : log_row :=
  LogRow (Some (r_id r)) "block" url "url" (netloc url_parts).

Definition fingerprint_record (url : string) (url_parts : url_parts) : log_row :=
  LogRow None "block" url "fingerprint" (netloc url_parts).

Definition script_record (r : rule) (url : string) (url_parts : url_parts) : log_row :=
  LogRow (Some (r_id r)) (r_action r) url "script" (netloc url_parts).

(** The entries that [load_rules] appends to the list of type [k] while
    it reads the rows [l]. *)
Definition rows_of_type (k : string) (l : list rule_row) : list rule :=
  map rule_dict (filter (fun row => rule_type row = k) l).

(** The enabled rows of a type, in table order. *)
Definition enabled_of_type (k : string) (t : rules_table) : list rule_row :=
  filter (fun row => rule_type row = k) (filter (fun row => enabled row = 1) (rows t)).

Section Vocabulary.
Context `{PyRe} `{PyUrl} `{PyText}.

(** The response body a matching script rule leaves behind. *)
Definition body_after (r : rule) (body : string) : string :=
  if String.eqb (r_action r) "block" then EmptyString
  else if String.eqb (r_action r) "modify" then _modify_script body r
  else body.

Definition matches (r : rule) (text : string) : Prop :=
  re_search (r_pattern r) text = Ok true.

Definition blocks (r : rule) (text : string) : Prop :=
  matches r text ∧ r_action r = "block".

(** The rule is evaluated on [url] and the loop goes on to the next rule:
    it does not match, or it matches with an action other than [block]
    (a [modify] rule only when its pattern lacks [strip_params]). *)
Definition passes_on (url : string) (r : rule) : Prop :=
  re_search (r_pattern r) url = Ok false ∨
  (matches r url ∧ r_action r ≠ "block" ∧
   (r_action r = "modify" → contains "strip_params" (r_pattern r) = false)).

(** What [_modify_request] raises for a rule whose pattern names
    [strip_params]: the URL is parsed before the faulty assignment. *)
Definition strip_error (url : string) : exn :=
  match urlparse url with
  | Raise e => e
  | Ok _ => attribute_error
  end.

(** What [_log_blocking] needs to write its record: the parts of the
    URL, and a rule id that SQLite can store. *)
Definition log_parts (rule_id : option Z) (url : string) : result url_parts :=
  match urlparse url with
  | Raise e => Raise e
  | Ok url_parts =>
      if decide (storable_id rule_id) then Ok url_parts
      else Raise OverflowError
  end.

(** The first rule of the list, in order, whose pattern matches. *)
Fixpoint first_match (rs : list rule) (text : string) : option rule :=
  match rs with
  | [] => None
  | r :: rs' =>
      match re_search (r_pattern r) text with
      | Ok true => Some r
      | _ => first_match rs' text
      end
  end.

(** What the heuristic answers on the body of the session's request. *)
Definition fingerprint_fires (s : session) : result bool :=
  any_search fingerprinting_patterns
             (decode_ignore (default EmptyString (req_body (request s)))).

(** The script rules that match the decoded response body when their
    turn comes, the body being what the rules before them left;
    evaluation ends at a pattern that does not compile. *)
Fixpoint script_trace (rs : list rule) (body : string) : list rule :=
  match rs with
  | [] => []
  | r :: rs' =>
      match re_search (r_pattern r) (decode_ignore body) with
      | Ok true => r :: script_trace rs' (body_after r body)
      | Ok false => script_trace rs' body
      | Raise _ => []
      end
  end.
End Vocabulary.

(** A later call of [add_rule], and a sequence of such calls whatever they
    return. *)
Record call : Type := Call {
  c_type : string;
  c_pattern : string;
  c_action : string;
  c_description : string;
  c_priority : Z
}.

Definition run_call (b : blocker) (c : call) : blocker :=
  snd (add_rule (c_type c) (c_pattern c) (c_action c) (c_description c) (c_priority c) b).

Definition run_calls (calls : list call) (b : blocker) : blocker :=
  fold_left run_call calls b.

(** Consecutive nodes of the list are joined by edges of the graph. *)
Fixpoint is_path (g : digraph) (p : list string) : Prop :=
  match p with
  | u :: ((v :: _) as p') => (u, v) ∈ edges g ∧ is_path g p'
  | _ => True
  end.

(** Descending score, then ascending name. *)
Definition tracker_before (a b : string * nat) : Prop :=
  (snd b < snd a)%nat ∨ (snd a = snd b ∧ String.leb (fst a) (fst b) = true).

(** The store as [add_rule] leaves it after a successful insert and
    before reloading. *)
Definition inserted (b : blocker) (t p a d : string) (prio : Z) : blocker :=
  set_rules_db
    (RulesTable (rows (rules_db b) ++
                 [RuleRow (next_rowid (rules_db b)) t p a d prio 1])
                (next_rowid (rules_db b))) b.

(** The row contributes an edge: its URL parses and both ends are
    non-empty. *)
Definition edge_of `{PyUrl} (row : request_row) (e : string * string) : Prop :=
  ∃ url_parts, urlparse (url row) = Ok url_parts ∧
    domain row = fst e ∧ netloc url_parts = snd e ∧
    fst e ≠ EmptyString ∧ snd e ≠ EmptyString.

(** The row can be read: its URL parses and its headers are JSON. *)
Definition readable `{PyUrl} (row : request_row) : Prop :=
  (∃ url_parts, urlparse (url row) = Ok url_parts) ∧ headers_is_json row = true.

(** The exception a row that cannot be read raises: the URL is parsed
    before the headers. *)
Definition row_error `{PyUrl} (row : request_row) : exn :=
  match urlparse (url row) with
  | Raise e => e
  | Ok _ => JSONDecodeError
  end.

(** The in-degree read off the edges: [n] distinct nodes have an edge into
    [d]. *)
Definition has_in_degree (g : digraph) (d : string) (n : nat) : Prop :=
  ∃ sources, NoDup sources ∧ (∀ s, s ∈ sources ↔ (s, d) ∈ edges g) ∧
             n = length sources.

(** All nodes with their in-degree, ranked. *)
Definition ranking (g : digraph) : list (string * nat) :=
  sort_by tracker_leb (map (fun d => (d, in_degree g d)) (remove_dups (nodes g))).

(** ** Rule sets and events of the worked examples *)

Definition blocker0 : blocker := Blocker (RulesTable [] 0) [] ∅.

Definition observe_then_block : blocker :=
  snd (add_rule "url" ".*" "block" "catch-all" 2
         (snd (add_rule "url" "track" "log" "observe" 1 blocker0))).

Definition track_request : http_request :=
  HttpRequest "https://ads.example/track?x=1" None false.

Definition unloaded_store : blocker :=
  Blocker (RulesTable [RuleRow 1 "url" "track" "log" "observe" 1 1;
                       RuleRow 2 "url" ".*" "block" "catch-all" 2 1] 2) [] ∅.

Definition observe_only : blocker :=
  snd (add_rule "url" "track" "log" "observe" 1 blocker0).

Definition fingerprinting_request : http_request :=
  HttpRequest "https://ads.example/track?x=1"
              (Some "send(navigator.userAgent)") false.

Definition two_script_rules : blocker :=
  snd (add_rule "script" "analytics" "log" "second" 2
         (snd (add_rule "script" "analytics" "log" "first" 1 blocker0))).

Definition script_session : session :=
  Session two_script_rules
          (HttpRequest "https://cdn.example/a.js" None false)
          (Some (HttpResponse "analytics.push(1)")).

Definition strip_rule_store : blocker :=
  snd (add_rule "url" "strip_params|utm_" "modify" "strip tracking parameters" 1
         blocker0).

Definition tagged_request : http_request :=
  HttpRequest "https://x.com/?utm_source=a&id=7" None false.

(** A store with a block rule for requests and two log rules for
    responses, and an exchange that meets all three. *)
Definition mixed_rules : blocker :=
  snd (add_rule "script" "analytics" "log" "second" 2
         (snd (add_rule "script" "analytics" "log" "first" 1
                 (snd (add_rule "url" "track" "block" "tracking endpoint" 1 blocker0))))).

Definition mixed_session : session :=
  Session mixed_rules track_request (Some (HttpResponse "analytics.push(1)")).

(** A request whose URL [urlparse] rejects: the bracket is not closed. *)
Definition bracket_request : http_request :=
  HttpRequest "http://[::1/track" None false.

(** ** The rest of the blocker *)

(** The response body when the loop over the script rules ends and every
    record could be written: each matching rule rewrites what the rules
    before it left. *)
Section ScriptBody.
Context `{PyRe} `{PyText}.

Fixpoint script_body (rs : list rule) (body : string) : string :=
  match rs with
  | [] => body
  | r :: rs' =>
      match re_search (r_pattern r) (decode_ignore body) with
      | Ok true => script_body rs' (body_after r body)
      | Ok false => script_body rs' body
      | Raise _ => body
      end
  end.
End ScriptBody.

(** The session with another rule index. *)
Definition with_rules (idx : gmap string (list rule)) (s : session) : session :=
  Session (set_rules idx (self s)) (request s) (response s).

(** The state of a table that only [AUTOINCREMENT] has numbered: row ids
    are unique and none exceeds the largest rowid seen. *)
Definition ids_fresh (t : rules_table) : Prop :=
  0 ≤ last_rowid t ∧
  Forall (fun row => row_id row ≤ last_rowid t) (rows t) ∧
  NoDup (map row_id (rows t)).

(** *** [BlockingRulesManager.add_default_rules]

    Four inserts into the table the blocker loads from. *)
Record rule_def : Type := RuleDef {
  d_type : string;
  d_pattern : string;
  d_action : string;
  d_description : string;
  d_priority : Z
}.

Definition default_rules : list rule_def :=
  [RuleDef "url" "(analytics|tracking|beacon|telemetry)" "block"
           "Block common tracking endpoints" 1;
   RuleDef "cookie" "(_ga|_gid|fbp|_fbp)" "block"
           "Block common tracking cookies" 1;
   RuleDef "storage" "(fingerprint|canvas|device)" "block"
           "Block fingerprinting storage" 2;
   RuleDef "script" "(navigator\.userAgent|canvas\.toDataURL)" "modify"
           "Modify fingerprinting scripts" 2].

(** The inserts share one connection that is committed after the last
    one: when an insert raises, none of the rows is stored. *)
Definition insert_def (t : result rules_table) (d : rule_def) : result rules_table :=
  match t with
  | Ok t =>
      table_insert t (d_type d) (d_pattern d) (d_action d) (d_description d)
                   (d_priority d)
  | Raise e => Raise e
  end.

Definition add_default_rules (t : rules_table) : result rules_table :=
  fold_left insert_def default_rules (Ok t).

(** *** [TrackingBlocker.generate_report]

    [GROUP BY] as a map from the key to the number of rows with it.  The
    query fixes neither the order of the groups nor the order of equal
    counts; the embedding takes the order of [map_to_list] and a stable
    sort, and no statement depends on either. *)
Definition count_by {A} (key : A → string) (l : list A) : gmap string nat :=
  foldr (fun x m => <[key x := S (default 0%nat (m !! key x))]> m) ∅ l.

Definition sum_values (m : gmap string nat) : nat :=
  map_fold (fun _ v acc => (v + acc)%nat) 0%nat m.

Definition count_desc (a b : string * nat) : bool := (snd b <=? snd a)%nat.

Record blocker_report : Type := BlockerReport {
  total_blocks : nat;
  blocks_by_type : gmap string nat;
  top_blocked_domains : list (string * nat);
  active : nat;
  by_type : gmap string nat
}.

Definition generate_report (b : blocker) : blocker_report :=
  let blocks := count_by log_request_type (logs_db b) in
  BlockerReport
    (sum_values blocks)
    blocks
    (take 10 (sort_by count_desc (map_to_list (count_by log_domain (logs_db b)))))
    (map_fold (fun _ rules acc => (length rules + acc)%nat) 0%nat (rules b))
    (length <$> rules b).

(** *** Stand-ins that cannot rebuild a name

    [new] starts and ends with characters that do not occur in [k], and [k]
    does not occur in [new]: putting [new] into a text creates no
    occurrence of [k]. *)
Fixpoint char_in (a : ascii) (k : string) : bool :=
  match k with
  | EmptyString => false
  | String b k' => Ascii.eqb a b || char_in a k'
  end.

Definition first_char_outside (new k : string) : bool :=
  match new with
  | EmptyString => false
  | String a _ => negb (char_in a k)
  end.

Fixpoint last_char_outside (new k : string) : bool :=
  match new with
  | EmptyString => false
  | String a EmptyString => negb (char_in a k)
  | String _ new' => last_char_outside new' k
  end.

Definition stand_in_safe (k new : string) : bool :=
  first_char_outside new k && last_char_outside new k && negb (contains k new).

(** Wherever [str.replace] copies a character of [s] instead of replacing,
    no occurrence of [k] starts in [s]. *)
Fixpoint copy_safe (old k s : string) : Prop :=
  match s with
  | EmptyString => True
  | String _ s' =>
      (startswith old s = false → startswith k s = false) ∧ copy_safe old k s'
  end.

(** ** The rest of the graph builder *)

(** [n] is an end of some edge. *)
Definition endpoint (g : digraph) (n : string) : Prop :=
  ∃ m, (n, m) ∈ edges g ∨ (m, n) ∈ edges g.

(** Nodes are listed once and are exactly the ends of the edges. *)
Definition graph_wf (g : digraph) : Prop :=
  NoDup (nodes g) ∧ ∀ n, n ∈ nodes g ↔ endpoint g n.

(** ** The network monitor ([monitors/network_monitor.py])

    The monitor fills the [requests] table that the analysis reads. *)

(** The intercepted request as far as the monitor reads it; [m_headers] is
    [dict(request.headers)]. *)
Record monitored_request : Type := MonitoredRequest {
  m_url : string;
  m_method : string;
  m_headers : list (string * string);
  m_body : option string
}.

(** A row of [requests] as [_store_request] writes it (without the
    timestamp). *)
Record stored_request : Type := StoredRequest {
  s_url : string;
  s_method : string;
  s_headers : list (string * string);
  s_query_params : list (string * list string);
  s_post_data : option string;
  s_domain : string;
  s_third_party : bool;
  s_contains_tracking_data : bool
}.

Definition tracking_indicators : list string :=
  ["id"; "uid"; "guid"; "uuid"; "tracking"; "analytics"; "visitor"; "client_id"].

Section Monitor.
Context `{PyUrl} `{PyText}.

(** [any(indicator in name.lower() for indicator in tracking_indicators)] *)
Definition indicated (name : string) : bool :=
  existsb (fun indicator => contains indicator (lower name)) tracking_indicators.

Definition _contains_tracking_data (url : string) (headers : list (string * string)) :
    result bool :=
  match urlparse url with
  | Raise e => Raise e
  | Ok url_parts =>
      let params := parse_qs (query url_parts) false in
      Ok (existsb (fun param => indicated (fst param)) params ||
          existsb (fun header => indicated (fst header)) headers)
  end.

(** The values of the insert are computed first; when one of them raises
    nothing is inserted. *)
Definition _store_request (db : list stored_request) (url method : string)
    (headers : list (string * string)) (query_params : list (string * list string))
    (post_data : option string) (domain : string) (is_third_party : bool) :
    result (list stored_request) :=
  match _contains_tracking_data url headers with
  | Raise e => Raise e
  | Ok flag =>
      Ok (db ++ [StoredRequest url method headers query_params post_data domain
                               is_third_party flag])
  end.

(** The interceptor installed by [start_monitoring].  Its body runs under
    [try ... except Exception], which prints what was raised and goes
    on: a request whose URL does not parse leaves no row.  What follows
    the insert in the source cannot change the table. *)
Definition request_interceptor (base_domain : string) (db : list stored_request)
    (request : monitored_request) : list stored_request :=
  match urlparse (m_url request) with
  | Raise _ => db
  | Ok url_parts =>
      let is_third_party := negb (String.eqb (netloc url_parts) base_domain) in
      match _store_request db (m_url request) (m_method request) (m_headers request)
                           (parse_qs (query url_parts) false) (m_body request)
                           (netloc url_parts) is_third_party with
      | Raise _ => db
      | Ok db' => db'
      end
  end.

(** The row that the interceptor appends for a request whose URL parsed
    to [url_parts]. *)
Definition stored_row (base_domain : string) (request : monitored_request)
    (url_parts : url_parts) : stored_request :=
  StoredRequest (m_url request) (m_method request) (m_headers request)
                (parse_qs (query url_parts) false)
                (m_body request) (netloc url_parts)
                (negb (String.eqb (netloc url_parts) base_domain))
                (existsb (fun param => indicated (fst param))
                         (parse_qs (query url_parts) false) ||
                 existsb (fun header => indicated (fst header)) (m_headers request)).

(** The rows that a sequence of requests leaves. *)
Definition stored_rows (base_domain : string) (requests : list monitored_request) :
    list stored_request :=
  omap (fun request =>
          match urlparse (m_url request) with
          | Ok url_parts => Some (stored_row base_domain request url_parts)
          | Raise _ => None
          end) requests.

(** [start_monitoring] computes the domain of the monitored site before
    it installs the interceptor. *)
Definition start_monitoring (base_url : string) : result string :=
  match urlparse base_url with
  | Raise e => Raise e
  | Ok url_parts => Ok (netloc url_parts)
  end.

(** The table after monitoring a sequence of requests from [base_url],
    starting with no rows. *)
Definition monitor (base_url : string) (requests : list monitored_request) :
    result (list stored_request) :=
  match start_monitoring base_url with
  | Raise e => Raise e
  | Ok base_domain => Ok (fold_left (request_interceptor base_domain) requests [])
  end.
End Monitor.

(** The columns [_analyze_cross_domain_tracking] selects from a stored row:
    the headers were written by [json.dumps] and parse; a Python [True] is
    stored as 1. *)
Definition selected_columns (r : stored_request) : request_row :=
  RequestRow (s_domain r) (s_url r) true (if s_third_party r then 1 else 0).

(** The name and the undecoded value of a field [name=value] of a query
    string. *)
Definition field_name `{PyUrl} (field : string) : string :=
  unquote (plus_to_space (fst (span_until (is_char "=") field))).

Definition field_value (field : string) : string :=
  drop_first (snd (span_until (is_char "=") field)).

(** The four indicators that decide: every other one contains [id]. *)
Definition deciding_indicators : list string :=
  ["id"; "tracking"; "analytics"; "visitor"].

(** ** The JavaScript analyses of the engine *)

Module Engine.

(** The columns of [js_activities] that the analyses select. *)
Record js_activity : Type := JsActivity {
  script_url : string;
  function_name : string;
  arguments : string;
  timestamp : string
}.

Definition suspicious_apis : list string :=
  ["getImageData"; "toDataURL"; "getClientRects"; "getFloatFrequencyData";
   "enumerateDevices"].

Record attempt : Type := Attempt {
  a_script : string;
  a_function : string;
  a_args : string;
  a_timestamp : string
}.

Record javascript_analysis : Type := JavascriptAnalysis {
  fingerprinting_attempts : list attempt;
  suspicious_functions : list attempt;
  event_listeners : list attempt;
  data_access_patterns : list attempt
}.

Definition _analyze_javascript (js_activities : list js_activity) : javascript_analysis :=
  JavascriptAnalysis
    (map (fun row => Attempt (script_url row) (function_name row) (arguments row)
                             (timestamp row))
         (filter (fun row => function_name row ∈ suspicious_apis) js_activities))
    [] [] [].

Record canvas_entry : Type := CanvasEntry {
  c_script : string;
  c_timestamp : string;
  c_details : string
}.

Record fingerprinting : Type := Fingerprinting {
  canvas_fingerprinting : list canvas_entry;
  audio_fingerprinting : list canvas_entry;
  font_fingerprinting : list canvas_entry;
  behavioral_fingerprinting : list canvas_entry
}.

Definition canvas_apis : list string := ["getImageData"; "toDataURL"].

Definition _detect_fingerprinting (js_activities : list js_activity) : fingerprinting :=
  Fingerprinting
    (map (fun row => CanvasEntry (script_url row) (timestamp row) (arguments row))
         (filter (fun row => function_name row ∈ canvas_apis) js_activities))
    [] [] [].

(** The canvas entry that an attempt gives. *)
Definition canvas_of (a : attempt) : canvas_entry :=
  CanvasEntry (a_script a) (a_timestamp a) (a_args a).

End Engine.

(** ** Rules that cannot make an interceptor raise *)

(** The pattern compiles, and the rule is not a [modify] rule whose pattern
    names [strip_params]. *)
Definition sound_rule `{PyRe} (r : rule) : Prop :=
  is_Some (re_compile (r_pattern r)) ∧
  ¬ (r_action r = "modify" ∧ contains "strip_params" (r_pattern r) = true).

(** A rule that replaces nothing in a body: it does not block, and if it
    modifies, its pattern lacks the word [_modify_script] looks for.  What
    such a [modify] rule still does is decode the body and encode it
    again. *)
Definition inert (r : rule) : Prop :=
  r_action r ≠ "block" ∧
  (r_action r = "modify" → contains "fingerprint" (r_pattern r) = false).

(** The script rule among the default rules, as [load_rules] indexes it. *)
Definition default_script_rule : rule :=
  Rule 4 "(navigator\.userAgent|canvas\.toDataURL)" "modify"
       "Modify fingerprinting scripts" 2.
(** * Proofs *)

(** ** The library models on the repository's own patterns and URLs *)

Example re_search_literal :
  @re_search model_re "track" "https://ads.example/track?x=1" = Ok true.
Proof. vm_compute. reflexivity. Qed.

Example re_search_default_url_rule :
  @re_search model_re "(analytics|tracking|beacon|telemetry)"
             "https://ads.example/beacon?x=1" = Ok true ∧
  @re_search model_re "(analytics|tracking|beacon|telemetry)"
             "https://ads.example/track?x=1" = Ok false.
Proof. split; vm_compute; reflexivity. Qed.

Example re_search_escaped_dot :
  @re_search model_re "navigator\.userAgent" "var a = navigator.userAgent;" = Ok true ∧
  @re_search model_re "navigator\.userAgent" "var a = navigatorXuserAgent;" = Ok false.
Proof. split; vm_compute; reflexivity. Qed.

Example re_search_any : @re_search model_re ".*" EmptyString = Ok true.
Proof. vm_compute. reflexivity. Qed.

Example re_search_malformed :
  @re_search model_re "(" "x" = Raise (ReError "(") ∧
  @re_search model_re "*a" "x" = Raise (ReError "*a") ∧
  @re_search model_re "a)" "x" = Raise (ReError "a)").
Proof. repeat split; vm_compute; reflexivity. Qed.

Example fingerprinting_patterns_compile :
  Forall (fun p => is_Some (@re_compile model_re p)) fingerprinting_patterns.
Proof. repeat constructor; vm_compute; eauto. Qed.

Example urlparse_example :
  @urlparse model_url "https://x.com/?utm_source=a&id=7" =
  Ok (UrlParts "https" "x.com" "/" EmptyString "utm_source=a&id=7" EmptyString).
Proof. vm_compute. reflexivity. Qed.

(** An opening bracket without its partner in the network location, and a
    URL after leading blanks. *)
Example urlparse_invalid :
  @urlparse model_url "http://[::1/track" = Raise ValueError ∧
  @urlparse model_url " http://ads.example/x" =
  Ok (UrlParts "http" "ads.example" "/x" EmptyString EmptyString EmptyString).
Proof. split; vm_compute; reflexivity. Qed.

Example parse_qs_example :
  @parse_qs model_url "utm_source=a&id=7&id=8&flag&empty=" true =
  [("utm_source", ["a"]); ("id", ["7"; "8"]); ("flag", [EmptyString]);
   ("empty", [EmptyString])] ∧
  @parse_qs model_url "utm_source=a&id=7&id=8&flag&empty=" false =
  [("utm_source", ["a"]); ("id", ["7"; "8"])].
Proof. split; vm_compute; reflexivity. Qed.

(** A byte that starts no UTF-8 sequence is dropped by the decoder. *)
Example decode_ignore_example :
  @decode_ignore model_text
    ("navigator.user" +:+ String (Ascii.ascii_of_nat 255) "Agent") =
  "navigator.userAgent".
Proof. vm_compute. reflexivity. Qed.

Example str_replace_example : str_replace "ab" "X" "ababcab" = "XXcX".
Proof. vm_compute. reflexivity. Qed.


(** ** The insertion sort *)

Section InsertionSortFacts.
Context {A : Type} (leb : A → A → bool).

Lemma insert_sorted_perm (x : A) (l : list A) :
  insert_sorted leb x l ≡ₚ x :: l.
Proof.
  induction l as [|y l IH]; simpl; [done|].
  destruct (leb x y); [done|].
  rewrite IH. apply Permutation_swap.
Qed.

Lemma sort_by_perm (l : list A) : sort_by leb l ≡ₚ l.
Proof.
  induction l as [|x l IH]; simpl; [done|].
  rewrite insert_sorted_perm. by rewrite IH.
Qed.

Lemma elem_of_sort_by (x : A) (l : list A) : x ∈ sort_by leb l ↔ x ∈ l.
Proof. by rewrite sort_by_perm. Qed.

Definition lebP (a b : A) : Prop := leb a b = true.

Hypothesis leb_total : ∀ a b, leb a b = false → leb b a = true.

Lemma insert_sorted_HdRel (a x : A) (l : list A) :
  lebP a x → HdRel lebP a l → HdRel lebP a (insert_sorted leb x l).
Proof.
  intros Hax Hl. destruct l as [|y l]; simpl.
  - by constructor.
  - destruct (leb x y); constructor; [done|]. by inversion Hl.
Qed.

Lemma insert_sorted_Sorted (x : A) (l : list A) :
  Sorted lebP l → Sorted lebP (insert_sorted leb x l).
Proof.
  induction 1 as [|y l Hl IH Hhd]; simpl.
  - repeat constructor.
  - destruct (leb x y) eqn:Hxy.
    + constructor; [by constructor|]. by constructor.
    + constructor; [done|]. apply insert_sorted_HdRel; [|done].
      by apply leb_total.
Qed.

Lemma sort_by_Sorted (l : list A) : Sorted lebP (sort_by leb l).
Proof.
  induction l as [|x l IH]; simpl; [constructor|].
  by apply insert_sorted_Sorted.
Qed.
End InsertionSortFacts.

(** Sorting on an integer key is stable: the elements with a given key
    come out in their input order. *)
Section StableSort.
Context {A : Type} (key : A → Z).
Let kleb (a b : A) : bool := key a <=? key b.

Lemma insert_sorted_filter_key (p : Z) (x : A) (l : list A) :
  filter (fun y => key y = p) (insert_sorted kleb x l) =
  filter (fun y => key y = p) (x :: l).
Proof.
  induction l as [|y l IH]; simpl; [done|].
  unfold kleb at 1. destruct (Z.leb_spec (key x) (key y)) as [Hle|Hlt]; [done|].
  rewrite filter_cons, IH. rewrite !filter_cons.
  repeat case_decide; try done; lia.
Qed.

Lemma sort_by_filter_key (p : Z) (l : list A) :
  filter (fun y => key y = p) (sort_by kleb l) = filter (fun y => key y = p) l.
Proof.
  induction l as [|x l IH]; simpl; [done|].
  rewrite insert_sorted_filter_key, !filter_cons, IH. done.
Qed.

Lemma sort_by_key_Sorted (l : list A) :
  StronglySorted (fun a b => key a ≤ key b) (sort_by kleb l).
Proof.
  apply Sorted_StronglySorted.
  - intros a b c Hab Hbc. lia.
  - eapply Sorted_ind with (P := fun l => Sorted (fun a b => key a ≤ key b) l);
      [constructor| |apply (sort_by_Sorted kleb)].
    + intros a l0 _ IH Hhd. constructor; [done|].
      destruct Hhd; constructor. unfold lebP, kleb in *. lia.
    + intros a b Hab. unfold kleb in *. lia.
Qed.
End StableSort.

(** ** Loading the rule index *)

Ltac msimpl :=
  unfold mbind, M_bind, mret, M_ret, gets, modify, raise, lift_result; simpl.

Lemma for_each_cons {S A} (x : A) (l : list A) (body : A → M S flow) (s : S) :
  for_each (x :: l) body s =
  match body x s with
  | (Ok Next, s') => for_each l body s'
  | (Ok Return, s') => (Ok Return, s')
  | (Raise e, s') => (Raise e, s')
  end.
Proof.
  simpl. unfold mbind, M_bind. destruct (body x s) as [[[]|] ?]; reflexivity.
Qed.

Lemma for_each_nil {S A} (body : A → M S flow) (s : S) :
  for_each [] body s = (Ok Next, s).
Proof. reflexivity. Qed.

Lemma load_row_known (row : rule_row) (b : blocker) (l0 : list rule) :
  rules b !! rule_type row = Some l0 →
  load_row row b =
  (Ok Next, set_rules (<[rule_type row := l0 ++ [rule_dict row]]> (rules b)) b).
Proof. intros Hl0. unfold load_row. msimpl. rewrite Hl0. reflexivity. Qed.

Lemma load_row_unknown (row : rule_row) (b : blocker) :
  rules b !! rule_type row = None →
  load_row row b = (Raise (KeyError (rule_type row)), b).
Proof. intros Hl0. unfold load_row. msimpl. rewrite Hl0. reflexivity. Qed.

Lemma empty_index_known (k : string) :
  k ∈ known_types → empty_index !! k = Some [].
Proof.
  unfold known_types. rewrite !elem_of_cons, elem_of_nil.
  intros [->|[->|[->|[->|[->|[]]]]]]; reflexivity.
Qed.

Lemma empty_index_unknown (k : string) :
  k ∉ known_types → empty_index !! k = None.
Proof.
  intros Hk. unfold empty_index. apply not_elem_of_list_to_map.
  by rewrite <- list_fmap_compose, list_fmap_id.
Qed.

Lemma empty_index_is_Some (k : string) :
  is_Some (empty_index !! k) ↔ k ∈ known_types.
Proof.
  split.
  - intros Hs. destruct (decide (k ∈ known_types)) as [|Hn]; [done|].
    rewrite (empty_index_unknown _ Hn) in Hs. by destruct Hs.
  - intros Hk. rewrite (empty_index_known _ Hk). eauto.
Qed.

Lemma load_loop_ok (l : list rule_row) (b : blocker) :
  Forall (fun row => is_Some (rules b !! rule_type row)) l →
  ∃ idx, for_each l load_row b = (Ok Next, set_rules idx b) ∧
         ∀ k, idx !! k = (fun l0 => l0 ++ rows_of_type k l) <$> (rules b !! k).
Proof.
  revert b. induction l as [|row l IH]; intros b Hall.
  - exists (rules b). split; [by destruct b|].
    intros k. unfold rows_of_type. simpl. destruct (rules b !! k); simpl; [|done].
    by rewrite app_nil_r.
  - inversion Hall as [|? ? [l0 Hl0] Hrest]; subst.
    set (b1 := set_rules (<[rule_type row := l0 ++ [rule_dict row]]> (rules b)) b).
    destruct (IH b1) as (idx & Hrun & Hidx).
    { eapply Forall_impl; [exact Hrest|]. intros r [lr Hr]. simpl.
      destruct (decide (rule_type row = rule_type r)) as [e|n].
      - rewrite e, lookup_insert_eq. eauto.
      - rewrite lookup_insert_ne; eauto. }
    exists idx. split.
    + rewrite for_each_cons, (load_row_known _ _ _ Hl0). exact Hrun.
    + intros k. rewrite Hidx. unfold b1. simpl. unfold rows_of_type.
      rewrite filter_cons.
      destruct (decide (rule_type row = k)) as [e|n].
      * subst k. rewrite lookup_insert_eq, Hl0. simpl.
        by rewrite <- app_assoc.
      * rewrite lookup_insert_ne; done.
Qed.

Lemma load_loop_fail (l : list rule_row) (b : blocker) (row : rule_row) :
  row ∈ l → rules b !! rule_type row = None →
  ∃ k b', for_each l load_row b = (Raise (KeyError k), b') ∧
          rules b !! k = None ∧
          rules_db b' = rules_db b ∧ logs_db b' = logs_db b.
Proof.
  revert b. induction l as [|r l IH]; intros b Hin Hnone.
  - by apply elem_of_nil in Hin.
  - rewrite for_each_cons.
    destruct (rules b !! rule_type r) as [l0|] eqn:Hr.
    + rewrite (load_row_known _ _ _ Hr).
      assert (row ∈ l) as Hin'.
      { apply elem_of_cons in Hin as [->|]; [congruence|done]. }
      set (b1 := set_rules (<[rule_type r := l0 ++ [rule_dict r]]> (rules b)) b).
      destruct (IH b1 Hin') as (k & b' & Hrun & Hk & Hdb & Hlog).
      { unfold b1. simpl. rewrite lookup_insert_ne; [done|]. congruence. }
      exists k, b'. split; [exact Hrun|]. split; [|done].
      unfold b1 in Hk. simpl in Hk.
      destruct (decide (rule_type r = k)) as [e|n].
      * subst k. by rewrite lookup_insert_eq in Hk.
      * by rewrite lookup_insert_ne in Hk.
    + rewrite (load_row_unknown _ _ Hr). exists (rule_type r), b. done.
Qed.

Lemma elem_of_select_enabled (row : rule_row) (t : rules_table) :
  row ∈ select_enabled t ↔ row ∈ rows t ∧ enabled row = 1.
Proof.
  unfold select_enabled. rewrite elem_of_sort_by, list_elem_of_filter. tauto.
Qed.

(** With only known types among the enabled rows, the reload succeeds and
    each list of the index holds the enabled rows of its type in the order
    of the query. *)
Lemma load_rules_ok (b : blocker) :
  Forall (fun row => enabled row = 1 → rule_type row ∈ known_types)
         (rows (rules_db b)) →
  ∃ idx, load_rules b = (Ok tt, set_rules idx b) ∧
         ∀ k, idx !! k =
              if decide (k ∈ known_types)
              then Some (rows_of_type k (select_enabled (rules_db b)))
              else None.
Proof.
  intros Hall.
  destruct (load_loop_ok (select_enabled (rules_db b)) (set_rules empty_index b))
    as (idx & Hrun & Hidx).
  { apply Forall_forall. intros row Hrow. simpl.
    apply elem_of_select_enabled in Hrow as [Hin Hen].
    apply empty_index_is_Some. rewrite Forall_forall in Hall. by apply Hall. }
  exists idx. split.
  - unfold load_rules. msimpl. simpl in Hrun. rewrite Hrun. done.
  - intros k. rewrite Hidx. simpl. case_decide as Hk.
    + by rewrite (empty_index_known _ Hk).
    + by rewrite (empty_index_unknown _ Hk).
Qed.

(** An enabled row of unknown type makes the reload raise [KeyError]; the
    tables are left as they were. *)
Lemma load_rules_unknown_type (b : blocker) (row : rule_row) :
  row ∈ rows (rules_db b) → enabled row = 1 → rule_type row ∉ known_types →
  ∃ k b', load_rules b = (Raise (KeyError k), b') ∧ (k ∉ known_types) ∧
          rules_db b' = rules_db b ∧ logs_db b' = logs_db b.
Proof.
  intros Hin Hen Hty.
  destruct (load_loop_fail (select_enabled (rules_db b)) (set_rules empty_index b) row)
    as (k & b' & Hrun & Hk & Hdb & Hlog).
  { by apply elem_of_select_enabled. }
  { simpl. by apply empty_index_unknown. }
  exists k, b'. split.
  - unfold load_rules. msimpl. simpl in Hrun. rewrite Hrun. done.
  - split; [|done]. intros Hknown. simpl in Hk.
    by rewrite (empty_index_known _ Hknown) in Hk.
Qed.

(** ** The request interceptor *)

Lemma StronglySorted_filter {A} (R : relation A) (P : A → Prop)
    `{∀ x, Decision (P x)} (l : list A) :
  StronglySorted R l → StronglySorted R (filter P l).
Proof.
  induction 1 as [|x l Hl IH Hx]; [constructor|].
  rewrite filter_cons. case_decide; [|done].
  constructor; [done|].
  apply Forall_forall. intros y Hy. apply list_elem_of_filter in Hy as [_ Hy].
  rewrite Forall_forall in Hx. by apply Hx.
Qed.

Lemma filter_map_comm {A B} (f : A → B) (P : B → Prop) `{∀ y, Decision (P y)}
    (l : list A) :
  filter P (map f l) = map f (filter (fun x => P (f x)) l).
Proof.
  induction l as [|x l IH]; [done|]. simpl.
  rewrite !filter_cons. case_decide; simpl; by rewrite IH.
Qed.

Lemma filter_filter_comm {A} (P Q : A → Prop) `{∀ x, Decision (P x)}
    `{∀ x, Decision (Q x)} (l : list A) :
  filter P (filter Q l) = filter Q (filter P l).
Proof.
  induction l as [|x l IH]; [done|].
  rewrite !filter_cons. repeat (case_decide; rewrite ?filter_cons); by rewrite ?IH.
Qed.

(** The list of a known type in the reloaded index: a permutation of the
    enabled rows of the type, ascending in priority, rows of one priority in
    table order. *)
Lemma rows_of_type_order (k : string) (t : rules_table) :
  rows_of_type k (select_enabled t) ≡ₚ map rule_dict (enabled_of_type k t) ∧
  StronglySorted (fun r1 r2 => r_priority r1 ≤ r_priority r2)
                 (rows_of_type k (select_enabled t)) ∧
  ∀ p, filter (fun r => r_priority r = p) (rows_of_type k (select_enabled t)) =
       map rule_dict (filter (fun row => row_priority row = p) (enabled_of_type k t)).
Proof.
  unfold rows_of_type, select_enabled, enabled_of_type. split; [|split].
  - apply Permutation_map. apply filter_Permutation, sort_by_perm.
  - apply (StronglySorted_fmap rule_dict (fun a b => row_priority a ≤ row_priority b));
      [intros ?? Hle; exact Hle|].
    apply StronglySorted_filter. apply (sort_by_key_Sorted row_priority).
  - intros p. rewrite filter_map_comm. simpl. f_equal.
    rewrite (filter_filter_comm (fun row => row_priority row = p)
               (fun row => rule_type row = k) (sort_by _ _)).
    unfold priority_leb. rewrite (sort_by_filter_key row_priority).
    apply filter_filter_comm.
Qed.

Section RequestFacts.
Context `{PyRe} `{PyUrl} `{PyText}.

Lemma log_blocking_eq (rule_id : option Z) (action url request_type : string)
    (s : session) :
  _log_blocking rule_id action url request_type s =
  match log_parts rule_id url with
  | Ok url_parts =>
      (Ok tt, append_log (LogRow rule_id action url request_type (netloc url_parts)) s)
  | Raise e => (Raise e, s)
  end.
Proof.
  unfold _log_blocking, log_parts, mbind, M_bind, lift_result, modify, raise.
  destruct (urlparse url); [|reflexivity].
  by destruct (decide (storable_id rule_id)).
Qed.

Lemma log_parts_None (url : string) : log_parts None url = urlparse url.
Proof. unfold log_parts. by destruct (urlparse url). Qed.

Lemma log_parts_Some (id : Z) (url : string) :
  sqlite_integer id → log_parts (Some id) url = urlparse url.
Proof.
  intros Hid. unfold log_parts. destruct (urlparse url); [|done].
  by rewrite decide_True.
Qed.

Lemma modify_request_eq (r : rule) (s : session) :
  _modify_request r s =
  if contains "strip_params" (r_pattern r)
  then (Raise (strip_error (req_url (request s))), s)
  else (Ok tt, s).
Proof.
  unfold _modify_request, strip_error, stripped_query.
  destruct (contains _ _); [|reflexivity].
  unfold mbind, M_bind, gets, lift_result, raise. simpl.
  destruct (urlparse (req_url (request s))); reflexivity.
Qed.

(** [_modify_request] never assigns [request.url]: either it has nothing
    to do or it raises before the assignment. *)
Lemma modify_request_keeps_session (r : rule) (s : session) :
  snd (_modify_request r s) = s.
Proof. rewrite modify_request_eq. by destruct (contains _ _). Qed.

Lemma url_rule_step_eq (r : rule) (s : session) :
  url_rule_step r s =
  match re_search (r_pattern r) (req_url (request s)) with
  | Raise e => (Raise e, s)
  | Ok false => (Ok Next, s)
  | Ok true =>
      if String.eqb (r_action r) "block"
      then match log_parts (Some (r_id r)) (req_url (request s)) with
           | Ok url_parts =>
               (Ok Return,
                abort (append_log (url_record r (req_url (request s)) url_parts) s))
           | Raise e => (Raise e, s)
           end
      else if String.eqb (r_action r) "modify"
           then if contains "strip_params" (r_pattern r)
                then (Raise (strip_error (req_url (request s))), s)
                else (Ok Next, s)
           else (Ok Next, s)
  end.
Proof.
  unfold url_rule_step. unfold mbind at 1, M_bind at 1, gets at 1.
  unfold mbind at 1, M_bind at 1, lift_result at 1.
  destruct (re_search _ _) as [[]|]; try reflexivity.
  destruct (String.eqb (r_action r) "block").
  - unfold mbind, M_bind. rewrite log_blocking_eq. unfold compose.
    destruct (log_parts (Some (r_id r)) (req_url (request s))); reflexivity.
  - destruct (String.eqb (r_action r) "modify"); [|reflexivity].
    unfold mbind, M_bind. rewrite modify_request_eq.
    destruct (contains _ _); reflexivity.
Qed.

Lemma url_rule_step_passes (r : rule) (s : session) :
  passes_on (req_url (request s)) r → url_rule_step r s = (Ok Next, s).
Proof.
  rewrite url_rule_step_eq.
  intros [->|(-> & Hnb & Hmod)]; [done|].
  apply String.eqb_neq in Hnb. rewrite Hnb.
  destruct (String.eqb_spec (r_action r) "modify") as [e|]; [|done].
  by rewrite (Hmod e).
Qed.

Lemma url_rule_step_blocks (r : rule) (s : session) :
  blocks r (req_url (request s)) →
  url_rule_step r s =
  match log_parts (Some (r_id r)) (req_url (request s)) with
  | Ok url_parts =>
      (Ok Return, abort (append_log (url_record r (req_url (request s)) url_parts) s))
  | Raise e => (Raise e, s)
  end.
Proof.
  intros [Hm Ha]. rewrite url_rule_step_eq, Hm, Ha. reflexivity.
Qed.

(** Rules that pass leave the session as it is and hand over to the rest
    of the list. *)
Lemma url_loop_passes (pre rest : list rule) (s : session) :
  Forall (passes_on (req_url (request s))) pre →
  for_each (pre ++ rest) url_rule_step s = for_each rest url_rule_step s.
Proof.
  induction 1 as [|r pre Hr _ IH]; [done|].
  simpl app. rewrite for_each_cons, (url_rule_step_passes _ _ Hr). exact IH.
Qed.

(** The three ways the loop over the url rules can end: at a block rule
    (which aborts and logs when its record can be written, and raises
    otherwise), after the last rule, or with an exception on the way. *)
Lemma url_loop_cases (rs : list rule) (s : session) :
  (∃ pre r post, rs = pre ++ r :: post ∧
      Forall (passes_on (req_url (request s))) pre ∧
      blocks r (req_url (request s)) ∧
      for_each rs url_rule_step s =
      match log_parts (Some (r_id r)) (req_url (request s)) with
      | Ok url_parts =>
          (Ok Return, abort (append_log (url_record r (req_url (request s)) url_parts) s))
      | Raise e => (Raise e, s)
      end) ∨
  (Forall (passes_on (req_url (request s))) rs ∧
      for_each rs url_rule_step s = (Ok Next, s)) ∨
  (∃ e, for_each rs url_rule_step s = (Raise e, s)).
Proof.
  induction rs as [|r rs IH].
  - right; left. split; [constructor|reflexivity].
  - assert (passes_on (req_url (request s)) r →
            for_each (r :: rs) url_rule_step s = for_each rs url_rule_step s)
      as Hskip.
    { intros Hp. by rewrite for_each_cons, (url_rule_step_passes _ _ Hp). }
    match goal with
    | |- ?G => assert (passes_on (req_url (request s)) r → G) as Hgo
    end.
    { intros Hp. destruct IH as [(pre & r0 & post & -> & Hpre & Hb0 & Hrun)|[[Hall Hrun]|[e Hrun]]].
      - left. exists (r :: pre), r0, post.
        split; [done|]. split; [by constructor|]. split; [done|].
        by rewrite (Hskip Hp).
      - right; left. split; [by constructor|]. by rewrite (Hskip Hp).
      - right; right. exists e. by rewrite (Hskip Hp). }
    clear Hskip IH.
    pose proof (url_rule_step_eq r s) as Heq.
    destruct (re_search (r_pattern r) (req_url (request s))) as [[]|e] eqn:Hre.
    + destruct (String.eqb_spec (r_action r) "block") as [Hb|Hb].
      * left. exists [], r, rs.
        split; [done|]. split; [constructor|]. split; [by split|].
        rewrite for_each_cons, Heq.
        by destruct (log_parts (Some (r_id r)) (req_url (request s))).
      * destruct (String.eqb_spec (r_action r) "modify") as [Hm|Hm].
        -- destruct (contains "strip_params" (r_pattern r)) eqn:Hc.
           ++ right; right. exists (strip_error (req_url (request s))).
              by rewrite for_each_cons, Heq.
           ++ apply Hgo. right. split; [done|]. split; [done|]. done.
        -- apply Hgo. right. split; [done|]. split; [done|]. done.
    + apply Hgo. by left.
    + right; right. exists e. by rewrite for_each_cons, Heq.
Qed.

Lemma rules_of_eq (k : string) (s : session) :
  rules_of k s =
  match rules (self s) !! k with
  | Some l => (Ok l, s)
  | None => (Raise (KeyError k), s)
  end.
Proof. unfold rules_of. msimpl. by destruct (rules (self s) !! k). Qed.

Lemma detect_fingerprinting_eq (s : session) :
  _detect_fingerprinting s = (fingerprint_fires s, s).
Proof. reflexivity. Qed.

Lemma intercept_request_eq (s : session) (rs : list rule) :
  rules (self s) !! "url" = Some rs →
  _intercept_request s =
  match for_each rs url_rule_step s with
  | (Ok Return, s') => (Ok tt, s')
  | (Ok Next, s') =>
      match fingerprint_fires s' with
      | Raise e => (Raise e, s')
      | Ok true =>
          match urlparse (req_url (request s')) with
          | Ok url_parts =>
              (Ok tt,
               abort (append_log (fingerprint_record (req_url (request s')) url_parts) s'))
          | Raise e => (Raise e, s')
          end
      | Ok false => (Ok tt, s')
      end
  | (Raise e, s') => (Raise e, s')
  end.
Proof.
  intros Hrs. unfold _intercept_request, mbind, M_bind.
  rewrite rules_of_eq, Hrs.
  destruct (for_each rs url_rule_step s) as [[[]|e] s']; try reflexivity.
  rewrite detect_fingerprinting_eq.
  destruct (fingerprint_fires s') as [[]|]; try reflexivity.
  unfold gets. rewrite log_blocking_eq, log_parts_None. unfold compose.
  destruct (urlparse (req_url (request s'))); reflexivity.
Qed.

End RequestFacts.
(** ** The response interceptor *)

Section ResponseFacts.
Context `{PyRe} `{PyUrl} `{PyText}.

(** A matching rule rewrites the body first and writes its record
    afterwards: when the record cannot be written, the body has changed
    and nothing is logged. *)
Lemma script_rule_step_eq (r : rule) (s : session) (resp : http_response) :
  response s = Some resp →
  script_rule_step r s =
  match re_search (r_pattern r) (decode_ignore (resp_body resp)) with
  | Raise e => (Raise e, s)
  | Ok false => (Ok Next, s)
  | Ok true =>
      match log_parts (Some (r_id r)) (req_url (request s)) with
      | Ok url_parts =>
          (Ok Next,
           append_log (script_record r (req_url (request s)) url_parts)
             (Session (self s) (request s)
                      (Some (HttpResponse (body_after r (resp_body resp))))))
      | Raise e =>
          (Raise e,
           Session (self s) (request s)
                   (Some (HttpResponse (body_after r (resp_body resp)))))
      end
  end.
Proof.
  intros Hresp. unfold script_rule_step.
  unfold mbind at 1, M_bind at 1, gets at 1.
  unfold mbind at 1, M_bind at 1, lift_result at 1.
  rewrite Hresp. simpl default.
  destruct (re_search (r_pattern r) (decode_ignore (resp_body resp))) as [[]|e];
    try reflexivity.
  destruct s as [b rq rp]. simpl in Hresp. subst rp. destruct resp as [body].
  unfold body_after, script_record. cbn [resp_body request self req_url].
  destruct (String.eqb (r_action r) "block");
    [|destruct (String.eqb (r_action r) "modify")];
    unfold mbind, M_bind, modify, mret, M_ret, gets, set_response_body;
    cbn [fmap option_fmap option_map response request self req_url];
    rewrite log_blocking_eq; unfold compose; cbn [request req_url];
    destruct (log_parts (Some (r_id r)) (req_url rq)); reflexivity.
Qed.

(** The loop over the script rules appends the record of every rule that
    matches when its turn comes, in order; it never returns early and it
    touches neither the request nor the rules.  When the URL of the
    request does not parse, no record is written at all. *)
Lemma script_loop_log (rs : list rule) (s : session) (resp : http_response) :
  Forall (fun r => sqlite_integer (r_id r)) rs →
  response s = Some resp →
  ∃ res s', for_each rs script_rule_step s = (res, s') ∧
    res ≠ Ok Return ∧
    request s' = request s ∧
    logs_db (self s') =
    logs_db (self s) ++
    match urlparse (req_url (request s)) with
    | Ok url_parts =>
        map (fun r => script_record r (req_url (request s)) url_parts)
            (script_trace rs (resp_body resp))
    | Raise _ => []
    end.
Proof.
  intros Hids. revert s resp.
  induction Hids as [|r rs Hid _ IH]; intros s resp Hresp.
  - exists (Ok Next), s. simpl.
    destruct (urlparse (req_url (request s))); by rewrite app_nil_r.
  - rewrite for_each_cons, (script_rule_step_eq r s resp Hresp). simpl script_trace.
    rewrite (log_parts_Some _ _ Hid).
    destruct (re_search (r_pattern r) (decode_ignore (resp_body resp))) as [[]|e].
    + destruct (urlparse (req_url (request s))) as [url_parts|e] eqn:Hurl.
      * set (s1 := append_log _ _).
        destruct (IH s1 (HttpResponse (body_after r (resp_body resp))))
          as (res & s' & Hrun & Hres & Hreq & Hlog); [done|].
        exists res, s'. rewrite Hrun. split; [done|]. split; [done|].
        split; [done|]. rewrite Hlog. unfold s1. cbn [request append_log].
        rewrite Hurl. simpl. by rewrite <- app_assoc.
      * eexists _, _. split; [reflexivity|]. split; [done|]. split; [done|].
        simpl. by rewrite app_nil_r.
    + destruct (IH s resp Hresp) as (res & s' & Hrun & Hres & Hreq & Hlog).
      exists res, s'. by rewrite Hrun.
    + exists (Raise e), s. split; [done|]. split; [done|]. split; [done|].
      destruct (urlparse (req_url (request s))); simpl; by rewrite app_nil_r.
Qed.

Lemma intercept_response_log (s : session) (rs : list rule) (resp : http_response) :
  Forall (fun r => sqlite_integer (r_id r)) rs →
  rules (self s) !! "script" = Some rs → response s = Some resp →
  logs_db (self (snd (_intercept_response s))) =
  logs_db (self s) ++
  match urlparse (req_url (request s)) with
  | Ok url_parts =>
      map (fun r => script_record r (req_url (request s)) url_parts)
          (script_trace rs (resp_body resp))
  | Raise _ => []
  end.
Proof.
  intros Hids Hrs Hresp.
  destruct (script_loop_log rs s resp Hids Hresp)
    as (res & s' & Hrun & Hres & Hreq & Hlog).
  unfold _intercept_response, mbind, M_bind, gets. rewrite Hresp.
  rewrite rules_of_eq, Hrs, Hrun.
  destruct res as [[]|e]; simpl; done.
Qed.
End ResponseFacts.

(** ** Adding rules *)

Lemma load_loop_db (l : list rule_row) (b : blocker) :
  rules_db (snd (for_each l load_row b)) = rules_db b ∧
  logs_db (snd (for_each l load_row b)) = logs_db b.
Proof.
  revert b. induction l as [|row l IH]; intros b; [done|].
  rewrite for_each_cons.
  destruct (rules b !! rule_type row) as [l0|] eqn:Hl0.
  - rewrite (load_row_known _ _ _ Hl0).
    destruct (IH (set_rules (<[rule_type row := l0 ++ [rule_dict row]]> (rules b)) b))
      as [-> ->]. done.
  - by rewrite (load_row_unknown _ _ Hl0).
Qed.

Lemma load_rules_db (b : blocker) :
  rules_db (snd (load_rules b)) = rules_db b ∧
  logs_db (snd (load_rules b)) = logs_db b.
Proof.
  unfold load_rules, mbind, M_bind, modify, gets, mret, M_ret.
  pose proof (load_loop_db (select_enabled (rules_db (set_rules empty_index b)))
                (set_rules empty_index b)) as Hl.
  destruct (for_each _ load_row (set_rules empty_index b)) as [[f|e] b'];
    simpl in *; exact Hl.
Qed.

Lemma table_insert_ok (t : rules_table) (ty p a d : string) (prio : Z) :
  sqlite_integer prio → rowids_left t →
  table_insert t ty p a d prio =
  Ok (RulesTable (rows t ++ [RuleRow (next_rowid t) ty p a d prio 1])
                 (next_rowid t)).
Proof.
  intros Hprio Hroom. unfold table_insert.
  by rewrite decide_True, decide_True.
Qed.

(** An insert either appends one row under the next rowid or raises and
    leaves the table alone. *)
Lemma table_insert_cases (t : rules_table) (ty p a d : string) (prio : Z) :
  (sqlite_integer prio ∧ rowids_left t ∧
   table_insert t ty p a d prio =
   Ok (RulesTable (rows t ++ [RuleRow (next_rowid t) ty p a d prio 1])
                  (next_rowid t))) ∨
  (¬ (sqlite_integer prio ∧ rowids_left t) ∧
   ∃ e, table_insert t ty p a d prio = Raise e).
Proof.
  unfold table_insert.
  destruct (decide (sqlite_integer prio)) as [Hp|Hp].
  - destruct (decide (rowids_left t)) as [Hr|Hr].
    + left. done.
    + right. split; [tauto|]. by eexists.
  - right. split; [tauto|]. by eexists.
Qed.

Lemma add_rule_eq (b : blocker) (t p a d : string) (prio : Z) :
  sqlite_integer prio → rowids_left (rules_db b) →
  add_rule t p a d prio b =
  match load_rules (inserted b t p a d prio) with
  | (Ok _, b') => (Ok (next_rowid (rules_db b)), b')
  | (Raise e, b') => (Raise e, b')
  end.
Proof.
  intros Hprio Hroom.
  unfold add_rule, insert_rule, mbind, M_bind, gets, modify, mret, M_ret, lift_result.
  rewrite (table_insert_ok _ _ _ _ _ _ Hprio Hroom).
  fold (inserted b t p a d prio).
  destruct (load_rules (inserted b t p a d prio)) as [[[]|e] b']; reflexivity.
Qed.

(** When the insert raises, [add_rule] raises the same exception before it
    reloads, and nothing has changed. *)
Lemma add_rule_rejected (b : blocker) (t p a d : string) (prio : Z) (e : exn) :
  table_insert (rules_db b) t p a d prio = Raise e →
  add_rule t p a d prio b = (Raise e, b).
Proof.
  intros Hins.
  unfold add_rule, insert_rule, mbind, M_bind, gets, modify, mret, M_ret, lift_result.
  by rewrite Hins.
Qed.

Lemma add_rule_rows (b : blocker) (t p a d : string) (prio : Z) :
  sqlite_integer prio → rowids_left (rules_db b) →
  rows (rules_db (snd (add_rule t p a d prio b))) =
  rows (rules_db b) ++ [RuleRow (next_rowid (rules_db b)) t p a d prio 1].
Proof.
  intros Hprio Hroom. rewrite add_rule_eq by done.
  destruct (load_rules_db (inserted b t p a d prio)) as [Hdb _].
  destruct (load_rules (inserted b t p a d prio)) as [[[]|e] b'];
    simpl in *; by rewrite Hdb.
Qed.

(** The table after a call of [add_rule]: what the insert gave, or the old
    table when the insert raised. *)
Lemma add_rule_db (b : blocker) (t p a d : string) (prio : Z) :
  rules_db (snd (add_rule t p a d prio b)) =
  match table_insert (rules_db b) t p a d prio with
  | Ok t' => t'
  | Raise _ => rules_db b
  end.
Proof.
  destruct (table_insert_cases (rules_db b) t p a d prio)
    as [(Hprio & Hroom & Hins)|(_ & e & Hins)]; rewrite Hins.
  - rewrite add_rule_eq by done.
    destruct (load_rules_db (inserted b t p a d prio)) as [Hdb _].
    destruct (load_rules (inserted b t p a d prio)) as [[[]|e] b'];
      simpl in *; by rewrite Hdb.
  - by rewrite (add_rule_rejected _ _ _ _ _ _ _ Hins).
Qed.

Lemma run_calls_rows (calls : list call) (b : blocker) (row : rule_row) :
  row ∈ rows (rules_db b) → row ∈ rows (rules_db (run_calls calls b)).
Proof.
  revert b. induction calls as [|c calls IH]; intros b Hin; [done|].
  simpl. apply IH. unfold run_call. rewrite add_rule_db.
  destruct (table_insert_cases (rules_db b) (c_type c) (c_pattern c) (c_action c)
              (c_description c) (c_priority c))
    as [(_ & _ & Hins)|(_ & e & Hins)]; rewrite Hins; [|done].
  simpl. apply elem_of_app. by left.
Qed.

Section BlockerTheorems.
Context `{PyRe} `{PyUrl} `{PyText}.

Lemma passes_not_blocks (url : string) (r : rule) :
  passes_on url r → ¬ blocks r url.
Proof.
  unfold passes_on, blocks, matches.
  intros [Hf|(_ & Hnb & _)] [Hm Hb]; [congruence|done].
Qed.

(** A block rule that is reached decides the request, whatever follows it
    in the list and whatever the request body holds. *)
Lemma intercept_request_blocks (s : session) (pre post : list rule) (r : rule) :
  rules (self s) !! "url" = Some (pre ++ r :: post) →
  Forall (passes_on (req_url (request s))) pre →
  blocks r (req_url (request s)) →
  _intercept_request s =
  match log_parts (Some (r_id r)) (req_url (request s)) with
  | Ok url_parts =>
      (Ok tt, abort (append_log (url_record r (req_url (request s)) url_parts) s))
  | Raise e => (Raise e, s)
  end.
Proof.
  intros Hrs Hpre Hb.
  rewrite (intercept_request_eq s _ Hrs), (url_loop_passes _ _ _ Hpre).
  rewrite for_each_cons, (url_rule_step_blocks _ _ Hb).
  by destruct (log_parts (Some (r_id r)) (req_url (request s))).
Qed.

(** A pattern that does not compile raises when its rule is reached. *)
Lemma intercept_request_malformed (s : session) (pre post : list rule) (r : rule) :
  rules (self s) !! "url" = Some (pre ++ r :: post) →
  Forall (passes_on (req_url (request s))) pre →
  re_compile (r_pattern r) = None →
  _intercept_request s = (Raise (ReError (r_pattern r)), s).
Proof.
  intros Hrs Hpre Hc.
  rewrite (intercept_request_eq s _ Hrs), (url_loop_passes _ _ _ Hpre).
  rewrite for_each_cons, url_rule_step_eq. unfold re_search. by rewrite Hc.
Qed.

(** C1, corrected.  After a reload the url rules are the enabled url
    rows in ascending priority, rows of equal priority in insertion
    order; the request interceptor evaluates them in that order and
    stops at the first matching rule whose action is [block], which
    decides, however many rules before it matched with another action
    and whatever rules follow it.  When the URL of the request parses,
    the request is aborted and logged under that rule; when [urlparse]
    raises on it, the record cannot be written and the interceptor
    raises with nothing logged and nothing aborted.  The row ids are
    integers that SQLite can store, as in every table it holds. *)
Theorem C1_first_matching_block_rule_decides (b : blocker) :
  Forall (fun row => enabled row = 1 → rule_type row ∈ known_types)
         (rows (rules_db b)) →
  Forall (fun row => sqlite_integer (row_id row)) (rows (rules_db b)) →
  ∃ b' url_rules,
    load_rules b = (Ok tt, b') ∧
    rules b' !! "url" = Some url_rules ∧
    url_rules ≡ₚ map rule_dict (enabled_of_type "url" (rules_db b)) ∧
    StronglySorted (fun r1 r2 => r_priority r1 ≤ r_priority r2) url_rules ∧
    (∀ p, filter (fun r => r_priority r = p) url_rules =
          map rule_dict (filter (fun row => row_priority row = p)
                                (enabled_of_type "url" (rules_db b)))) ∧
    ∀ (req : http_request) (resp : option http_response)
      (pre post : list rule) (r : rule),
      url_rules = pre ++ r :: post →
      Forall (passes_on (req_url req)) pre →
      blocks r (req_url req) →
      (∀ url_parts, urlparse (req_url req) = Ok url_parts →
         _intercept_request (Session b' req resp) =
         (Ok tt, abort (append_log (url_record r (req_url req) url_parts)
                                   (Session b' req resp)))) ∧
      (∀ e, urlparse (req_url req) = Raise e →
         _intercept_request (Session b' req resp) = (Raise e, Session b' req resp)).
Proof.
  intros Hall Hids. destruct (load_rules_ok b Hall) as (idx & Hload & Hidx).
  destruct (rows_of_type_order "url" (rules_db b)) as (Hperm & Hsort & Hstable).
  exists (set_rules idx b), (rows_of_type "url" (select_enabled (rules_db b))).
  split; [done|]. split.
  { simpl. rewrite Hidx. by rewrite decide_True by (unfold known_types; set_solver). }
  split; [done|]. split; [done|]. split; [done|].
  intros req resp pre post r Hrs Hpre Hb.
  assert (sqlite_integer (r_id r)) as Hid.
  { assert (r ∈ map rule_dict (enabled_of_type "url" (rules_db b))) as Hin.
    { rewrite <- Hperm, Hrs. apply elem_of_app. right. apply elem_of_cons. by left. }
    apply list_elem_of_fmap in Hin as (row & -> & Hrow).
    unfold enabled_of_type in Hrow.
    apply list_elem_of_filter in Hrow as [_ Hrow].
    apply list_elem_of_filter in Hrow as [_ Hrow].
    rewrite Forall_forall in Hids. by apply Hids. }
  pose proof (intercept_request_blocks (Session (set_rules idx b) req resp) pre post r)
    as Hrun.
  simpl in Hrun. rewrite Hidx, <- Hrs in Hrun.
  rewrite decide_True in Hrun by (unfold known_types; set_solver).
  specialize (Hrun eq_refl Hpre Hb). rewrite (log_parts_Some _ _ Hid) in Hrun.
  split; [intros url_parts Hurl|intros e Hurl]; by rewrite Hurl in Hrun.
Qed.

(** C2, corrected.  A fingerprint record is appended only when no url
    rule blocks the request, and then the heuristic did fire; a block
    rule that is reached is logged in its own name and the heuristic is
    not consulted.  A matching rule with another action does not keep
    the heuristic from blocking. *)
Theorem C2_fingerprint_only_without_block_rule
    (s : session) (rs : list rule) (rec : log_row) :
  rules (self s) !! "url" = Some rs →
  logs_db (self (snd (_intercept_request s))) = logs_db (self s) ++ [rec] →
  log_request_type rec = "fingerprint" →
  Forall (fun r => ¬ blocks r (req_url (request s))) rs ∧
  fingerprint_fires s = Ok true ∧
  (∃ url_parts, urlparse (req_url (request s)) = Ok url_parts ∧
                rec = fingerprint_record (req_url (request s)) url_parts) ∧
  fst (_intercept_request s) = Ok tt.
Proof.
  intros Hrs Hlog Hty. rewrite (intercept_request_eq s _ Hrs) in *.
  assert (∀ l : list log_row, l = l ++ [rec] → False) as Hnil.
  { intros l Hl. rewrite <- (app_nil_r l) in Hl at 1. by apply app_inv_head in Hl. }
  destruct (url_loop_cases rs s)
    as [(pre & r & post & -> & Hpre & Hb & Hrun)|[[Hall Hrun]|[e Hrun]]];
    rewrite Hrun in *.
  - destruct (log_parts (Some (r_id r)) (req_url (request s))) as [url_parts|e];
      simpl in Hlog.
    + apply app_inv_head in Hlog. injection Hlog as <-. done.
    + by apply Hnil in Hlog.
  - destruct (fingerprint_fires s) as [[]|e] eqn:Hfp; simpl in Hlog.
    + destruct (urlparse (req_url (request s))) as [url_parts|e] eqn:Hurl;
        simpl in Hlog.
      * apply app_inv_head in Hlog. injection Hlog as <-.
        split; [|split; [done|split; [by exists url_parts|done]]].
        eapply Forall_impl; [exact Hall|].
        intros r. apply passes_not_blocks.
      * by apply Hnil in Hlog.
    + by apply Hnil in Hlog.
    + by apply Hnil in Hlog.
  - simpl in Hlog. by apply Hnil in Hlog.
Qed.

(** C3, corrected.  A request that the interceptor aborts gets exactly
    one log record, with action [block]; a request on which no url rule
    matches and the heuristic does not fire passes through with no
    record; for a response one record is appended for every script rule
    that matches the decoded body when its turn comes, as long as the URL
    of the request parses, and none at all when it does not.  The ids of
    the script rules are integers that SQLite can store, as [load_rules]
    reads them from the table. *)
Theorem C3_log_records (s : session) (url_rules script_rules : list rule)
    (resp : http_response) :
  rules (self s) !! "url" = Some url_rules →
  rules (self s) !! "script" = Some script_rules →
  Forall (fun r => sqlite_integer (r_id r)) script_rules →
  response s = Some resp →
  aborted (request s) = false →
  (aborted (request (snd (_intercept_request s))) = true →
   ∃ rec, logs_db (self (snd (_intercept_request s))) = logs_db (self s) ++ [rec] ∧
          log_action rec = "block") ∧
  (Forall (fun r => re_search (r_pattern r) (req_url (request s)) = Ok false)
          url_rules →
   fingerprint_fires s = Ok false →
   _intercept_request s = (Ok tt, s)) ∧
  (∀ url_parts, urlparse (req_url (request s)) = Ok url_parts →
     logs_db (self (snd (_intercept_response s))) =
     logs_db (self s) ++
     map (fun r => script_record r (req_url (request s)) url_parts)
         (script_trace script_rules (resp_body resp))) ∧
  (∀ e, urlparse (req_url (request s)) = Raise e →
     logs_db (self (snd (_intercept_response s))) = logs_db (self s)).
Proof.
  intros Hurl Hscript Hids Hresp Hna. split; [|split; [|split]].
  - rewrite (intercept_request_eq s _ Hurl).
    destruct (url_loop_cases url_rules s)
      as [(pre & r & post & -> & Hpre & Hb & Hrun)|[[Hall Hrun]|[e Hrun]]];
      rewrite Hrun.
    + destruct (log_parts (Some (r_id r)) (req_url (request s))); simpl; [|congruence].
      intros _. by eexists.
    + destruct (fingerprint_fires s) as [[]|e]; simpl; [|congruence|congruence].
      destruct (urlparse (req_url (request s))); simpl; [|congruence].
      intros _. by eexists.
    + simpl. congruence.
  - intros Hnone Hfp. rewrite (intercept_request_eq s _ Hurl).
    replace url_rules with (url_rules ++ []) by apply app_nil_r.
    rewrite url_loop_passes, for_each_nil, Hfp; [done|].
    eapply Forall_impl; [exact Hnone|]. intros r Hr. by left.
  - intros url_parts Hparts.
    rewrite (intercept_response_log s _ resp Hids Hscript Hresp). by rewrite Hparts.
  - intros e Hparts.
    rewrite (intercept_response_log s _ resp Hids Hscript Hresp), Hparts.
    apply app_nil_r.
Qed.

(** C8, corrected.  [add_rule] validates nothing: with a known type, and
    a priority and a rowid that SQLite can store, it succeeds for every
    pattern, stores the row and indexes the rule; a url pattern that does
    not compile is found out only when a request reaches its rule, and
    then the interceptor raises [re.error]. *)
Theorem C8_add_rule_does_not_validate
    (b : blocker) (t p a d : string) (prio : Z) :
  t ∈ known_types →
  Forall (fun row => enabled row = 1 → rule_type row ∈ known_types)
         (rows (rules_db b)) →
  sqlite_integer prio →
  rowids_left (rules_db b) →
  ∃ b' pre post,
    add_rule t p a d prio b = (Ok (next_rowid (rules_db b)), b') ∧
    rows (rules_db b') =
      rows (rules_db b) ++ [RuleRow (next_rowid (rules_db b)) t p a d prio 1] ∧
    rules b' !! t =
      Some (pre ++ Rule (next_rowid (rules_db b)) p a d prio :: post) ∧
    (t = "url" → re_compile p = None →
     ∀ (req : http_request) (resp : option http_response),
       Forall (passes_on (req_url req)) pre →
       _intercept_request (Session b' req resp) =
       (Raise (ReError p), Session b' req resp)).
Proof.
  intros Ht Hall Hprio Hroom.
  set (row := RuleRow (next_rowid (rules_db b)) t p a d prio 1).
  destruct (load_rules_ok (inserted b t p a d prio)) as (idx & Hload & Hidx).
  { simpl. apply Forall_app. split; [done|]. apply Forall_singleton. by intros _. }
  assert (rule_dict row ∈ rows_of_type t (select_enabled (rules_db (inserted b t p a d prio))))
    as Hin.
  { unfold rows_of_type. apply list_elem_of_fmap. exists row. split; [done|].
    apply list_elem_of_filter. split; [done|].
    apply elem_of_select_enabled. split; [|done].
    simpl. apply elem_of_app. right. by apply list_elem_of_singleton. }
  apply list_elem_of_split in Hin as (pre & post & Hsplit).
  exists (set_rules idx (inserted b t p a d prio)), pre, post.
  assert (rules (set_rules idx (inserted b t p a d prio)) !! t =
          Some (pre ++ rule_dict row :: post)) as Hlook.
  { simpl. rewrite Hidx, <- Hsplit. by rewrite decide_True. }
  split; [by rewrite add_rule_eq, Hload|]. split; [done|]. split; [done|].
  intros Htu Hc req resp Hpre. subst t.
  exact (intercept_request_malformed (Session _ req resp) pre post _ Hlook Hpre Hc).
Qed.

(** C10.  [add_rule] with a type outside the five keys, and a priority
    and a rowid that SQLite can store, appends the row, then raises
    [KeyError] from its reload; any store holding an enabled row of
    unknown type fails to reload, so every reload after that call fails,
    whatever rules are added later. *)
Theorem C10_unknown_type_breaks_reload
    (b : blocker) (t p a d : string) (prio : Z) (calls : list call) :
  t ∉ known_types →
  sqlite_integer prio →
  rowids_left (rules_db b) →
  (∃ k, fst (add_rule t p a d prio b) = Raise (KeyError k) ∧ (k ∉ known_types)) ∧
  rows (rules_db (snd (add_rule t p a d prio b))) =
    rows (rules_db b) ++ [RuleRow (next_rowid (rules_db b)) t p a d prio 1] ∧
  (∀ (b2 : blocker) (row : rule_row),
     row ∈ rows (rules_db b2) → enabled row = 1 → rule_type row ∉ known_types →
     ∃ k, fst (load_rules b2) = Raise (KeyError k) ∧ (k ∉ known_types)) ∧
  (∃ k, fst (load_rules (run_calls calls (snd (add_rule t p a d prio b)))) =
        Raise (KeyError k) ∧ (k ∉ known_types)).
Proof.
  intros Ht Hprio Hroom.
  set (row := RuleRow (next_rowid (rules_db b)) t p a d prio 1).
  assert (∀ (b2 : blocker) (row : rule_row),
     row ∈ rows (rules_db b2) → enabled row = 1 → rule_type row ∉ known_types →
     ∃ k, fst (load_rules b2) = Raise (KeyError k) ∧ (k ∉ known_types)) as Hgen.
  { intros b2 row2 Hin Hen Hty.
    destruct (load_rules_unknown_type b2 row2 Hin Hen Hty) as (k & b' & Hl & Hk & _).
    exists k. by rewrite Hl. }
  split; [|split; [by apply add_rule_rows|split; [exact Hgen|]]].
  - rewrite add_rule_eq by done.
    destruct (load_rules_unknown_type (inserted b t p a d prio) row)
      as (k & b' & Hl & Hk & _); [|done|done|].
    + simpl. apply elem_of_app. right. by apply list_elem_of_singleton.
    + rewrite Hl. by exists k.
  - apply (Hgen _ row); [|done|done].
    apply run_calls_rows. rewrite add_rule_rows by done.
    apply elem_of_app. right. by apply list_elem_of_singleton.
Qed.

End BlockerTheorems.
(** ** The blocker on concrete rule sets

    The examples run on the concrete models [model_re], [model_url] and
    [model_text]. *)

Section BlockerExamples.
#[local] Existing Instance model_re.
#[local] Existing Instance model_url.
#[local] Existing Instance model_text.

(** C1, counterexample.  Two url rules match the request; the first in
    priority order is the [log] rule 1, yet rule 2 is evaluated after it
    and decides: the request is aborted and logged under rule 2. *)
Lemma C1_counterexample :
  ∃ rs r1,
    rules observe_then_block !! "url" = Some rs ∧
    first_match rs (req_url track_request) = Some r1 ∧
    r_id r1 = 1 ∧ r_priority r1 = 1 ∧ r_action r1 = "log" ∧
    _intercept_request (Session observe_then_block track_request None) =
    (Ok tt,
     Session (Blocker (rules_db observe_then_block)
                      [LogRow (Some 2) "block" "https://ads.example/track?x=1"
                              "url" "ads.example"]
                      (rules observe_then_block))
             (HttpRequest "https://ads.example/track?x=1" None true) None).
Proof.
  exists [Rule 1 "track" "log" "observe" 1; Rule 2 ".*" "block" "catch-all" 2],
         (Rule 1 "track" "log" "observe" 1).
  repeat split; vm_compute; reflexivity.
Qed.

Lemma C1_witness :
  ∃ b' url_rules,
    load_rules unloaded_store = (Ok tt, b') ∧
    rules b' !! "url" = Some url_rules ∧
    url_rules ≡ₚ map rule_dict (enabled_of_type "url" (rules_db unloaded_store)) ∧
    StronglySorted (fun r1 r2 => r_priority r1 ≤ r_priority r2) url_rules ∧
    (∀ p, filter (fun r => r_priority r = p) url_rules =
          map rule_dict (filter (fun row => row_priority row = p)
                                (enabled_of_type "url" (rules_db unloaded_store)))) ∧
    ∀ (req : http_request) (resp : option http_response)
      (pre post : list rule) (r : rule),
      url_rules = pre ++ r :: post →
      Forall (passes_on (req_url req)) pre →
      blocks r (req_url req) →
      (∀ url_parts, urlparse (req_url req) = Ok url_parts →
         _intercept_request (Session b' req resp) =
         (Ok tt, abort (append_log (url_record r (req_url req) url_parts)
                                   (Session b' req resp)))) ∧
      (∀ e, urlparse (req_url req) = Raise e →
         _intercept_request (Session b' req resp) = (Raise e, Session b' req resp)).
Proof.
  apply (C1_first_matching_block_rule_decides unloaded_store).
  - repeat constructor; intros _; compute_done.
  - repeat constructor; unfold min_int64, max_int64; simpl; lia.
Defined.

(** The block rule decides a request whose URL does not parse as well,
    but then the interceptor raises: no record, no abort. *)
Example block_rule_unparsable_url :
  _intercept_request (Session observe_then_block bracket_request None) =
  (Raise ValueError, Session observe_then_block bracket_request None).
Proof. vm_compute. reflexivity. Qed.

(** C2, counterexample.  The [log] rule matches the request, and the
    heuristic still blocks it: the one record is the fingerprint record. *)
Lemma C2_counterexample :
  ∃ rs r1,
    rules observe_only !! "url" = Some rs ∧
    first_match rs (req_url fingerprinting_request) = Some r1 ∧
    r_id r1 = 1 ∧
    _intercept_request (Session observe_only fingerprinting_request None) =
    (Ok tt,
     Session (Blocker (rules_db observe_only)
                      [LogRow None "block" "https://ads.example/track?x=1"
                              "fingerprint" "ads.example"]
                      (rules observe_only))
             (HttpRequest "https://ads.example/track?x=1"
                          (Some "send(navigator.userAgent)") true) None).
Proof.
  exists [Rule 1 "track" "log" "observe" 1], (Rule 1 "track" "log" "observe" 1).
  repeat split; vm_compute; reflexivity.
Qed.

Lemma C2_witness :
  Forall (fun r => ¬ blocks r (req_url fingerprinting_request))
         [Rule 1 "track" "log" "observe" 1] ∧
  fingerprint_fires (Session observe_only fingerprinting_request None) = Ok true ∧
  (∃ url_parts,
     urlparse (req_url fingerprinting_request) = Ok url_parts ∧
     LogRow None "block" "https://ads.example/track?x=1" "fingerprint" "ads.example" =
     fingerprint_record (req_url fingerprinting_request) url_parts) ∧
  fst (_intercept_request (Session observe_only fingerprinting_request None)) = Ok tt.
Proof.
  apply (C2_fingerprint_only_without_block_rule
           (Session observe_only fingerprinting_request None)
           [Rule 1 "track" "log" "observe" 1]
           (LogRow None "block" "https://ads.example/track?x=1" "fingerprint"
                   "ads.example")).
  - vm_compute; reflexivity.
  - vm_compute; reflexivity.
  - reflexivity.
Defined.

(** C3, counterexample.  Two script rules match one response: two
    records are appended for the one event. *)
Lemma C3_counterexample :
  fst (_intercept_response script_session) = Ok tt ∧
  response (snd (_intercept_response script_session)) =
    Some (HttpResponse "analytics.push(1)") ∧
  logs_db (self (snd (_intercept_response script_session))) =
  [LogRow (Some 1) "log" "https://cdn.example/a.js" "script" "cdn.example";
   LogRow (Some 2) "log" "https://cdn.example/a.js" "script" "cdn.example"].
Proof. repeat split; vm_compute; reflexivity. Qed.

(** The request of [mixed_session] meets the block rule and is aborted
    with one record; its response meets both script rules. *)
Lemma C3_witness :
  (aborted (request (snd (_intercept_request mixed_session))) = true →
   ∃ rec, logs_db (self (snd (_intercept_request mixed_session))) =
          logs_db (self mixed_session) ++ [rec] ∧
          log_action rec = "block") ∧
  (Forall (fun r => re_search (r_pattern r) (req_url (request mixed_session)) = Ok false)
          [Rule 1 "track" "block" "tracking endpoint" 1] →
   fingerprint_fires mixed_session = Ok false →
   _intercept_request mixed_session = (Ok tt, mixed_session)) ∧
  (∀ url_parts, urlparse (req_url (request mixed_session)) = Ok url_parts →
     logs_db (self (snd (_intercept_response mixed_session))) =
     logs_db (self mixed_session) ++
     map (fun r => script_record r (req_url (request mixed_session)) url_parts)
         (script_trace [Rule 2 "analytics" "log" "first" 1;
                        Rule 3 "analytics" "log" "second" 2]
                       (resp_body (HttpResponse "analytics.push(1)")))) ∧
  (∀ e, urlparse (req_url (request mixed_session)) = Raise e →
     logs_db (self (snd (_intercept_response mixed_session))) =
     logs_db (self mixed_session)).
Proof.
  apply (C3_log_records mixed_session
           [Rule 1 "track" "block" "tracking endpoint" 1]
           [Rule 2 "analytics" "log" "first" 1; Rule 3 "analytics" "log" "second" 2]
           (HttpResponse "analytics.push(1)")).
  - vm_compute; reflexivity.
  - vm_compute; reflexivity.
  - repeat constructor; unfold min_int64, max_int64; simpl; lia.
  - reflexivity.
  - reflexivity.
Defined.

Example mixed_session_request :
  aborted (request (snd (_intercept_request mixed_session))) = true ∧
  logs_db (self (snd (_intercept_request mixed_session))) =
  [LogRow (Some 1) "block" "https://ads.example/track?x=1" "url" "ads.example"].
Proof. split; vm_compute; reflexivity. Qed.

(** A response to a request whose URL does not parse: the first matching
    rule raises when it comes to its record, and nothing is logged. *)
Example response_unparsable_url :
  fst (_intercept_response
         (Session two_script_rules bracket_request
                  (Some (HttpResponse "analytics.push(1)")))) = Raise ValueError ∧
  logs_db (self (snd (_intercept_response
         (Session two_script_rules bracket_request
                  (Some (HttpResponse "analytics.push(1)")))))) = [].
Proof. split; vm_compute; reflexivity. Qed.

(** C8, counterexample.  The pattern [(] does not compile; [add_rule]
    accepts it and returns the new id, and the next request makes the
    interceptor raise. *)
Lemma C8_counterexample :
  re_compile "(" = None ∧
  fst (add_rule "url" "(" "block" "unbalanced" 1 blocker0) = Ok 1 ∧
  rows (rules_db (snd (add_rule "url" "(" "block" "unbalanced" 1 blocker0))) =
    [RuleRow 1 "url" "(" "block" "unbalanced" 1 1] ∧
  fst (_intercept_request
         (Session (snd (add_rule "url" "(" "block" "unbalanced" 1 blocker0))
                  track_request None)) = Raise (ReError "(").
Proof. repeat split; vm_compute; reflexivity. Qed.

Lemma C8_witness :
  ∃ b' pre post,
    add_rule "url" "(" "block" "unbalanced" 1 blocker0 =
      (Ok (next_rowid (rules_db blocker0)), b') ∧
    rows (rules_db b') =
      rows (rules_db blocker0) ++
      [RuleRow (next_rowid (rules_db blocker0)) "url" "(" "block" "unbalanced" 1 1] ∧
    rules b' !! "url" =
      Some (pre ++ Rule (next_rowid (rules_db blocker0)) "(" "block" "unbalanced" 1
                :: post) ∧
    ("url" = "url" → re_compile "(" = None →
     ∀ (req : http_request) (resp : option http_response),
       Forall (passes_on (req_url req)) pre →
       _intercept_request (Session b' req resp) =
       (Raise (ReError "("), Session b' req resp)).
Proof.
  apply (C8_add_rule_does_not_validate blocker0 "url" "(" "block" "unbalanced" 1).
  - compute_done.
  - constructor.
  - unfold sqlite_integer, min_int64, max_int64. lia.
  - split; [unfold max_int64; simpl; lia|constructor].
Defined.

(** A priority that does not fit 64 bits is refused by the insert, not by
    [add_rule]: the call raises [OverflowError] and stores nothing. *)
Example add_rule_overflow :
  add_rule "url" "track" "block" "too large" 9223372036854775808 blocker0 =
  (Raise OverflowError, blocker0).
Proof. vm_compute. reflexivity. Qed.

(** The second rule gets the rowid after the first. *)
Example add_rule_next_rowid :
  fst (add_rule "url" "beacon" "block" "second" 1 observe_only) = Ok 2.
Proof. vm_compute. reflexivity. Qed.

(** C9.  A modify rule whose pattern names [strip_params] matches the
    request; the query without the tracking parameters is computed
    ([id=7]) but the interceptor raises [AttributeError] before
    assigning it, and the request keeps its URL. *)
Lemma C9_modify_request_raises :
  rules strip_rule_store !! "url" =
    Some [Rule 1 "strip_params|utm_" "modify" "strip tracking parameters" 1] ∧
  re_search "strip_params|utm_" (req_url tagged_request) = Ok true ∧
  stripped_query (req_url tagged_request) = Ok "id=7" ∧
  _intercept_request (Session strip_rule_store tagged_request None) =
  (Raise attribute_error, Session strip_rule_store tagged_request None).
Proof. repeat split; vm_compute; reflexivity. Qed.

Lemma C10_witness :
  (∃ k, fst (add_rule "ads" "doubleclick" "block" "unknown type" 1 observe_only) =
        Raise (KeyError k) ∧ (k ∉ known_types)) ∧
  rows (rules_db (snd (add_rule "ads" "doubleclick" "block" "unknown type" 1 observe_only))) =
    rows (rules_db observe_only) ++
    [RuleRow (next_rowid (rules_db observe_only))
             "ads" "doubleclick" "block" "unknown type" 1 1] ∧
  (∀ (b2 : blocker) (row : rule_row),
     row ∈ rows (rules_db b2) → enabled row = 1 → rule_type row ∉ known_types →
     ∃ k, fst (load_rules b2) = Raise (KeyError k) ∧ (k ∉ known_types)) ∧
  (∃ k, fst (load_rules
               (run_calls [Call "url" "beacon" "block" "later rule" 1]
                  (snd (add_rule "ads" "doubleclick" "block" "unknown type" 1
                          observe_only)))) =
        Raise (KeyError k) ∧ (k ∉ known_types)).
Proof.
  apply (C10_unknown_type_breaks_reload observe_only
           "ads" "doubleclick" "block" "unknown type" 1
           [Call "url" "beacon" "block" "later rule" 1]).
  - compute_done.
  - unfold sqlite_integer, min_int64, max_int64. lia.
  - split; [vm_compute; reflexivity|].
    repeat constructor; unfold max_int64; simpl; lia.
Defined.

(** The first end-to-end scenario of the specification: one block rule
    on [track], one request, one record for [ads.example]. *)
Example scenario_block_rule :
  _intercept_request
    (Session (snd (add_rule "url" "track" "block" "tracking endpoint" 1 blocker0))
             track_request None) =
  (Ok tt,
   Session (Blocker (RulesTable [RuleRow 1 "url" "track" "block" "tracking endpoint" 1 1] 1)
                    [LogRow (Some 1) "block" "https://ads.example/track?x=1"
                            "url" "ads.example"]
                    (<["url" := [Rule 1 "track" "block" "tracking endpoint" 1]]> empty_index))
           (HttpRequest "https://ads.example/track?x=1" None true) None).
Proof. vm_compute. reflexivity. Qed.

Example C10_example :
  add_rule "ads" "doubleclick" "block" "unknown type" 1 blocker0 =
  (Raise (KeyError "ads"),
   Blocker (RulesTable [RuleRow 1 "ads" "doubleclick" "block" "unknown type" 1 1] 1)
           [] empty_index).
Proof. vm_compute. reflexivity. Qed.
End BlockerExamples.


(** ** The tracking graph *)

Lemma truthy_nonempty (s : string) : truthy s = true ↔ s ≠ EmptyString.
Proof. destruct s; simpl; split; congruence. Qed.

Lemma add_edge_edges (g : digraph) (u v : string) (e : string * string) :
  e ∈ edges (add_edge g u v) ↔ e ∈ edges g ∨ e = (u, v).
Proof.
  unfold add_edge. simpl. case_decide as Hin.
  - split; [by left|]. intros [?| ->]; done.
  - rewrite elem_of_app, list_elem_of_singleton. done.
Qed.

Lemma add_edge_NoDup (g : digraph) (u v : string) :
  NoDup (edges g) → NoDup (edges (add_edge g u v)).
Proof.
  intros Hnd. unfold add_edge. simpl. case_decide as Hin; [done|].
  apply NoDup_app. split; [done|]. split; [|apply NoDup_singleton].
  intros e He ->%list_elem_of_singleton. done.
Qed.

Section GraphFacts.
Context `{PyUrl}.

Lemma add_rows_cons (row : request_row) (l : list request_row) (g : digraph)
    (url_parts : url_parts) :
  urlparse (url row) = Ok url_parts → headers_is_json row = true →
  add_rows (row :: l) g =
  add_rows l (if truthy (domain row) && truthy (netloc url_parts)
              then add_edge g (domain row) (netloc url_parts) else g).
Proof.
  intros Hurl Hjson. simpl. rewrite Hurl, Hjson.
  by destruct (truthy (domain row) && truthy (netloc url_parts)).
Qed.

Lemma add_rows_spec (l : list request_row) (g : digraph) :
  Forall readable l →
  ∃ g', add_rows l g = Ok g' ∧
        (NoDup (edges g) → NoDup (edges g')) ∧
        ∀ e, e ∈ edges g' ↔ e ∈ edges g ∨ ∃ row, row ∈ l ∧ edge_of row e.
Proof.
  revert g. induction l as [|row l IH]; intros g Hall.
  - exists g. split; [done|]. split; [done|]. intros e. split; [by left|].
    intros [?|(row & Hin & _)]; [done|]. by apply elem_of_nil in Hin.
  - inversion Hall as [|? ? [[url_parts Hurl] Hjson] Hrest]; subst.
    rewrite (add_rows_cons _ _ _ _ Hurl Hjson).
    destruct (truthy (domain row) && truthy (netloc url_parts)) eqn:Ht.
    + apply andb_true_iff in Ht as [Hs Hd].
      apply truthy_nonempty in Hs, Hd.
      destruct (IH (add_edge g (domain row) (netloc url_parts)) Hrest)
        as (g' & Hrun & Hnd & Hedges).
      exists g'. split; [done|]. split.
      { intros Hg. by apply Hnd, add_edge_NoDup. }
      intros e. rewrite Hedges, add_edge_edges. split.
      * intros [[?| ->]|(r & Hin & He)].
        -- by left.
        -- right. exists row. split; [apply elem_of_cons; by left|].
           by exists url_parts.
        -- right. exists r. split; [apply elem_of_cons; by right|]. done.
      * intros [?|(r & Hin & He)]; [by left; left|].
        apply elem_of_cons in Hin as [->|Hin].
        -- left; right. destruct e as [a b], He as (p & Hp & Ha & Hb & _).
           simpl in *. rewrite Hurl in Hp. injection Hp as <-. by subst.
        -- right. by exists r.
    + destruct (IH g Hrest) as (g' & Hrun & Hnd & Hedges).
      exists g'. split; [done|]. split; [done|].
      intros e. rewrite Hedges. split.
      * intros [?|(r & Hin & He)]; [by left|].
        right. exists r. split; [apply elem_of_cons; by right|]. done.
      * intros [?|(r & Hin & He)]; [by left|].
        apply elem_of_cons in Hin as [->|Hin]; [|right; by exists r].
        destruct He as (p & Hp & Ha & Hb & Hna & Hnb).
        rewrite Hurl in Hp. injection Hp as <-.
        rewrite <- Ha in Hna. rewrite <- Hb in Hnb.
        apply truthy_nonempty in Hna, Hnb. rewrite Hna, Hnb in Ht. done.
Qed.

(** C4, corrected.  When the URL and the stored headers of every
    third-party row parse, the graph is built and its edges are exactly
    the pairs (recorded domain, domain parsed from the URL) of the
    third-party rows with both ends non-empty, each kept once.  The two
    ends are not compared, so a row whose domain equals the domain of its
    URL gives a self-loop. *)
Theorem C4_edges_have_nonempty_ends (requests : list request_row) :
  (∀ row, row ∈ requests → third_party row = 1 → readable row) →
  ∃ g, tracking_graph requests = Ok g ∧
       NoDup (edges g) ∧
       ∀ u v, (u, v) ∈ edges g ↔
              ∃ row url_parts,
                row ∈ requests ∧ third_party row = 1 ∧
                urlparse (url row) = Ok url_parts ∧
                domain row = u ∧ netloc url_parts = v ∧
                u ≠ EmptyString ∧ v ≠ EmptyString.
Proof.
  intros Hread. unfold tracking_graph.
  destruct (add_rows_spec (filter (fun row => third_party row = 1) requests) empty_graph)
    as (g & Hrun & Hnd & Hedges).
  { apply Forall_forall. intros row [Htp Hin]%list_elem_of_filter. by apply Hread. }
  exists g. split; [done|]. split; [apply Hnd; constructor|].
  intros u v. rewrite Hedges. simpl. split.
  - intros [Hin|(row & [Htp Hin]%list_elem_of_filter & p & Hp & Ha & Hb & Hna & Hnb)].
    + by apply elem_of_nil in Hin.
    + exists row, p. done.
  - intros (row & p & Hin & Htp & Hp & Ha & Hb & Hna & Hnb). right. exists row.
    split; [by apply list_elem_of_filter|]. by exists p.
Qed.
End GraphFacts.

Section GraphExamples.
#[local] Existing Instance model_url.

(** C4, counterexample.  The monitor stores the domain of the request URL
    as the row's domain; such a row gives an edge from the domain to
    itself. *)
Lemma C4_counterexample :
  tracking_graph [RequestRow "ads.example" "https://ads.example/pixel?id=1" true 1] =
  Ok (DiGraph ["ads.example"] [("ads.example", "ads.example")]).
Proof. vm_compute. reflexivity. Qed.

Lemma C4_witness :
  ∃ g, tracking_graph [RequestRow "site.com" "https://ads.example/pixel?id=1" true 1;
                       RequestRow "site.com" "http://[::1/local" false 0] = Ok g ∧
       NoDup (edges g) ∧
       ∀ u v, (u, v) ∈ edges g ↔
              ∃ row url_parts,
                row ∈ [RequestRow "site.com" "https://ads.example/pixel?id=1" true 1;
                       RequestRow "site.com" "http://[::1/local" false 0] ∧
                third_party row = 1 ∧
                urlparse (url row) = Ok url_parts ∧
                domain row = u ∧ netloc url_parts = v ∧
                u ≠ EmptyString ∧ v ≠ EmptyString.
Proof.
  apply C4_edges_have_nonempty_ends.
  intros row Hin Htp.
  apply elem_of_cons in Hin as [->|Hin].
  - split; [|reflexivity]. eexists. vm_compute. reflexivity.
  - apply list_elem_of_singleton in Hin as ->. discriminate Htp.
Defined.

(** One third-party row whose URL does not parse ends the analysis
    before any graph exists. *)
Example tracking_graph_unparsable_url :
  tracking_graph [RequestRow "site.com" "https://ads.example/pixel?id=1" true 1;
                  RequestRow "site.com" "http://[::1/x" true 1] = Raise ValueError.
Proof. vm_compute. reflexivity. Qed.
End GraphExamples.

(** ** Central trackers *)

Lemma ascii_compare_N (a b : ascii) :
  Ascii.compare a b = N.compare (N_of_ascii a) (N_of_ascii b).
Proof. reflexivity. Qed.

Lemma string_compare_lt_trans (s1 s2 s3 : string) :
  String.compare s1 s2 = Lt → String.compare s2 s3 = Lt → String.compare s1 s3 = Lt.
Proof.
  revert s2 s3. induction s1 as [|c1 s1 IH]; intros [|c2 s2] [|c3 s3]; simpl; try done.
  rewrite !ascii_compare_N.
  destruct (N.compare_spec (N_of_ascii c1) (N_of_ascii c2)) as [E12|L12|G12];
    destruct (N.compare_spec (N_of_ascii c2) (N_of_ascii c3)) as [E23|L23|G23];
    try done; intros H12 H23.
  - rewrite E12, E23, N.compare_refl. by apply (IH s2).
  - rewrite E12. by apply N.compare_lt_iff in L23 as ->.
  - rewrite <- E23. by apply N.compare_lt_iff in L12 as ->.
  - assert (N_of_ascii c1 < N_of_ascii c3)%N as L13 by lia.
    by apply N.compare_lt_iff in L13 as ->.
Qed.

Lemma string_leb_trans (s1 s2 s3 : string) :
  String.leb s1 s2 = true → String.leb s2 s3 = true → String.leb s1 s3 = true.
Proof.
  unfold String.leb.
  destruct (String.compare s1 s2) eqn:H12; [|  |done].
  - apply String.compare_eq_iff in H12 as ->. done.
  - destruct (String.compare s2 s3) eqn:H23; [| |done].
    + apply String.compare_eq_iff in H23 as <-. by rewrite H12.
    + by rewrite (string_compare_lt_trans _ _ _ H12 H23).
Qed.

Lemma tracker_leb_before (a b : string * nat) :
  tracker_leb a b = true ↔ tracker_before a b.
Proof.
  unfold tracker_leb, tracker_before.
  rewrite orb_true_iff, andb_true_iff, Nat.ltb_lt, Nat.eqb_eq. done.
Qed.

Lemma tracker_leb_total (a b : string * nat) :
  tracker_leb a b = false → tracker_leb b a = true.
Proof.
  unfold tracker_leb. intros Hf.
  apply orb_false_iff in Hf as [Hlt Hand].
  apply Nat.ltb_ge in Hlt.
  destruct (Nat.ltb_spec (snd a) (snd b)) as [|Hge]; [done|]. simpl.
  assert (snd a = snd b) as Heq by lia.
  rewrite Heq, Nat.eqb_refl in *. simpl in *.
  destruct (String.leb_total (fst a) (fst b)) as [Hab|Hba]; [congruence|done].
Qed.

Lemma tracker_before_trans : Transitive tracker_before.
Proof.
  intros a b c. unfold tracker_before.
  intros [Hab|[Hab Hsab]] [Hbc|[Hbc Hsbc]].
  - left. lia.
  - left. lia.
  - left. lia.
  - right. split; [lia|]. by apply (string_leb_trans _ (fst b)).
Qed.

Lemma ranking_sorted (g : digraph) : StronglySorted tracker_before (ranking g).
Proof.
  apply Sorted_StronglySorted; [exact tracker_before_trans|].
  pose proof (sort_by_Sorted tracker_leb tracker_leb_total
                (map (fun d => (d, in_degree g d)) (remove_dups (nodes g)))) as Hs.
  fold (ranking g) in Hs.
  induction Hs as [|a l _ IH Hhd]; constructor; [done|].
  destruct Hhd; constructor. by apply tracker_leb_before.
Qed.

Lemma length_remove_dups {A} `{EqDecision A} (l : list A) :
  (length (remove_dups l) ≤ length l)%nat.
Proof.
  induction l as [|x l IH]; simpl; [done|].
  destruct (decide_rel elem_of x l); simpl; lia.
Qed.

(** The score of the ranking is the in-degree read off the edges, and no
    other number is. *)
Lemma in_degree_spec (g : digraph) (d : string) (n : nat) :
  has_in_degree g d n ↔ n = in_degree g d.
Proof.
  assert (∀ s, s ∈ predecessors g d ↔ (s, d) ∈ edges g) as Hpred.
  { intros s. unfold predecessors.
    rewrite elem_of_remove_dups, list_elem_of_fmap. split.
    - intros ([s' d'] & -> & [Hd Hin]%list_elem_of_filter). simpl in *. by subst.
    - intros Hin. exists (s, d). split; [done|]. by apply list_elem_of_filter. }
  split.
  - intros (sources & Hnd & Hsrc & ->). unfold in_degree.
    apply Permutation_length, NoDup_Permutation;
      [done|apply NoDup_remove_dups|].
    intros s. by rewrite Hsrc, Hpred.
  - intros ->. exists (predecessors g d).
    split; [apply NoDup_remove_dups|]. split; [exact Hpred|done].
Qed.

Lemma ranking_nodes (g : digraph) : map fst (ranking g) ≡ₚ remove_dups (nodes g).
Proof.
  unfold ranking. rewrite sort_by_perm.
  rewrite <- list_fmap_compose. by rewrite list_fmap_id.
Qed.

Lemma elem_of_ranking (g : digraph) (d : string) (n : nat) :
  (d, n) ∈ ranking g ↔ d ∈ nodes g ∧ n = in_degree g d.
Proof.
  unfold ranking. rewrite elem_of_sort_by, list_elem_of_fmap. split.
  - intros (d' & Heq & Hd'). injection Heq as -> ->.
    split; [|done]. by apply (elem_of_remove_dups (nodes g)).
  - intros [Hd ->]. exists d. split; [done|]. by apply elem_of_remove_dups.
Qed.

(** C5.  The result has at most [k] pairs, lists no node twice and is
    ordered by descending score and then by name.  The score of a listed
    node is its in-degree in the graph: the number of distinct nodes with
    an edge into it.  A node that is left out ranks after every listed
    one, and then the result has [k] pairs.  The result is the first [k]
    pairs of the ranking of all nodes. *)
Theorem C5_central_trackers (g : digraph) (k : nat) :
  (length (centralTrackers g k) ≤ k)%nat ∧
  StronglySorted tracker_before (centralTrackers g k) ∧
  NoDup (map fst (centralTrackers g k)) ∧
  (∀ d n, (d, n) ∈ centralTrackers g k →
     d ∈ nodes g ∧
     ∃ sources, NoDup sources ∧ (∀ s, s ∈ sources ↔ (s, d) ∈ edges g) ∧
                n = length sources) ∧
  (∀ d n, d ∈ nodes g → has_in_degree g d n →
     (d, n) ∈ centralTrackers g k ∨
     (length (centralTrackers g k) = k ∧
      ∀ e, e ∈ centralTrackers g k → tracker_before e (d, n))) ∧
  centralTrackers g k = take k (centralTrackers g (length (nodes g))) ∧
  map fst (centralTrackers g (length (nodes g))) ≡ₚ remove_dups (nodes g).
Proof.
  assert (length (ranking g) ≤ length (nodes g))%nat as Hlen.
  { unfold ranking. rewrite (Permutation_length (sort_by_perm _ _)), length_map.
    apply length_remove_dups. }
  assert (centralTrackers g (length (nodes g)) = ranking g) as Hfull.
  { unfold centralTrackers. fold (ranking g). by apply take_ge. }
  assert (∀ k', centralTrackers g k' = take k' (ranking g)) as Hdef by done.
  rewrite Hfull, !Hdef.
  pose proof (ranking_sorted g) as Hs.
  rewrite <- (take_drop k (ranking g)) in Hs.
  split; [rewrite length_take; lia|]. split.
  { by apply StronglySorted_app_1_l in Hs. }
  split.
  { rewrite <- firstn_map.
    apply (sublist_NoDup _ (map fst (ranking g))); [|apply sublist_take].
    rewrite ranking_nodes. apply NoDup_remove_dups. }
  split.
  { intros d n Hin. apply subseteq_take in Hin.
    apply elem_of_ranking in Hin as [Hd Hn]. split; [done|].
    by apply in_degree_spec. }
  split; [|split; [done|apply ranking_nodes]].
  intros d n Hd Hn%in_degree_spec.
  assert ((d, n) ∈ take k (ranking g) ++ drop k (ranking g)) as Hin.
  { rewrite take_drop. by apply elem_of_ranking. }
  apply elem_of_app in Hin as [Hin|Hin]; [by left|]. right. split.
  - rewrite length_take. apply Nat.min_l.
    destruct (decide (k ≤ length (ranking g))%nat) as [|Hgt]; [done|].
    rewrite drop_ge in Hin by lia. by apply elem_of_nil in Hin.
  - intros e He.
    exact (StronglySorted_app_1_elem_of tracker_before _ _ e (d, n) Hs He Hin).
Qed.

Example C5_example :
  centralTrackers
    (DiGraph ["site.com"; "ads.example"; "sync.example"]
             [("site.com", "ads.example"); ("site.com", "sync.example");
              ("sync.example", "ads.example")]) 1 = [("ads.example", 2%nat)].
Proof. vm_compute. reflexivity. Qed.

(** The score counts distinct sources: [ads.example] is reached from two
    nodes and comes first; [sync.example], reached from one, comes before
    [site.com], reached from none. *)
Example C5_ranking_example :
  centralTrackers
    (DiGraph ["site.com"; "ads.example"; "sync.example"]
             [("site.com", "ads.example"); ("site.com", "sync.example");
              ("sync.example", "ads.example")]) 5 =
  [("ads.example", 2%nat); ("sync.example", 1%nat); ("site.com", 0%nat)].
Proof. vm_compute. reflexivity. Qed.


(** ** Tracking chains *)

Lemma elem_of_successors (g : digraph) (u v : string) :
  v ∈ successors g u ↔ (u, v) ∈ edges g.
Proof.
  unfold successors. rewrite elem_of_remove_dups, list_elem_of_fmap. split.
  - intros ([a b] & -> & [Ha Hin]%list_elem_of_filter). simpl in *. by subst.
  - intros Hin. exists (u, v). split; [done|]. by apply list_elem_of_filter.
Qed.

(** The paths found from [u]: they start at [u], follow edges, repeat no
    node, avoid the nodes already visited and have between one and [n]
    edges. *)
Lemma chains_from_spec (g : digraph) (n : nat) (visited : list string)
    (u : string) (p : list string) :
  p ∈ chains_from g n visited u ↔
  ∃ q, p = u :: q ∧ q ≠ [] ∧ is_path g (u :: q) ∧ NoDup (u :: q) ∧
       (∀ x, x ∈ q → x ∉ visited) ∧ (length q ≤ n)%nat.
Proof.
  revert visited u p. induction n as [|n IH]; intros visited u p.
  - simpl. split; [by intros ?%elem_of_nil|].
    intros (q & _ & Hq & _ & _ & _ & Hlen). destruct q; [done|simpl in Hlen; lia].
  - simpl. rewrite list_elem_of_bind. split.
    + intros (v & Hp & Hv). apply elem_of_successors in Hv.
      case_decide as Hvis; [by apply elem_of_nil in Hp|].
      apply not_elem_of_cons in Hvis as [Hvu Hvvis].
      apply elem_of_cons in Hp as [->|Hp].
      * exists [v]. split; [done|]. split; [done|]. split; [done|].
        split; [|split].
        -- apply NoDup_cons. split; [|apply NoDup_singleton].
           intros ->%list_elem_of_singleton. done.
        -- by intros x ->%list_elem_of_singleton.
        -- simpl. lia.
      * apply list_elem_of_fmap in Hp as (p' & -> & Hp').
        apply IH in Hp' as (q' & -> & Hq' & Hpath & Hnd & Havoid & Hlen).
        exists (v :: q'). split; [done|]. split; [done|]. split; [done|].
        split; [|split].
        -- apply NoDup_cons. split; [|done].
           intros [->|Hin]%elem_of_cons; [done|].
           apply (Havoid _ Hin). apply elem_of_cons. by left.
        -- intros x [->|Hin]%elem_of_cons; [done|].
           intros Hx. apply (Havoid _ Hin). apply elem_of_cons. by right.
        -- simpl. lia.
    + intros (q & -> & Hq & Hpath & Hnd & Havoid & Hlen).
      destruct q as [|v q']; [done|]. destruct Hpath as [Hedge Hpath].
      apply NoDup_cons in Hnd as [Hu Hnd].
      exists v. split; [|by apply elem_of_successors].
      rewrite decide_False.
      2:{ intros [->|Hin]%elem_of_cons.
          - apply Hu. apply elem_of_cons. by left.
          - apply (Havoid v); [apply elem_of_cons; by left|done]. }
      destruct q' as [|w q'']; [apply elem_of_cons; by left|].
      apply elem_of_cons. right. apply list_elem_of_fmap.
      exists (v :: w :: q''). split; [done|]. apply IH.
      exists (w :: q''). split; [done|]. split; [done|]. split; [done|].
      split; [done|]. split.
      * intros x Hx [->|Hin]%elem_of_cons.
        -- apply Hu. apply elem_of_cons. by right.
        -- apply (Havoid x); [apply elem_of_cons; by right|done].
      * simpl in *. lia.
Qed.

Lemma chains_from_NoDup (g : digraph) (n : nat) (visited : list string) (u : string) :
  NoDup (chains_from g n visited u).
Proof.
  revert visited u. induction n as [|n IH]; intros visited u; [constructor|].
  simpl. apply NoDup_bind.
  - intros v1 v2 p _ _ H1 H2.
    assert (∀ v, p ∈ (if decide (v ∈ u :: visited) then []
                      else [u; v] :: map (cons u) (chains_from g n (u :: visited) v)) →
                 p !! 1%nat = Some v) as Hsnd.
    { intros v Hp. case_decide; [by apply elem_of_nil in Hp|].
      apply elem_of_cons in Hp as [->|Hp]; [done|].
      apply list_elem_of_fmap in Hp as (p' & -> & Hp').
      apply chains_from_spec in Hp' as (q & -> & _). done. }
    apply Hsnd in H1, H2. congruence.
  - intros v _. case_decide; [constructor|].
    apply NoDup_cons. split.
    + intros (p' & Heq & Hp')%list_elem_of_fmap.
      apply chains_from_spec in Hp' as (q & -> & Hq & _).
      injection Heq as <-. done.
    + apply NoDup_fmap_2; [|apply IH]. intros ? ? Heq. by injection Heq.
  - apply NoDup_remove_dups.
Qed.

(** C6.  The enumeration is a total function, bounded by [maxLength]; it
    lists every simple directed path of two to [maxLength] edges (three to
    [maxLength + 1] nodes, none repeated), nothing else, and each path
    once, whether or not the graph has cycles. *)
Theorem C6_tracking_chains (g : digraph) (maxLength : nat) :
  NoDup (trackingChains g maxLength) ∧
  ∀ p, p ∈ trackingChains g maxLength ↔
       is_path g p ∧ NoDup p ∧ (3 ≤ length p ≤ maxLength + 1)%nat.
Proof.
  unfold trackingChains. split.
  - apply NoDup_filter, NoDup_bind.
    + intros u1 u2 p _ _ H1 H2.
      apply chains_from_spec in H1 as (q1 & -> & _).
      apply chains_from_spec in H2 as (q2 & Heq & _). by injection Heq.
    + intros u _. apply chains_from_NoDup.
    + apply NoDup_remove_dups.
  - intros p. rewrite list_elem_of_filter, list_elem_of_bind. split.
    + intros (Hlen & u & Hp & _).
      apply chains_from_spec in Hp as (q & -> & Hq & Hpath & Hnd & _ & Hle).
      split; [done|]. split; [done|]. simpl in *. lia.
    + intros (Hpath & Hnd & Hlen). split; [lia|].
      destruct p as [|u [|v q]]; [simpl in Hlen; lia|simpl in Hlen; lia|].
      exists u. split.
      * apply chains_from_spec. exists (v :: q). split; [done|]. split; [done|].
        split; [done|]. split; [done|]. split.
        -- intros x _. apply not_elem_of_nil.
        -- simpl in *. lia.
      * apply elem_of_remove_dups, list_elem_of_fmap. exists (u, v).
        split; [done|]. by destruct Hpath.
Qed.

Example C6_example_chain :
  trackingChains
    (DiGraph ["site.com"; "ads.example"; "sync.example"]
             [("site.com", "ads.example"); ("site.com", "sync.example");
              ("sync.example", "ads.example")]) 5 =
  [["site.com"; "sync.example"; "ads.example"]].
Proof. vm_compute. reflexivity. Qed.

Example C6_example_cycle :
  trackingChains (DiGraph ["a"; "b"; "c"] [("a", "b"); ("b", "c"); ("c", "a")]) 7 =
  [["a"; "b"; "c"]; ["b"; "c"; "a"]; ["c"; "a"; "b"]].
Proof. vm_compute. reflexivity. Qed.

(** ** The risk score *)

(** C7.  The score lies between 0 and 100; when the findings of one
    assessment are among those of another, its score is not the higher
    one; the assessment is a function of what was detected. *)
Theorem C7_risk_score (detected detected' : bool) :
  0 ≤ risk_score (_assess_privacy_risks detected) ≤ 100 ∧
  (findings (_assess_privacy_risks detected) `sublist_of`
     findings (_assess_privacy_risks detected') →
   risk_score (_assess_privacy_risks detected) ≤
     risk_score (_assess_privacy_risks detected')) ∧
  (detected = detected' →
   _assess_privacy_risks detected = _assess_privacy_risks detected').
Proof.
  split; [destruct detected; simpl; lia|]. split.
  - intros Hsub. destruct detected, detected'; simpl; try lia.
    apply sublist_length in Hsub. simpl in Hsub. lia.
  - by intros ->.
Qed.

Lemma C7_witness :
  findings (_assess_privacy_risks false) `sublist_of`
    findings (_assess_privacy_risks true) ∧
  risk_score (_assess_privacy_risks false) ≤ risk_score (_assess_privacy_risks true).
Proof.
  split; [apply sublist_nil_l|].
  apply (proj1 (proj2 (C7_risk_score false true))). apply sublist_nil_l.
Defined.

Example C7_example :
  risk_score (_assess_privacy_risks true) = 30 ∧
  risk_score (_assess_privacy_risks false) = 0.
Proof. split; reflexivity. Qed.

(** * More of the code

    Properties of the functions around those above: the reload after a
    failure, the ids of added rules, what the interceptors leave alone, the
    blocker's report, the default rules, the monitor that fills the
    [requests] table and the remaining analyses. *)

(** ** Reloading *)

Lemma for_each_app {S A} (l1 l2 : list A) (body : A → M S flow) (s : S) :
  for_each (l1 ++ l2) body s =
  match for_each l1 body s with
  | (Ok Next, s') => for_each l2 body s'
  | (Ok Return, s') => (Ok Return, s')
  | (Raise e, s') => (Raise e, s')
  end.
Proof.
  revert s. induction l1 as [|x l1 IH]; intros s; [done|].
  simpl app. rewrite !for_each_cons.
  destruct (body x s) as [[[]|e] s']; [apply IH|done|done].
Qed.

Lemma load_loop_state (l : list rule_row) (b : blocker) :
  ∃ idx, snd (for_each l load_row b) = set_rules idx b ∧
         ∀ k, is_Some (idx !! k) ↔ is_Some (rules b !! k).
Proof.
  revert b. induction l as [|row l IH]; intros b.
  - exists (rules b). split; [by destruct b|done].
  - rewrite for_each_cons.
    destruct (rules b !! rule_type row) as [l0|] eqn:Hl0.
    + rewrite (load_row_known _ _ _ Hl0).
      destruct (IH (set_rules (<[rule_type row := l0 ++ [rule_dict row]]> (rules b)) b))
        as (idx & Hst & Hkeys).
      exists idx. split; [exact Hst|].
      intros k. rewrite Hkeys. simpl.
      destruct (decide (rule_type row = k)) as [<-|Hne].
      * rewrite lookup_insert_eq, Hl0. split; eauto.
      * by rewrite lookup_insert_ne.
    + rewrite (load_row_unknown _ _ Hl0). exists (rules b).
      split; [by destruct b|done].
Qed.

Lemma load_rules_unfold (b : blocker) :
  load_rules b =
  match for_each (select_enabled (rules_db b)) load_row (set_rules empty_index b) with
  | (Ok _, b') => (Ok tt, b')
  | (Raise e, b') => (Raise e, b')
  end.
Proof.
  unfold load_rules, mbind, M_bind, modify, gets, mret, M_ret. simpl.
  by destruct (for_each _ load_row (set_rules empty_index b)) as [[?|?] ?].
Qed.

(** X1.  The reload does not depend on the index it replaces, a second
    reload changes nothing, and afterwards the index has exactly the five
    keys, also when the reload raised. *)
Theorem load_rules_idempotent (b : blocker) (idx : gmap string (list rule)) :
  load_rules (set_rules idx b) = load_rules b ∧
  load_rules (snd (load_rules b)) = load_rules b ∧
  ∀ k, is_Some (rules (snd (load_rules b)) !! k) ↔ k ∈ known_types.
Proof.
  assert (∀ i, load_rules (set_rules i b) = load_rules b) as Hindep.
  { intros i. by rewrite !load_rules_unfold. }
  split; [apply Hindep|].
  destruct (load_loop_state (select_enabled (rules_db b)) (set_rules empty_index b))
    as (idx' & Hst & Hkeys).
  assert (snd (load_rules b) = set_rules idx' b) as Hsnd.
  { rewrite load_rules_unfold.
    destruct (for_each _ load_row (set_rules empty_index b)) as [[?|?] b'];
      simpl in *; by rewrite Hst. }
  split.
  - by rewrite Hsnd, Hindep.
  - intros k. rewrite Hsnd. simpl. rewrite Hkeys. simpl.
    apply empty_index_is_Some.
Qed.

(** X2.  A reload that meets a row of unknown type stops there: the index
    keeps the rules that sort before that row and loses every rule that
    sorts after it, known type or not; the tables are untouched. *)
Theorem load_rules_stops_at_unknown_type
    (b : blocker) (pre post : list rule_row) (bad : rule_row) :
  select_enabled (rules_db b) = pre ++ bad :: post →
  Forall (fun row => rule_type row ∈ known_types) pre →
  rule_type bad ∉ known_types →
  ∃ idx, load_rules b = (Raise (KeyError (rule_type bad)), set_rules idx b) ∧
         ∀ k, idx !! k = if decide (k ∈ known_types)
                         then Some (rows_of_type k pre) else None.
Proof.
  intros Hsel Hpre Hbad.
  destruct (load_loop_ok pre (set_rules empty_index b)) as (idx & Hrun & Hidx).
  { eapply Forall_impl; [exact Hpre|]. intros row Hrow. simpl.
    by apply empty_index_is_Some. }
  assert (∀ k, idx !! k = if decide (k ∈ known_types)
                          then Some (rows_of_type k pre) else None) as Hidx'.
  { intros k. rewrite Hidx. simpl. case_decide as Hk.
    - by rewrite (empty_index_known _ Hk).
    - by rewrite (empty_index_unknown _ Hk). }
  exists idx. split; [|exact Hidx'].
  rewrite load_rules_unfold, Hsel, for_each_app, Hrun, for_each_cons.
  rewrite load_row_unknown; [done|].
  simpl. rewrite Hidx'. by rewrite decide_False.
Qed.

Lemma load_rules_stops_at_unknown_type_witness :
  ∃ idx,
    load_rules (Blocker (RulesTable [RuleRow 1 "url" "late" "block" "third" 3 1;
                                     RuleRow 2 "ads" "x" "block" "unknown type" 2 1;
                                     RuleRow 3 "url" "early" "block" "first" 1 1] 3)
                        [] ∅) =
    (Raise (KeyError "ads"),
     set_rules idx
       (Blocker (RulesTable [RuleRow 1 "url" "late" "block" "third" 3 1;
                             RuleRow 2 "ads" "x" "block" "unknown type" 2 1;
                             RuleRow 3 "url" "early" "block" "first" 1 1] 3)
                [] ∅)) ∧
    ∀ k, idx !! k =
         if decide (k ∈ known_types)
         then Some (rows_of_type k [RuleRow 3 "url" "early" "block" "first" 1 1])
         else None.
Proof.
  apply (load_rules_stops_at_unknown_type _
           [RuleRow 3 "url" "early" "block" "first" 1 1]
           [RuleRow 1 "url" "late" "block" "third" 3 1]
           (RuleRow 2 "ads" "x" "block" "unknown type" 2 1)).
  - reflexivity.
  - repeat constructor.
  - compute_done.
Defined.
(** ** The ids of added rules *)

Lemma max_rowid_bound (t : rules_table) (m : Z) :
  Forall (fun row => row_id row ≤ m) (rows t) →
  from_option (fun k => k + 1) 1 (max_rowid t) ≤ Z.max 1 (m + 1).
Proof.
  unfold max_rowid. induction 1 as [|row l Hrow _ IH]; simpl; [lia|].
  destruct (foldr _ None l) as [k|]; simpl in *; lia.
Qed.

(** In a table that only [AUTOINCREMENT] has numbered the next rowid is
    one more than the largest seen. *)
Lemma next_rowid_fresh (t : rules_table) :
  ids_fresh t → next_rowid t = last_rowid t + 1.
Proof.
  intros (Hpos & Hle & _). unfold next_rowid.
  pose proof (max_rowid_bound t (last_rowid t) Hle). lia.
Qed.

Lemma rowids_left_fresh (t : rules_table) :
  ids_fresh t → last_rowid t < max_int64 → rowids_left t.
Proof.
  intros (Hpos & Hle & _) Hroom. split; [done|].
  eapply Forall_impl; [exact Hle|]. intros row Hrow. simpl in *. lia.
Qed.

Lemma table_insert_fresh (t t' : rules_table) (ty p a d : string) (prio : Z) :
  table_insert t ty p a d prio = Ok t' → ids_fresh t →
  ids_fresh t' ∧ last_rowid t' = last_rowid t + 1 ∧
  rows t' = rows t ++ [RuleRow (last_rowid t + 1) ty p a d prio 1].
Proof.
  intros Hins Hfresh. pose proof (next_rowid_fresh t Hfresh) as Hnext.
  destruct Hfresh as (Hpos & Hle & Hnd).
  destruct (table_insert_cases t ty p a d prio) as [(_ & _ & Hok)|(_ & e & Hbad)];
    [|congruence].
  rewrite Hok in Hins. injection Hins as <-. rewrite Hnext. simpl.
  split; [|done]. split; [simpl; lia|]. split; simpl.
  - apply Forall_app. split.
    + eapply Forall_impl; [exact Hle|]. intros row Hrow. simpl in *. lia.
    + apply Forall_singleton. simpl. lia.
  - rewrite map_app. simpl. apply NoDup_app. split; [done|].
    split; [|apply NoDup_singleton].
    intros i Hi ->%list_elem_of_singleton.
    apply list_elem_of_fmap in Hi as (row & Heq & Hrow).
    rewrite Forall_forall in Hle. specialize (Hle _ Hrow). lia.
Qed.

Lemma run_call_rejected (b : blocker) (c : call) :
  ¬ sqlite_integer (c_priority c) ∨ ¬ rowids_left (rules_db b) →
  run_call b c = b.
Proof.
  intros Hbad. unfold run_call.
  destruct (table_insert_cases (rules_db b) (c_type c) (c_pattern c) (c_action c)
              (c_description c) (c_priority c))
    as [(Hprio & Hroom & _)|(_ & e & Hins)].
  - by destruct Hbad.
  - by rewrite (add_rule_rejected _ _ _ _ _ _ _ Hins).
Qed.

(** X3.  In a table that only [AUTOINCREMENT] has numbered, a call of
    [add_rule] whose priority SQLite can store, whether it returns or
    raises from the reload, stores its row under the next rowid: after [n]
    such calls the ids are the old ones followed by the next [n] integers,
    and they stay unique.  A call whose priority does not fit 64 bits, or
    that finds the rowids used up, changes nothing. *)
Theorem add_rule_ids (b : blocker) (calls : list call) :
  ids_fresh (rules_db b) →
  Forall (fun c => sqlite_integer (c_priority c)) calls →
  last_rowid (rules_db b) + Z.of_nat (length calls) ≤ max_int64 →
  ids_fresh (rules_db (run_calls calls b)) ∧
  last_rowid (rules_db (run_calls calls b)) =
    last_rowid (rules_db b) + Z.of_nat (length calls) ∧
  map row_id (rows (rules_db (run_calls calls b))) =
    map row_id (rows (rules_db b)) ++
    map (fun i => last_rowid (rules_db b) + Z.of_nat i) (seq 1 (length calls)) ∧
  ∀ (b0 : blocker) (c : call),
    ¬ sqlite_integer (c_priority c) ∨ ¬ rowids_left (rules_db b0) →
    run_call b0 c = b0.
Proof.
  intros Hfresh Hprio Hroom.
  cut (ids_fresh (rules_db (run_calls calls b)) ∧
       last_rowid (rules_db (run_calls calls b)) =
         last_rowid (rules_db b) + Z.of_nat (length calls) ∧
       map row_id (rows (rules_db (run_calls calls b))) =
         map row_id (rows (rules_db b)) ++
         map (fun i => last_rowid (rules_db b) + Z.of_nat i) (seq 1 (length calls))).
  { intros (? & ? & ?). split; [done|]. split; [done|]. split; [done|].
    apply run_call_rejected. }
  revert b Hfresh Hroom. induction Hprio as [|c calls Hc _ IH]; intros b Hfresh Hroom.
  - simpl. split; [done|]. split; [lia|]. by rewrite app_nil_r.
  - simpl run_calls. simpl length in Hroom.
    assert (rowids_left (rules_db b)) as Hleft.
    { apply rowids_left_fresh; [done|lia]. }
    destruct (table_insert_cases (rules_db b) (c_type c) (c_pattern c) (c_action c)
                (c_description c) (c_priority c))
      as [(_ & _ & Hins)|(Hno & _)]; [|tauto].
    destruct (table_insert_fresh _ _ _ _ _ _ _ Hins Hfresh) as (Hf1 & Hlast1 & Hrows1).
    assert (rules_db (run_call b c) =
            RulesTable (rows (rules_db b) ++
                        [RuleRow (next_rowid (rules_db b)) (c_type c) (c_pattern c)
                                 (c_action c) (c_description c) (c_priority c) 1])
                       (next_rowid (rules_db b))) as Hdb.
    { unfold run_call. rewrite add_rule_db. by rewrite Hins. }
    rewrite <- Hdb in Hf1, Hlast1, Hrows1.
    destruct (IH (run_call b c)) as (Hf & Hlast & Hids); [done|lia|].
    split; [done|]. rewrite Hlast, Hids, Hlast1, Hrows1.
    split; [cbn [length]; lia|].
    cbn [length seq].
    rewrite map_app, <- app_assoc. f_equal.
    cbn [map app row_id]. f_equal.
    rewrite <- (seq_shift (length calls) 1), map_map. apply map_ext. intros i. lia.
Qed.

Lemma add_rule_ids_witness :
  ids_fresh (rules_db (run_calls [Call "url" "a" "block" "one" 5;
                                  Call "ads" "b" "block" "two" 1;
                                  Call "script" "c" "log" "three" 1] blocker0)) ∧
  last_rowid (rules_db (run_calls [Call "url" "a" "block" "one" 5;
                                   Call "ads" "b" "block" "two" 1;
                                   Call "script" "c" "log" "three" 1] blocker0)) =
    last_rowid (rules_db blocker0) + Z.of_nat 3 ∧
  map row_id (rows (rules_db (run_calls [Call "url" "a" "block" "one" 5;
                                         Call "ads" "b" "block" "two" 1;
                                         Call "script" "c" "log" "three" 1] blocker0))) =
    map row_id (rows (rules_db blocker0)) ++
    map (fun i => last_rowid (rules_db blocker0) + Z.of_nat i) (seq 1 3) ∧
  ∀ (b0 : blocker) (c : call),
    ¬ sqlite_integer (c_priority c) ∨ ¬ rowids_left (rules_db b0) →
    run_call b0 c = b0.
Proof.
  apply (add_rule_ids blocker0 [Call "url" "a" "block" "one" 5;
                                Call "ads" "b" "block" "two" 1;
                                Call "script" "c" "log" "three" 1]).
  - split; [simpl; lia|]. split; constructor.
  - repeat constructor; unfold sqlite_integer, min_int64, max_int64; simpl; lia.
  - unfold max_int64. simpl. lia.
Defined.

(** ** What the request interceptor leaves alone *)

Section InterceptorFrames.
Context `{PyRe} `{PyUrl} `{PyText}.

(** X4.  Whatever the rules and the request, the request interceptor
    either leaves the whole session as it found it or aborts the request
    and appends one [block] record for the request's URL; when it raises
    nothing has changed.  It never rewrites the URL or the body, never
    touches the response, the index or the rule table. *)
Theorem intercept_request_frame (s : session) :
  (snd (_intercept_request s) = s ∨
   ∃ rec, snd (_intercept_request s) = abort (append_log rec s) ∧
          fst (_intercept_request s) = Ok tt ∧
          log_action rec = "block" ∧
          log_request_url rec = req_url (request s) ∧
          (log_request_type rec = "url" ∨ log_request_type rec = "fingerprint")) ∧
  (∀ e, fst (_intercept_request s) = Raise e → snd (_intercept_request s) = s) ∧
  req_url (request (snd (_intercept_request s))) = req_url (request s) ∧
  req_body (request (snd (_intercept_request s))) = req_body (request s) ∧
  response (snd (_intercept_request s)) = response s ∧
  rules (self (snd (_intercept_request s))) = rules (self s) ∧
  rules_db (self (snd (_intercept_request s))) = rules_db (self s).
Proof.
  assert ((snd (_intercept_request s) = s ∨
     ∃ rec, snd (_intercept_request s) = abort (append_log rec s) ∧
          fst (_intercept_request s) = Ok tt ∧
          log_action rec = "block" ∧
          log_request_url rec = req_url (request s) ∧
          (log_request_type rec = "url" ∨ log_request_type rec = "fingerprint")) ∧
    (∀ e, fst (_intercept_request s) = Raise e → snd (_intercept_request s) = s))
    as [Hcases Hraise].
  { destruct (rules (self s) !! "url") as [rs|] eqn:Hrs.
    - rewrite (intercept_request_eq s rs Hrs).
      destruct (url_loop_cases rs s)
        as [(pre & r & post & -> & Hpre & Hb & Hrun)|[[Hall Hrun]|[e Hrun]]];
        rewrite Hrun.
      + destruct (log_parts (Some (r_id r)) (req_url (request s))) as [url_parts|e].
        * split; [|done]. right.
          exists (url_record r (req_url (request s)) url_parts).
          repeat split; auto.
        * split; [by left|done].
      + destruct (fingerprint_fires s) as [[]|e]; simpl.
        * destruct (urlparse (req_url (request s))) as [url_parts|e].
          -- split; [|done]. right.
             exists (fingerprint_record (req_url (request s)) url_parts).
             repeat split; auto.
          -- split; [by left|done].
        * split; [by left|done].
        * split; [by left|done].
      + split; [by left|done].
    - unfold _intercept_request, mbind, M_bind. rewrite rules_of_eq, Hrs.
      split; [by left|done]. }
  split; [exact Hcases|]. split; [exact Hraise|].
  destruct Hcases as [->|(rec & -> & _)]; done.
Qed.

Lemma url_rule_step_with_rules (idx : gmap string (list rule)) (r : rule) (s : session) :
  url_rule_step r (with_rules idx s) =
  (fst (url_rule_step r s), with_rules idx (snd (url_rule_step r s))).
Proof.
  rewrite !url_rule_step_eq. simpl.
  destruct (re_search (r_pattern r) (req_url (request s))) as [[]|e]; try done.
  destruct (String.eqb (r_action r) "block").
  { by destruct (log_parts (Some (r_id r)) (req_url (request s))). }
  destruct (String.eqb (r_action r) "modify"); [|done].
  by destruct (contains "strip_params" (r_pattern r)).
Qed.

Lemma url_loop_with_rules (idx : gmap string (list rule)) (rs : list rule) (s : session) :
  for_each rs url_rule_step (with_rules idx s) =
  (fst (for_each rs url_rule_step s), with_rules idx (snd (for_each rs url_rule_step s))).
Proof.
  revert s. induction rs as [|r rs IH]; intros s; [done|].
  rewrite !for_each_cons, url_rule_step_with_rules.
  destruct (url_rule_step r s) as [[[]|e] s']; simpl; [apply IH|done|done].
Qed.

Lemma script_rule_step_with_rules (idx : gmap string (list rule)) (r : rule)
    (s : session) (resp : http_response) :
  response s = Some resp →
  script_rule_step r (with_rules idx s) =
  (fst (script_rule_step r s), with_rules idx (snd (script_rule_step r s))) ∧
  ∃ resp', response (snd (script_rule_step r s)) = Some resp'.
Proof.
  intros Hresp.
  rewrite (script_rule_step_eq r s resp Hresp).
  rewrite (script_rule_step_eq r (with_rules idx s) resp Hresp). simpl.
  destruct (re_search (r_pattern r) (decode_ignore (resp_body resp))) as [[]|e];
    simpl; eauto.
  destruct (log_parts (Some (r_id r)) (req_url (request s))); simpl; eauto.
Qed.

Lemma script_loop_with_rules (idx : gmap string (list rule)) (rs : list rule)
    (s : session) (resp : http_response) :
  response s = Some resp →
  for_each rs script_rule_step (with_rules idx s) =
  (fst (for_each rs script_rule_step s),
   with_rules idx (snd (for_each rs script_rule_step s))).
Proof.
  revert s resp. induction rs as [|r rs IH]; intros s resp Hresp; [done|].
  rewrite !for_each_cons.
  destruct (script_rule_step_with_rules idx r s resp Hresp) as [-> [resp' Hresp']].
  destruct (script_rule_step r s) as [[[]|e] s']; simpl in *; [|done|done].
  by apply (IH s' resp').
Qed.

(** X5.  The interceptors read two lists of the index only.  With the
    same [url] list the request interceptor does the same whatever the
    rest of the index holds, and with the same [script] list so does the
    response interceptor: rules of type [cookie], [storage] and
    [fingerprint] are loaded and never evaluated. *)
Theorem interceptors_ignore_other_types
    (s : session) (idx : gmap string (list rule)) :
  idx !! "url" = rules (self s) !! "url" →
  idx !! "script" = rules (self s) !! "script" →
  _intercept_request (with_rules idx s) =
    (fst (_intercept_request s), with_rules idx (snd (_intercept_request s))) ∧
  _intercept_response (with_rules idx s) =
    (fst (_intercept_response s), with_rules idx (snd (_intercept_response s))).
Proof.
  intros Hurl Hscript. split.
  - destruct (rules (self s) !! "url") as [rs|] eqn:Hrs.
    + rewrite (intercept_request_eq s rs Hrs).
      rewrite (intercept_request_eq (with_rules idx s) rs) by (simpl; congruence).
      rewrite url_loop_with_rules.
      destruct (for_each rs url_rule_step s) as [[[]|e] s']; cbn [fst snd];
        [|reflexivity|reflexivity].
      change (fingerprint_fires (with_rules idx s')) with (fingerprint_fires s').
      destruct (fingerprint_fires s') as [[]|]; try reflexivity.
      change (req_url (request (with_rules idx s'))) with (req_url (request s')).
      destruct (urlparse (req_url (request s'))); reflexivity.
    + unfold _intercept_request, mbind, M_bind. rewrite !rules_of_eq. simpl.
      by rewrite Hurl, Hrs.
  - unfold _intercept_response, mbind, M_bind, gets. simpl.
    destruct (response s) as [resp|] eqn:Hresp; [|done].
    rewrite !rules_of_eq. simpl. rewrite Hscript.
    destruct (rules (self s) !! "script") as [rs|]; [|done].
    rewrite (script_loop_with_rules idx rs s resp Hresp).
    by destruct (for_each rs script_rule_step s) as [[[]|e] s'].
Qed.
End InterceptorFrames.
(** ** What the response interceptor does to the body *)

Section ResponseBody.
Context `{PyRe} `{PyUrl} `{PyText}.

Lemma modify_script_empty (r : rule) : _modify_script EmptyString r = EmptyString.
Proof.
  unfold _modify_script, encode_utf8. rewrite decode_ignore_empty.
  by destruct (contains "fingerprint" (r_pattern r)).
Qed.

Lemma body_after_empty (r : rule) : body_after r EmptyString = EmptyString.
Proof.
  unfold body_after.
  destruct (String.eqb (r_action r) "block"); [done|].
  destruct (String.eqb (r_action r) "modify"); [|done].
  apply modify_script_empty.
Qed.

(** A rule that replaces nothing leaves the decoded body, which is the
    body itself when the body is well-formed UTF-8. *)
Lemma body_after_inert (r : rule) (body : string) :
  inert r → body_after r body = body ∨ body_after r body = decode_ignore body.
Proof.
  intros [Hb Hm]. unfold body_after, _modify_script, encode_utf8.
  apply String.eqb_neq in Hb. rewrite Hb.
  destruct (String.eqb_spec (r_action r) "modify") as [e|]; [|by left].
  right. by rewrite (Hm e).
Qed.

Lemma script_body_empty (rs : list rule) : script_body rs EmptyString = EmptyString.
Proof.
  induction rs as [|r rs IH]; [done|]. simpl.
  destruct (re_search (r_pattern r) (decode_ignore EmptyString)) as [[]|e];
    [|done|done].
  by rewrite body_after_empty.
Qed.

Lemma script_body_inert (rs : list rule) (body : string) :
  Forall inert rs → decode_ignore body = body → script_body rs body = body.
Proof.
  intros Hall Hvalid. induction Hall as [|r rs Hr _ IH]; [done|]. simpl.
  destruct (re_search (r_pattern r) (decode_ignore body)) as [[]|e]; [|done|done].
  destruct (body_after_inert r body Hr) as [->| ->]; [done|].
  by rewrite Hvalid.
Qed.

Lemma script_body_blocked (rs : list rule) (body : string) (r : rule) :
  r ∈ script_trace rs body → r_action r = "block" →
  script_body rs body = EmptyString.
Proof.
  revert body. induction rs as [|r0 rs IH]; intros body Hin Hb.
  - by apply elem_of_nil in Hin.
  - simpl in *.
    destruct (re_search (r_pattern r0) (decode_ignore body)) as [[]|e].
    + apply elem_of_cons in Hin as [<-|Hin].
      * unfold body_after at 1. rewrite Hb. simpl. apply script_body_empty.
      * by apply IH.
    + by apply IH.
    + by apply elem_of_nil in Hin.
Qed.

Lemma script_loop_body (rs : list rule) (s : session) (resp : http_response)
    (url_parts : url_parts) :
  Forall (fun r => sqlite_integer (r_id r)) rs →
  urlparse (req_url (request s)) = Ok url_parts →
  response s = Some resp →
  response (snd (for_each rs script_rule_step s)) =
  Some (HttpResponse (script_body rs (resp_body resp))).
Proof.
  intros Hids. revert s resp.
  induction Hids as [|r rs Hid _ IH]; intros s resp Hurl Hresp.
  - simpl. rewrite Hresp. by destruct resp.
  - rewrite for_each_cons, (script_rule_step_eq r s resp Hresp).
    rewrite (log_parts_Some _ _ Hid), Hurl.
    simpl script_body.
    destruct (re_search (r_pattern r) (decode_ignore (resp_body resp))) as [[]|e].
    + by rewrite (IH _ (HttpResponse (body_after r (resp_body resp)))).
    + by apply IH.
    + simpl. rewrite Hresp. by destruct resp.
Qed.

(** X6.  When the records can be written (the URL of the request
    parses and the rule ids are integers that SQLite can store), the body
    the response interceptor leaves is the body the script rules produce
    in turn.  It is the original body when that is well-formed UTF-8 and
    no script rule blocks or modifies with the word [fingerprint] in its
    pattern, however many rules match; and once a block rule has matched
    it is empty and stays empty whatever rules follow. *)
Theorem intercept_response_body
    (s : session) (rs : list rule) (resp : http_response) (url_parts : url_parts) :
  rules (self s) !! "script" = Some rs →
  response s = Some resp →
  urlparse (req_url (request s)) = Ok url_parts →
  Forall (fun r => sqlite_integer (r_id r)) rs →
  response (snd (_intercept_response s)) =
    Some (HttpResponse (script_body rs (resp_body resp))) ∧
  (Forall inert rs → decode_ignore (resp_body resp) = resp_body resp →
   script_body rs (resp_body resp) = resp_body resp) ∧
  (∀ r, r ∈ script_trace rs (resp_body resp) → r_action r = "block" →
        script_body rs (resp_body resp) = EmptyString).
Proof.
  intros Hrs Hresp Hurl Hids. split; [|split].
  - pose proof (script_loop_body rs s resp url_parts Hids Hurl Hresp) as Hbody.
    unfold _intercept_response, mbind, M_bind, gets. rewrite Hresp.
    rewrite rules_of_eq, Hrs.
    by destruct (for_each rs script_rule_step s) as [[[]|e] s'].
  - apply script_body_inert.
  - apply script_body_blocked.
Qed.

Lemma default_script_rule_body (body : string) :
  body_after default_script_rule body = decode_ignore body.
Proof. reflexivity. Qed.

(** The one script rule of the default rules on a response. *)
Lemma default_script_rule_response (s : session) (resp : http_response) :
  rules (self s) !! "script" = Some [default_script_rule] →
  response s = Some resp →
  response (snd (_intercept_response s)) =
  Some (HttpResponse
          (match re_search (r_pattern default_script_rule)
                           (decode_ignore (resp_body resp)) with
           | Ok true => decode_ignore (resp_body resp)
           | _ => resp_body resp
           end)).
Proof.
  intros Hrs Hresp.
  unfold _intercept_response, mbind, M_bind, gets. rewrite Hresp.
  rewrite rules_of_eq, Hrs, for_each_cons.
  rewrite (script_rule_step_eq _ s resp Hresp).
  destruct (re_search _ _) as [[]|e].
  - rewrite default_script_rule_body.
    destruct (log_parts _ (req_url (request s))); reflexivity.
  - simpl. rewrite Hresp. by destruct resp.
  - simpl. rewrite Hresp. by destruct resp.
Qed.

(** X7.  The default rules of the rules manager, inserted into an empty
    table and loaded, index one script rule: a [modify] rule whose
    pattern does not contain [fingerprint].  With it the response
    interceptor replaces nothing: whatever the request, the body comes
    back as it was or decoded and encoded again, and a body that is
    well-formed UTF-8 comes back unchanged. *)
Theorem default_rules_replace_nothing (req : http_request) (resp : http_response)
    (logs : list log_row) :
  ∃ t b,
    add_default_rules (RulesTable [] 0) = Ok t ∧
    load_rules (Blocker t logs ∅) = (Ok tt, b) ∧
    rules b !! "script" = Some [default_script_rule] ∧
    (response (snd (_intercept_response (Session b req (Some resp)))) = Some resp ∨
     response (snd (_intercept_response (Session b req (Some resp)))) =
     Some (HttpResponse (decode_ignore (resp_body resp)))) ∧
    (decode_ignore (resp_body resp) = resp_body resp →
     response (snd (_intercept_response (Session b req (Some resp)))) = Some resp).
Proof.
  set (t := RulesTable
              [RuleRow 1 "url" "(analytics|tracking|beacon|telemetry)" "block"
                       "Block common tracking endpoints" 1 1;
               RuleRow 2 "cookie" "(_ga|_gid|fbp|_fbp)" "block"
                       "Block common tracking cookies" 1 1;
               RuleRow 3 "storage" "(fingerprint|canvas|device)" "block"
                       "Block fingerprinting storage" 2 1;
               RuleRow 4 "script" "(navigator\.userAgent|canvas\.toDataURL)" "modify"
                       "Modify fingerprinting scripts" 2 1] 4).
  destruct (load_rules_ok (Blocker t logs ∅)) as (idx & Hload & Hidx).
  { repeat constructor. }
  exists t, (set_rules idx (Blocker t logs ∅)).
  split; [reflexivity|]. split; [exact Hload|].
  assert (idx !! "script" = Some [default_script_rule]) as Hs.
  { rewrite Hidx. reflexivity. }
  split; [done|].
  pose proof (default_script_rule_response
                (Session (set_rules idx (Blocker t logs ∅)) req (Some resp)) resp
                Hs eq_refl) as Hbody.
  destruct resp as [body]. simpl in Hbody |- *.
  split.
  - rewrite Hbody. clear Hbody. destruct (re_search _ _) as [[]|e]; auto.
  - intros Hvalid. rewrite Hbody. clear Hbody. rewrite Hvalid.
    by destruct (re_search _ _) as [[]|e].
Qed.
End ResponseBody.

(** ** The blocker's report *)

Lemma count_by_lookup {A} (key : A → string) (l : list A) (k : string) :
  count_by key l !! k =
  match length (filter (fun x => key x = k) l) with
  | O => None
  | S n => Some (S n)
  end.
Proof.
  induction l as [|x l IH]; [done|]. simpl.
  rewrite filter_cons. destruct (decide (key x = k)) as [->|Hne].
  - rewrite lookup_insert_eq, IH. simpl.
    by destruct (length (filter (fun x => key x = k) l)).
  - by rewrite lookup_insert_ne.
Qed.

Lemma sum_values_insert (m : gmap string nat) (k : string) (v : nat) :
  (sum_values (<[k := v]> m) + default 0 (m !! k) = v + sum_values m)%nat.
Proof.
  assert (∀ m' : gmap string nat, m' !! k = None →
            sum_values (<[k := v]> m') = (v + sum_values m')%nat) as Hfresh.
  { intros m' Hm'. unfold sum_values. apply map_fold_insert_L; [|done].
    intros. lia. }
  destruct (m !! k) as [n|] eqn:Hk; simpl.
  - rewrite <- insert_delete_eq, Hfresh by apply lookup_delete_eq.
    unfold sum_values.
    rewrite (map_fold_delete_L _ _ k n m); [lia| |done]. intros. lia.
  - rewrite Hfresh by done. lia.
Qed.

Lemma sum_values_count_by {A} (key : A → string) (l : list A) :
  sum_values (count_by key l) = length l.
Proof.
  induction l as [|x l IH]; [done|]. simpl.
  pose proof (sum_values_insert (count_by key l) (key x)
                (S (default 0%nat (count_by key l !! key x)))) as Hs.
  lia.
Qed.

Lemma count_by_Some {A} (key : A → string) (l : list A) (k : string) (n : nat) :
  count_by key l !! k = Some n ↔
  (0 < n)%nat ∧ n = length (filter (fun x => key x = k) l).
Proof.
  rewrite count_by_lookup.
  destruct (length (filter (fun x => key x = k) l)) as [|c]; split.
  - done.
  - intros [? ?]. lia.
  - intros [= <-]. split; [lia|done].
  - intros [_ ->]. done.
Qed.

Lemma count_desc_total (a b : string * nat) :
  count_desc a b = false → count_desc b a = true.
Proof.
  unfold count_desc. intros Hf. apply Nat.leb_gt in Hf. apply Nat.leb_le. lia.
Qed.

Lemma count_desc_sorted (l : list (string * nat)) :
  StronglySorted (fun a b => (snd b ≤ snd a)%nat) (sort_by count_desc l).
Proof.
  apply Sorted_StronglySorted; [intros a b c ? ?; lia|].
  pose proof (sort_by_Sorted count_desc count_desc_total l) as Hs.
  induction Hs as [|a l' _ IH Hhd]; constructor; [done|].
  destruct Hhd as [|c l'' Hc]; constructor.
  unfold lebP, count_desc in Hc. by apply Nat.leb_le in Hc.
Qed.

(** X8.  In the report, [total_blocks] is the number of log rows and each
    entry of [blocks_by_type] is the number of rows of that request type.
    [top_blocked_domains] holds at most ten distinct domains in descending
    order of their counts, each with its exact number of log rows, and no
    domain left out has more rows than a listed one. *)
Theorem generate_report_counts (b : blocker) :
  total_blocks (generate_report b) = length (logs_db b) ∧
  (∀ t n, blocks_by_type (generate_report b) !! t = Some n ↔
          (0 < n)%nat ∧
          n = length (filter (fun r => log_request_type r = t) (logs_db b))) ∧
  (length (top_blocked_domains (generate_report b)) ≤ 10)%nat ∧
  StronglySorted (fun x y => (snd y ≤ snd x)%nat)
                 (top_blocked_domains (generate_report b)) ∧
  NoDup (map fst (top_blocked_domains (generate_report b))) ∧
  (∀ d n, (d, n) ∈ top_blocked_domains (generate_report b) →
          (0 < n)%nat ∧
          n = length (filter (fun r => log_domain r = d) (logs_db b))) ∧
  (∀ d d' n',
     (0 < length (filter (fun r => log_domain r = d) (logs_db b)))%nat →
     d ∉ map fst (top_blocked_domains (generate_report b)) →
     (d', n') ∈ top_blocked_domains (generate_report b) →
     (length (filter (fun r => log_domain r = d) (logs_db b)) ≤ n')%nat).
Proof.
  unfold generate_report. simpl.
  set (m := count_by log_domain (logs_db b)).
  set (ranked := sort_by count_desc (map_to_list m)).
  assert (∀ d n, (d, n) ∈ ranked ↔ m !! d = Some n) as Hranked.
  { intros d n. unfold ranked. by rewrite elem_of_sort_by, elem_of_map_to_list. }
  split; [apply sum_values_count_by|].
  split; [intros t n; apply count_by_Some|].
  split; [rewrite length_take; lia|].
  split.
  { pose proof (count_desc_sorted (map_to_list m)) as Hs. fold ranked in Hs.
    rewrite <- (take_drop 10 ranked) in Hs.
    by apply StronglySorted_app_1_l in Hs. }
  split.
  { apply (sublist_NoDup _ (map fst ranked)).
    - unfold ranked.
      rewrite (Permutation_map fst (sort_by_perm count_desc (map_to_list m))).
      apply NoDup_fst_map_to_list.
    - change (map fst (take 10 ranked)) with (fst <$> take 10 ranked).
      rewrite fmap_take. apply sublist_take. }
  split.
  { intros d n Hin. apply subseteq_take in Hin.
    apply Hranked in Hin. by apply count_by_Some in Hin. }
  intros d d' n' Hpos Hout Hin.
  set (c := length (filter (fun r => log_domain r = d) (logs_db b))) in *.
  assert ((d, c) ∈ ranked) as Hd.
  { apply Hranked, count_by_Some. done. }
  rewrite <- (take_drop 10 ranked) in Hd.
  apply elem_of_app in Hd as [Hd|Hd].
  - exfalso. apply Hout. apply list_elem_of_fmap. by exists (d, c).
  - pose proof (count_desc_sorted (map_to_list m)) as Hs. fold ranked in Hs.
    rewrite <- (take_drop 10 ranked) in Hs.
    apply (StronglySorted_app_1_elem_of _ _ _ _ _ Hs Hin Hd).
Qed.

Example generate_report_example :
  let b := Blocker (RulesTable [] 0)
                   [LogRow (Some 1) "block" "https://a.example/x" "url" "a.example";
                    LogRow None "block" "https://b.example/y" "fingerprint" "b.example";
                    LogRow (Some 1) "block" "https://a.example/z" "url" "a.example"]
                   empty_index in
  total_blocks (generate_report b) = 3%nat ∧
  top_blocked_domains (generate_report b) = [("a.example", 2%nat); ("b.example", 1%nat)] ∧
  blocks_by_type (generate_report b) !! "url" = Some 2%nat ∧
  active (generate_report b) = 0%nat.
Proof. vm_compute. repeat split. Qed.

Lemma map_fold_list_to_map {V} (g : V → nat) (f : string → V) (ks : list string) :
  NoDup ks →
  map_fold (fun _ v acc => (g v + acc)%nat) 0%nat
           (list_to_map (map (fun k => (k, f k)) ks) : gmap string V) =
  sum_list_with (fun k => g (f k)) ks.
Proof.
  induction 1 as [|k ks Hk Hnd IH]; [done|]. simpl.
  rewrite map_fold_insert_L.
  - by rewrite IH.
  - intros. lia.
  - apply not_elem_of_list_to_map.
    by rewrite <- list_fmap_compose, list_fmap_id.
Qed.

Lemma sum_indicator (ks : list string) (k0 : string) :
  NoDup ks → k0 ∈ ks →
  sum_list_with (fun k => if decide (k0 = k) then 1%nat else 0%nat) ks = 1%nat.
Proof.
  induction 1 as [|k ks Hk Hnd IH]; intros Hin; [by apply elem_of_nil in Hin|].
  simpl. case_decide as Heq.
  - subst k0. f_equal.
    clear IH Hin. induction ks as [|k' ks IH]; [done|]. simpl.
    apply not_elem_of_cons in Hk as [Hne Hk].
    rewrite decide_False by done. apply NoDup_cons in Hnd as [_ Hnd]. by apply IH.
  - apply elem_of_cons in Hin as [?|Hin]; [done|]. by apply IH.
Qed.

Lemma sum_filter_lengths {A} (key : A → string) (ks : list string) (l : list A) :
  NoDup ks → Forall (fun x => key x ∈ ks) l →
  sum_list_with (fun k => length (filter (fun x => key x = k) l)) ks = length l.
Proof.
  intros Hnd. induction 1 as [|x l Hx _ IH]; simpl.
  - clear Hnd. induction ks as [|k ks IHk]; [done|]. simpl. by rewrite IHk.
  - transitivity
      (sum_list_with (fun k => if decide (key x = k) then 1%nat else 0%nat) ks +
       sum_list_with (fun k => length (filter (fun x => key x = k) l)) ks)%nat.
    + clear IH Hx Hnd. induction ks as [|k ks IHk]; [done|]. simpl.
      rewrite IHk, filter_cons. case_decide; simpl; lia.
    + by rewrite IH, (sum_indicator ks (key x) Hnd Hx).
Qed.

(** X9.  After a reload that succeeds, the report's [active] is the number
    of enabled rows of the rule table and [by_type] gives, for each of the
    five types, the number of enabled rows of that type. *)
Theorem generate_report_active (b : blocker) :
  Forall (fun row => enabled row = 1 → rule_type row ∈ known_types)
         (rows (rules_db b)) →
  fst (load_rules b) = Ok tt ∧
  active (generate_report (snd (load_rules b))) =
    length (filter (fun row => enabled row = 1) (rows (rules_db b))) ∧
  ∀ k, by_type (generate_report (snd (load_rules b))) !! k =
       if decide (k ∈ known_types)
       then Some (length (enabled_of_type k (rules_db b)))
       else None.
Proof.
  intros Hall. destruct (load_rules_ok b Hall) as (idx & Hload & Hidx).
  rewrite Hload. simpl.
  assert (∀ k, length (rows_of_type k (select_enabled (rules_db b))) =
               length (enabled_of_type k (rules_db b))) as Hlen.
  { intros k. destruct (rows_of_type_order k (rules_db b)) as (Hperm & _).
    by rewrite (Permutation_length Hperm), length_map. }
  split; [done|]. split.
  - assert (idx = list_to_map
                    (map (fun k => (k, rows_of_type k (select_enabled (rules_db b))))
                         known_types)) as ->.
    { apply map_eq. intros k. rewrite Hidx. case_decide as Hk.
      - symmetry. apply elem_of_list_to_map.
        + rewrite <- list_fmap_compose, list_fmap_id. compute_done.
        + apply list_elem_of_fmap. by exists k.
      - symmetry. apply not_elem_of_list_to_map.
        by rewrite <- list_fmap_compose, list_fmap_id. }
    rewrite (map_fold_list_to_map length) by compute_done.
    transitivity
      (sum_list_with
         (fun k => length (filter (fun row => rule_type row = k)
                                  (select_enabled (rules_db b)))) known_types).
    { unfold known_types, rows_of_type. simpl. by rewrite !length_map. }
    rewrite sum_filter_lengths; [|compute_done|].
    + unfold select_enabled. by rewrite (Permutation_length (sort_by_perm _ _)).
    + apply Forall_forall. intros row [Hin Hen]%elem_of_select_enabled.
      rewrite Forall_forall in Hall. by apply Hall.
  - intros k. rewrite lookup_fmap, Hidx. case_decide; simpl; [|done].
    by rewrite Hlen.
Qed.

Lemma generate_report_active_witness :
  fst (load_rules unloaded_store) = Ok tt ∧
  active (generate_report (snd (load_rules unloaded_store))) =
    length (filter (fun row => enabled row = 1) (rows (rules_db unloaded_store))) ∧
  ∀ k, by_type (generate_report (snd (load_rules unloaded_store))) !! k =
       if decide (k ∈ known_types)
       then Some (length (enabled_of_type k (rules_db unloaded_store)))
       else None.
Proof.
  apply (generate_report_active unloaded_store).
  repeat constructor; intros _; compute_done.
Defined.

(** ** [_modify_script] and [str.replace] *)

Lemma char_in_append (a : ascii) (n k : string) :
  char_in a n = true → char_in a (n +:+ k) = true.
Proof.
  induction n as [|b n IH]; simpl; [done|].
  destruct (Ascii.eqb a b); [done|]. exact IH.
Qed.

Lemma last_char_outside_char (n k : string) :
  last_char_outside n k = true →
  ∃ z, char_in z n = true ∧ char_in z k = false.
Proof.
  induction n as [|a n IH]; [done|]. destruct n as [|b n].
  - simpl. intros Hz%negb_true_iff. exists a. by rewrite Ascii.eqb_refl.
  - intros Hl. destruct (IH Hl) as (z & Hz & Hk). exists z. split; [|done].
    simpl in *. rewrite Hz. apply orb_true_r.
Qed.

Lemma last_char_outside_prefix (n k2 : string) :
  last_char_outside n (n +:+ k2) = false.
Proof.
  destruct (last_char_outside n (n +:+ k2)) eqn:Hl; [|done].
  destruct (last_char_outside_char _ _ Hl) as (z & Hz & Hk).
  by rewrite (char_in_append _ _ k2 Hz) in Hk.
Qed.

Lemma startswith_append (k n t : string) :
  startswith k (n +:+ t) = true →
  startswith k n = true ∨ ∃ k2, k = n +:+ k2.
Proof.
  revert k. induction n as [|a n IH]; intros k Hk.
  - right. by exists k.
  - destruct k as [|b k]; [by left|]. simpl in *.
    destruct (Ascii.eqb_spec b a) as [->|]; [|done].
    destruct (IH k Hk) as [?|[k2 ->]]; [by left|right; by exists k2].
Qed.

Lemma contains_cons_false (k : string) (c : ascii) (s : string) :
  contains k (String c s) = false ↔
  startswith k (String c s) = false ∧ contains k s = false.
Proof. simpl contains. apply orb_false_iff. Qed.

Lemma first_char_outside_tail (new : string) (a : ascii) (k : string) :
  first_char_outside new (String a k) = true → first_char_outside new k = true.
Proof.
  destruct new as [|n new]; [done|]. simpl.
  rewrite !negb_true_iff. intros Hf. by apply orb_false_iff in Hf as [_ ?].
Qed.

(** Through the characters that [str.replace] copies, a match of [k] in
    the result is a match in the source. *)
Lemma startswith_replace (old new : string) (k s : string) :
  first_char_outside new k = true →
  startswith k (replace_from old new s 0) = true → startswith k s = true.
Proof.
  revert k. induction s as [|c s IH]; intros k Hf Hk.
  - simpl in Hk. by destruct k.
  - destruct k as [|a k]; [done|].
    change (replace_from old new (String c s) 0) with
      (if startswith old (String c s)
       then new +:+ replace_from old new s (Nat.pred (String.length old))
       else String c (replace_from old new s O)) in Hk.
    destruct (startswith old (String c s)).
    + destruct new as [|n new]; [done|]. simpl in Hf, Hk.
      destruct (Ascii.eqb_spec a n) as [->|]; [|done].
      by rewrite Ascii.eqb_refl in Hf.
    + simpl in *. destruct (Ascii.eqb a c); [|done].
      apply IH; [|done]. by apply (first_char_outside_tail _ a).
Qed.

Lemma contains_stand_in (k new t : string) :
  last_char_outside new k = true → contains k new = false →
  contains k t = false → contains k (new +:+ t) = false.
Proof.
  intros Hlast Hnew Ht. induction new as [|a new IH]; [done|].
  change (String a new +:+ t) with (String a (new +:+ t)).
  apply contains_cons_false. apply contains_cons_false in Hnew as [Hst Hnew].
  split.
  - destruct (startswith k (String a (new +:+ t))) eqn:Hk; [|done].
    apply (startswith_append k (String a new) t) in Hk as [Hk|[k2 ->]].
    + congruence.
    + by rewrite last_char_outside_prefix in Hlast.
  - destruct new as [|b new]; [done|]. by apply IH.
Qed.

Lemma replace_from_absent (old new k s : string) (skip : nat) :
  stand_in_safe k new = true → copy_safe old k s →
  contains k (replace_from old new s skip) = false.
Proof.
  unfold stand_in_safe. intros [[Hf Hl]%andb_true_iff Hn%negb_true_iff]%andb_true_iff.
  assert (k ≠ EmptyString) as Hk.
  { intros ->. by destruct new. }
  revert skip. induction s as [|c s IH]; intros skip Hsafe.
  - simpl. by destruct k.
  - destruct Hsafe as [Hhere Hrest]. destruct skip as [|j]; [|by apply IH].
    change (replace_from old new (String c s) 0) with
      (if startswith old (String c s)
       then new +:+ replace_from old new s (Nat.pred (String.length old))
       else String c (replace_from old new s O)).
    destruct (startswith old (String c s)) eqn:Hold.
    + apply contains_stand_in; [done|done|by apply IH].
    + apply contains_cons_false. split; [|by apply IH].
      destruct (startswith k (String c (replace_from old new s 0))) eqn:Hst; [|done].
      assert (startswith k (replace_from old new (String c s) 0) = true) as Hst'.
      { change (replace_from old new (String c s) 0) with
          (if startswith old (String c s)
           then new +:+ replace_from old new s (Nat.pred (String.length old))
           else String c (replace_from old new s O)).
        by rewrite Hold. }
      apply startswith_replace in Hst'; [|done].
      by rewrite (Hhere eq_refl) in Hst'.
Qed.

Lemma copy_safe_same (old s : string) : copy_safe old old s.
Proof. induction s as [|c s IH]; [done|]. split; done. Qed.

Lemma copy_safe_absent (old k s : string) :
  contains k s = false → copy_safe old k s.
Proof.
  induction s as [|c s IH]; [done|].
  intros [Hst Hs]%contains_cons_false. split; [done|by apply IH].
Qed.

(** After the replacement the replaced name is gone. *)
Lemma str_replace_removes (old new s : string) :
  stand_in_safe old new = true → contains old (str_replace old new s) = false.
Proof. intros Hs. apply replace_from_absent; [done|apply copy_safe_same]. Qed.

(** A name that was absent stays absent. *)
Lemma str_replace_keeps_absent (old new k s : string) :
  stand_in_safe k new = true → contains k s = false →
  contains k (str_replace old new s) = false.
Proof. intros Hs Hk. apply replace_from_absent; [done|by apply copy_safe_absent]. Qed.

(** Without an occurrence there is nothing to replace. *)
Lemma str_replace_absent (old new s : string) :
  contains old s = false → str_replace old new s = s.
Proof.
  unfold str_replace. induction s as [|c s IH]; [done|].
  intros [Hst Hs]%contains_cons_false.
  change (replace_from old new (String c s) 0) with
    (if startswith old (String c s)
     then new +:+ replace_from old new s (Nat.pred (String.length old))
     else String c (replace_from old new s O)).
  rewrite Hst. by rewrite IH.
Qed.

Section ModifyScript.
Context `{PyText}.

(** X10.  When the rule's pattern contains [fingerprint], the modified
    script contains none of the four replaced API names, whatever the
    script was.  A script whose decoded text contains none of them is
    returned decoded and encoded again, with nothing replaced: unchanged
    when it is well-formed UTF-8. *)
Theorem modify_script_removes_names (body : string) (r : rule) :
  contains "fingerprint" (r_pattern r) = true →
  Forall (fun name => contains name (_modify_script body r) = false)
         (map fst replacements) ∧
  (Forall (fun name => contains name (decode_ignore body) = false)
          (map fst replacements) →
   _modify_script body r = decode_ignore body) ∧
  (decode_ignore body = body →
   Forall (fun name => contains name body = false) (map fst replacements) →
   _modify_script body r = body).
Proof.
  intros Hp.
  assert (Forall (fun name => contains name (decode_ignore body) = false)
                 (map fst replacements) →
          _modify_script body r = decode_ignore body) as Habsent.
  { unfold _modify_script, encode_utf8. rewrite Hp.
    intros Habs. unfold replacements in *. simpl in *.
    inversion Habs as [|? ? H1 Habs1]; subst.
    inversion Habs1 as [|? ? H2 Habs2]; subst.
    inversion Habs2 as [|? ? H3 Habs3]; subst.
    inversion Habs3 as [|? ? H4 _]; subst.
    by rewrite (str_replace_absent _ _ _ H1), (str_replace_absent _ _ _ H2),
      (str_replace_absent _ _ _ H3), (str_replace_absent _ _ _ H4). }
  split; [|split; [exact Habsent|]].
  - unfold _modify_script, encode_utf8. rewrite Hp.
    unfold replacements. simpl.
    repeat constructor.
    + do 3 (apply str_replace_keeps_absent; [reflexivity|]).
      by apply str_replace_removes.
    + do 2 (apply str_replace_keeps_absent; [reflexivity|]).
      by apply str_replace_removes.
    + apply str_replace_keeps_absent; [reflexivity|].
      by apply str_replace_removes.
    + by apply str_replace_removes.
  - intros Hvalid Habs. rewrite Habsent; [done|]. by rewrite Hvalid.
Qed.
End ModifyScript.

Section ModifyScriptExamples.
#[local] Existing Instance model_text.

Lemma modify_script_removes_names_witness :
  Forall (fun name =>
            contains name
              (_modify_script "var ua = navigator.userAgent; c = canvas.toDataURL();"
                              (Rule 1 "fingerprint|navigator" "modify" "stand-ins" 1)) = false)
         (map fst replacements) ∧
  (Forall (fun name =>
             contains name
               (decode_ignore "var ua = navigator.userAgent; c = canvas.toDataURL();") =
             false)
          (map fst replacements) →
   _modify_script "var ua = navigator.userAgent; c = canvas.toDataURL();"
                  (Rule 1 "fingerprint|navigator" "modify" "stand-ins" 1) =
   decode_ignore "var ua = navigator.userAgent; c = canvas.toDataURL();") ∧
  (decode_ignore "var ua = navigator.userAgent; c = canvas.toDataURL();" =
   "var ua = navigator.userAgent; c = canvas.toDataURL();" →
   Forall (fun name =>
             contains name "var ua = navigator.userAgent; c = canvas.toDataURL();" = false)
          (map fst replacements) →
   _modify_script "var ua = navigator.userAgent; c = canvas.toDataURL();"
                  (Rule 1 "fingerprint|navigator" "modify" "stand-ins" 1) =
   "var ua = navigator.userAgent; c = canvas.toDataURL();").
Proof.
  apply (modify_script_removes_names
           "var ua = navigator.userAgent; c = canvas.toDataURL();"
           (Rule 1 "fingerprint|navigator" "modify" "stand-ins" 1)).
  reflexivity.
Defined.

Example modify_script_example :
  _modify_script "var ua = navigator.userAgent; p = navigator.plugins;"
                 (Rule 1 "fingerprint" "modify" "stand-ins" 1) =
  "var ua = " +:+ dquote +:+ "Mozilla/5.0" +:+ dquote +:+ "; p = [];".
Proof. vm_compute. reflexivity. Qed.

(** A byte that is not UTF-8 splits a name in the bytes, not in the
    decoded text: the name is replaced, and the byte is gone. *)
Example modify_script_invalid_byte :
  _modify_script ("navigator.user" +:+ String (Ascii.ascii_of_nat 255) "Agent")
                 (Rule 1 "fingerprint" "modify" "stand-ins" 1) =
  dquote +:+ "Mozilla/5.0" +:+ dquote.
Proof. vm_compute. reflexivity. Qed.

(** A [modify] rule without [fingerprint] in its pattern still drops the
    bytes that are not UTF-8. *)
Example modify_script_drops_invalid_bytes :
  _modify_script ("navigator.userAgent " +:+ String (Ascii.ascii_of_nat 255) "!")
                 default_script_rule =
  "navigator.userAgent !".
Proof. vm_compute. reflexivity. Qed.
End ModifyScriptExamples.
(** ** More on the tracking graph *)

Lemma add_node_elem (n x : string) (l : list string) :
  x ∈ add_node n l ↔ x ∈ l ∨ x = n.
Proof.
  unfold add_node. case_decide as Hin.
  - split; [by left|]. intros [?| ->]; done.
  - by rewrite elem_of_app, list_elem_of_singleton.
Qed.

Lemma add_node_NoDup (n : string) (l : list string) :
  NoDup l → NoDup (add_node n l).
Proof.
  intros Hnd. unfold add_node. case_decide as Hin; [done|].
  apply NoDup_app. split; [done|]. split; [|apply NoDup_singleton].
  by intros x Hx ->%list_elem_of_singleton.
Qed.

Lemma add_edge_wf (g : digraph) (u v : string) :
  graph_wf g → graph_wf (add_edge g u v).
Proof.
  intros [Hnd Hends]. split.
  - simpl. by apply add_node_NoDup, add_node_NoDup.
  - intros n. unfold endpoint.
    change (nodes (add_edge g u v)) with (add_node v (add_node u (nodes g))).
    rewrite !add_node_elem, Hends. unfold endpoint. split.
    + intros [[[m Hm]| ->]| ->].
      * exists m. rewrite !add_edge_edges. tauto.
      * exists v. rewrite !add_edge_edges. left. by right.
      * exists u. rewrite !add_edge_edges. right. by right.
    + intros [m Hm]. rewrite !add_edge_edges in Hm.
      destruct Hm as [[Hm|[= -> ->]]|[Hm|[= -> ->]]].
      * left; left. exists m. by left.
      * left; by right.
      * left; left. exists m. by right.
      * by right.
Qed.

Section GraphBuilder.
Context `{PyUrl}.

Lemma add_rows_wf (l : list request_row) (g g' : digraph) :
  add_rows l g = Ok g' → graph_wf g → graph_wf g'.
Proof.
  revert g. induction l as [|row l IH]; intros g Hrun Hwf.
  - by injection Hrun as <-.
  - simpl in Hrun. destruct (urlparse (url row)) as [url_parts|e]; [|done].
    destruct (headers_is_json row); [|done].
    destruct (truthy (domain row) && truthy (netloc url_parts)).
    + apply (IH _ Hrun). by apply add_edge_wf.
    + by apply (IH _ Hrun).
Qed.

(** X11.  In the graph that is built every node is listed once and is an
    end of some edge: there are no isolated and no repeated nodes. *)
Theorem tracking_graph_nodes (requests : list request_row) (g : digraph) :
  tracking_graph requests = Ok g →
  NoDup (nodes g) ∧ ∀ n, n ∈ nodes g ↔ ∃ m, (n, m) ∈ edges g ∨ (m, n) ∈ edges g.
Proof.
  intros Hrun. apply (add_rows_wf _ _ _ Hrun). split; [constructor|].
  intros n. split; [by intros ?%elem_of_nil|].
  intros [m [Hm|Hm]]; by apply elem_of_nil in Hm.
Qed.

Lemma readable_dec (row : request_row) : readable row ∨ ¬ readable row.
Proof.
  unfold readable.
  destruct (urlparse (url row)) as [url_parts|e]; [|right; by intros [[? ?] _]].
  destruct (headers_is_json row); [left; eauto|right; by intros [_ ?]].
Qed.

(** The loop ends at the first row that cannot be read. *)
Lemma add_rows_raises (pre post : list request_row) (row : request_row) (g : digraph) :
  Forall readable pre → ¬ readable row →
  add_rows (pre ++ row :: post) g = Raise (row_error row).
Proof.
  intros Hpre Hrow. revert g.
  induction Hpre as [|r pre [[url_parts Hurl] Hjson] _ IH]; intros g.
  - simpl. unfold row_error, readable in *.
    destruct (urlparse (url row)) as [url_parts|e]; [|done].
    destruct (headers_is_json row); [|done].
    exfalso. apply Hrow. eauto.
  - simpl app. rewrite (add_rows_cons _ _ _ _ Hurl Hjson). apply IH.
Qed.

Lemma first_unreadable (l : list request_row) :
  Forall readable l ∨
  ∃ pre row post, l = pre ++ row :: post ∧ Forall readable pre ∧ ¬ readable row.
Proof.
  induction l as [|r l IH]; [by left|].
  destruct (readable_dec r) as [Hr|Hr].
  - destruct IH as [Hall|(pre & row & post & -> & Hpre & Hrow)].
    + left. by constructor.
    + right. exists (r :: pre), row, post. split; [done|]. split; [by constructor|done].
  - right. exists [], r, l. split; [done|]. split; [constructor|done].
Qed.

(** X12.  The graph is built exactly when the URL and the headers of
    every third-party row parse.  Otherwise the analysis raises at the
    first third-party row that cannot be read: what [urlparse] raises
    when the URL does not parse, [JSONDecodeError] when the URL parses
    and the headers do not, although the parsed headers are never used.
    Rows that are not third-party are never parsed. *)
Theorem tracking_graph_built_iff (requests : list request_row) :
  ((∃ g, tracking_graph requests = Ok g) ↔
   ∀ row, row ∈ requests → third_party row = 1 → readable row) ∧
  (∀ pre row post,
     filter (fun row => third_party row = 1) requests = pre ++ row :: post →
     Forall readable pre → ¬ readable row →
     tracking_graph requests = Raise (row_error row)) ∧
  (∀ e, tracking_graph requests = Raise e →
     ∃ row, row ∈ requests ∧ third_party row = 1 ∧ ¬ readable row ∧
            e = row_error row).
Proof.
  assert (∀ pre row post,
     filter (fun row => third_party row = 1) requests = pre ++ row :: post →
     Forall readable pre → ¬ readable row →
     tracking_graph requests = Raise (row_error row)) as Hbad.
  { intros pre row post Hsplit Hpre Hrow. unfold tracking_graph.
    rewrite Hsplit. by apply add_rows_raises. }
  assert (Forall readable (filter (fun row => third_party row = 1) requests) →
          ∃ g, tracking_graph requests = Ok g) as Hok.
  { intros Hall. unfold tracking_graph.
    destruct (add_rows_spec _ empty_graph Hall) as (g & Hrun & _). by exists g. }
  split; [split|split; [exact Hbad|]].
  - intros [g Hg] row Hin Htp.
    destruct (first_unreadable (filter (fun row => third_party row = 1) requests))
      as [Hall|(pre & r & post & Hsplit & Hpre & Hr)].
    + rewrite Forall_forall in Hall. apply Hall. by apply list_elem_of_filter.
    + rewrite (Hbad _ _ _ Hsplit Hpre Hr) in Hg. done.
  - intros Hall. apply Hok. apply Forall_forall.
    intros row [Htp Hin]%list_elem_of_filter. by apply Hall.
  - intros e Hraise.
    destruct (first_unreadable (filter (fun row => third_party row = 1) requests))
      as [Hall|(pre & r & post & Hsplit & Hpre & Hr)].
    + destruct (Hok Hall) as [g Hg]. congruence.
    + rewrite (Hbad _ _ _ Hsplit Hpre Hr) in Hraise. injection Hraise as <-.
      assert (r ∈ filter (fun row => third_party row = 1) requests) as Hin.
      { rewrite Hsplit. apply elem_of_app. right. apply elem_of_cons. by left. }
      apply list_elem_of_filter in Hin as [Htp Hin]. by exists r.
Qed.
End GraphBuilder.

Section GraphBuilderExamples.
#[local] Existing Instance model_url.

Lemma tracking_graph_nodes_witness :
  NoDup (nodes (DiGraph ["site.com"; "ads.example"] [("site.com", "ads.example")])) ∧
  ∀ n, n ∈ nodes (DiGraph ["site.com"; "ads.example"] [("site.com", "ads.example")]) ↔
       ∃ m, (n, m) ∈ edges (DiGraph ["site.com"; "ads.example"] [("site.com", "ads.example")]) ∨
            (m, n) ∈ edges (DiGraph ["site.com"; "ads.example"] [("site.com", "ads.example")]).
Proof.
  apply (tracking_graph_nodes
           [RequestRow "site.com" "https://ads.example/pixel?id=1" true 1;
            RequestRow "site.com" "/local" false 0]).
  vm_compute. reflexivity.
Defined.

(** The URL is parsed before the headers: a row with both at fault
    raises [ValueError]. *)
Example tracking_graph_first_error :
  tracking_graph [RequestRow "site.com" "http://[::1/x" false 1] = Raise ValueError ∧
  tracking_graph [RequestRow "site.com" "https://ads.example/x" false 1] =
    Raise JSONDecodeError ∧
  tracking_graph [RequestRow "site.com" "http://[::1/x" false 0] = Ok empty_graph.
Proof. repeat split; vm_compute; reflexivity. Qed.
End GraphBuilderExamples.
(** ** The network monitor *)

Lemma string_app_assoc (a b c : string) : (a +:+ b) +:+ c = a +:+ b +:+ c.
Proof.
  induction a as [|x a IH]; [done|].
  change (String x ((a +:+ b) +:+ c) = String x (a +:+ b +:+ c)). by rewrite IH.
Qed.

Lemma startswith_spec (p s : string) :
  startswith p s = true ↔ ∃ post, s = p +:+ post.
Proof.
  revert s. induction p as [|a p IH]; intros s; simpl.
  - split; [intros _; by exists s|done].
  - destruct s as [|b s]; [split; [done|by intros [? ?]]|].
    destruct (Ascii.eqb_spec a b) as [->|Hne].
    + rewrite IH. split; intros [post Hpost]; exists post.
      * change (String b s = String b (p +:+ post)). by rewrite Hpost.
      * change (String b s = String b (p +:+ post)) in Hpost. by injection Hpost.
    + split; [done|]. intros [post Hpost].
      change (String b s = String a (p +:+ post)) in Hpost. by injection Hpost.
Qed.

Lemma contains_spec (sub s : string) :
  contains sub s = true ↔ ∃ pre post, s = pre +:+ sub +:+ post.
Proof.
  induction s as [|c s IH].
  - simpl. rewrite orb_false_r, startswith_spec. split.
    + intros [post Hpost]. by exists EmptyString, post.
    + intros (pre & post & Heq). destruct pre as [|x pre]; [by exists post|].
      change (EmptyString = String x (pre +:+ sub +:+ post)) in Heq. done.
  - simpl contains. rewrite orb_true_iff, startswith_spec, IH. split.
    + intros [[post Hpost]|(pre & post & ->)].
      * by exists EmptyString, post.
      * by exists (String c pre), post.
    + intros (pre & post & Heq). destruct pre as [|x pre].
      * left. by exists post.
      * right. change (String c s = String x (pre +:+ sub +:+ post)) in Heq.
        injection Heq as -> ->. by exists pre, post.
Qed.

(** A name that contains a text contains every part of that text. *)
Lemma contains_trans (a b s : string) :
  contains a b = true → contains b s = true → contains a s = true.
Proof.
  rewrite !contains_spec. intros (p1 & p2 & ->) (pre & post & ->).
  exists (pre +:+ p1), (p2 +:+ post).
  by rewrite !string_app_assoc.
Qed.

Lemma dict_add_keys (k v : string) (d : list (string * list string)) (x : string) :
  x ∈ map fst (dict_add k v d) ↔ x ∈ map fst d ∨ x = k.
Proof.
  induction d as [|[k' vs] d IH]; simpl.
  - rewrite list_elem_of_singleton, elem_of_nil. tauto.
  - destruct (String.eqb_spec k k') as [->|Hne]; simpl.
    + rewrite !elem_of_cons. tauto.
    + rewrite !elem_of_cons, IH. tauto.
Qed.

Section MonitorFacts.
Context `{PyUrl} `{PyText}.

(** The keys of [parse_qs]: the decoded names of the fields, without the
    fields of empty value unless blank values are kept. *)
Lemma parse_qs_keys (qs : string) (keep_blank_values : bool) (name : string) :
  name ∈ map fst (parse_qs qs keep_blank_values) ↔
  ∃ field, field ∈ split_on "&" qs ∧ field ≠ EmptyString ∧
           (keep_blank_values = true ∨ field_value field ≠ EmptyString) ∧
           name = field_name field.
Proof.
  unfold parse_qs.
  assert (∀ fields d,
    name ∈ map fst
      (fold_left
         (fun d field =>
            match field with
            | EmptyString => d
            | _ =>
                let '(name, rest) := span_until (is_char "=") field in
                let value := drop_first rest in
                if keep_blank_values || truthy value
                then dict_add (unquote (plus_to_space name))
                              (unquote (plus_to_space value)) d
                else d
            end) fields d) ↔
    name ∈ map fst d ∨
    ∃ field, field ∈ fields ∧ field ≠ EmptyString ∧
             (keep_blank_values = true ∨ field_value field ≠ EmptyString) ∧
             name = field_name field) as Hfold.
  { induction fields as [|field fields IH]; intros d.
    - simpl. split; [by left|]. intros [?|(f & Hf & _)]; [done|].
      by apply elem_of_nil in Hf.
    - simpl fold_left. rewrite IH. clear IH.
      assert (∀ P : string → Prop,
                (∃ f, f ∈ field :: fields ∧ P f) ↔
                P field ∨ ∃ f, f ∈ fields ∧ P f) as Hex.
      { intros P. split.
        - intros (f & [->|Hf]%elem_of_cons & HP); [by left|right; by exists f].
        - intros [HP|(f & Hf & HP)].
          + exists field. split; [apply elem_of_cons; by left|done].
          + exists f. split; [apply elem_of_cons; by right|done]. }
      rewrite (Hex (fun f => f ≠ EmptyString ∧
                             (keep_blank_values = true ∨ field_value f ≠ EmptyString) ∧
                             name = field_name f)).
      destruct field as [|c field].
      { split; [tauto|]. intros [?|[[? _]|?]]; [tauto|done|tauto]. }
      unfold field_value, field_name.
      destruct (span_until (is_char "=") (String c field)) as [fname rest] eqn:Hspan.
      cbn [fst snd].
      destruct (keep_blank_values || truthy (drop_first rest)) eqn:Hkeep.
      + rewrite dict_add_keys.
        assert (keep_blank_values = true ∨ drop_first rest ≠ EmptyString) as Hk.
        { apply orb_true_iff in Hkeep as [?|Ht]; [by left|right].
          by apply truthy_nonempty. }
        split.
        * intros [[?| ->]|?]; [tauto| |tauto]. right; left. done.
        * intros [?|[(_ & _ & ->)|?]]; tauto.
      + apply orb_false_iff in Hkeep as [Hk Ht].
        assert (drop_first rest = EmptyString) as Hempty.
        { destruct (drop_first rest); [done|discriminate Ht]. }
        split; [tauto|].
        intros [?|[(_ & [Hkb|Hv] & _)|?]]; [tauto|congruence|congruence|tauto]. }
  rewrite Hfold. simpl. rewrite elem_of_nil. tauto.
Qed.

Lemma indicated_deciding (name : string) :
  indicated name = existsb (fun indicator => contains indicator (lower name))
                           deciding_indicators.
Proof.
  unfold indicated, tracking_indicators, deciding_indicators. simpl.
  assert (∀ longer, contains "id" longer = true →
            contains longer (lower name) = true →
            contains "id" (lower name) = true) as Hid.
  { intros longer. apply contains_trans. }
  destruct (contains "id" (lower name)) eqn:H0'; [done|]. simpl.
  assert (∀ longer, contains "id" longer = true →
            contains longer (lower name) = false) as Hno.
  { intros longer Hl. destruct (contains longer (lower name)) eqn:Hc; [|done].
    pose proof (Hid longer Hl Hc) as Hyes. congruence. }
  rewrite (Hno "uid" eq_refl), (Hno "guid" eq_refl), (Hno "uuid" eq_refl),
    (Hno "client_id" eq_refl).
  simpl. by rewrite !orb_false_r.
Qed.

Lemma exists_indicated {V} (l : list (string * V)) :
  existsb (fun p => indicated (fst p)) l = true ↔
  ∃ name indicator, name ∈ map fst l ∧ indicator ∈ deciding_indicators ∧
                    contains indicator (lower name) = true.
Proof.
  rewrite existsb_exists. split.
  - intros ([name v] & Hin & Hind). simpl in Hind.
    rewrite indicated_deciding in Hind.
    apply existsb_exists in Hind as (indicator & Hi & Hc).
    exists name, indicator. split; [|split; [by apply list_elem_of_In|done]].
    apply list_elem_of_fmap. exists (name, v). split; [done|].
    by apply list_elem_of_In.
  - intros (name & indicator & Hname & Hi & Hc).
    apply list_elem_of_fmap in Hname as ([n v] & -> & Hin).
    exists (n, v). split; [by apply list_elem_of_In|]. simpl.
    rewrite indicated_deciding. apply existsb_exists.
    exists indicator. split; [by apply list_elem_of_In|done].
Qed.

(** X13.  [_contains_tracking_data] raises exactly when [urlparse] raises
    on the URL.  Otherwise it flags the request exactly when the decoded
    name of a query field with a non-empty value, or the name of a
    header, contains after lowering one of [id], [tracking],
    [analytics], [visitor]; the other four indicators of the list are
    covered by [id]. *)
Theorem contains_tracking_data_iff (url : string) (headers : list (string * string)) :
  (_contains_tracking_data url headers = Ok true ↔
   ∃ url_parts name indicator,
     urlparse url = Ok url_parts ∧
     ((∃ field, field ∈ split_on "&" (query url_parts) ∧
                field_value field ≠ EmptyString ∧ name = field_name field) ∨
      name ∈ map fst headers) ∧
     indicator ∈ deciding_indicators ∧
     contains indicator (lower name) = true) ∧
  (∀ e, _contains_tracking_data url headers = Raise e ↔ urlparse url = Raise e).
Proof.
  unfold _contains_tracking_data.
  destruct (urlparse url) as [url_parts|e0]; split.
  - split.
    + intros [= Hflag]. apply orb_true_iff in Hflag.
      rewrite !exists_indicated in Hflag.
      destruct Hflag as [(name & i & Hn & Hi & Hc)|(name & i & Hn & Hi & Hc)];
        exists url_parts, name, i; (split; [done|]); (split; [|done]).
      * left. apply parse_qs_keys in Hn as (field & Hf & _ & [?|Hv] & ->); [done|].
        by exists field.
      * by right.
    + intros (p & name & i & [= <-] & Hname & Hi & Hc). f_equal.
      apply orb_true_iff. rewrite !exists_indicated.
      destruct Hname as [(field & Hf & Hv & Hname)|Hn]; [left|right];
        exists name, i; (split; [|done]); [|done].
      apply parse_qs_keys. exists field. split; [done|]. split; [|split; [by right|done]].
      intros ->. by apply Hv.
  - intros e. split; done.
  - split; [done|]. by intros (? & ? & ? & ? & _).
  - intros e. split; congruence.
Qed.

Lemma contains_tracking_data_ok (url : string) (headers : list (string * string))
    (url_parts : url_parts) :
  urlparse url = Ok url_parts →
  _contains_tracking_data url headers =
  Ok (existsb (fun param => indicated (fst param)) (parse_qs (query url_parts) false) ||
      existsb (fun header => indicated (fst header)) headers).
Proof. intros Hurl. unfold _contains_tracking_data. by rewrite Hurl. Qed.

Lemma request_interceptor_eq (base_domain : string) (db : list stored_request)
    (request : monitored_request) :
  request_interceptor base_domain db request =
  db ++ stored_rows base_domain [request].
Proof.
  unfold request_interceptor, stored_rows, _store_request. simpl.
  destruct (urlparse (m_url request)) as [url_parts|e] eqn:Hurl.
  - by rewrite (contains_tracking_data_ok _ _ _ Hurl).
  - by rewrite app_nil_r.
Qed.

Lemma monitor_rows (base_domain : string) (requests : list monitored_request)
    (db : list stored_request) :
  fold_left (request_interceptor base_domain) requests db =
  db ++ stored_rows base_domain requests.
Proof.
  revert db. induction requests as [|r requests IH]; intros db; simpl.
  - by rewrite app_nil_r.
  - rewrite IH, request_interceptor_eq, <- app_assoc. f_equal.
    unfold stored_rows. simpl.
    by destruct (urlparse (m_url r)).
Qed.

Lemma elem_of_stored_rows (base_domain : string) (requests : list monitored_request)
    (row : stored_request) :
  row ∈ stored_rows base_domain requests ↔
  ∃ request url_parts, request ∈ requests ∧
    urlparse (m_url request) = Ok url_parts ∧
    row = stored_row base_domain request url_parts.
Proof.
  unfold stored_rows. rewrite list_elem_of_omap. split.
  - intros (request & Hin & Hrow).
    destruct (urlparse (m_url request)) as [url_parts|e] eqn:Hurl; [|done].
    injection Hrow as <-. by exists request, url_parts.
  - intros (request & url_parts & Hin & Hurl & ->).
    exists request. by rewrite Hurl.
Qed.

(** X14.  The monitor records the domain of the request URL itself as
    the row's domain, and no row for a request whose URL does not parse.
    So the graph built from a monitored table always exists and has
    self-loops only: one for every non-empty domain, other than the
    monitored site's, that a request went to. *)
Theorem monitored_graph_self_loops (base_url : string) (base_parts : url_parts)
    (requests : list monitored_request) :
  urlparse base_url = Ok base_parts →
  ∃ table g,
    monitor base_url requests = Ok table ∧
    tracking_graph (map selected_columns table) = Ok g ∧
    ∀ u v, (u, v) ∈ edges g ↔
           u = v ∧ u ≠ EmptyString ∧ u ≠ netloc base_parts ∧
           ∃ request url_parts,
             request ∈ requests ∧ urlparse (m_url request) = Ok url_parts ∧
             netloc url_parts = u.
Proof.
  intros Hbase. unfold monitor, start_monitoring. rewrite Hbase.
  rewrite monitor_rows. simpl app.
  exists (stored_rows (netloc base_parts) requests).
  unfold tracking_graph.
  set (rows := filter (fun row => third_party row = 1)
                      (map selected_columns (stored_rows (netloc base_parts) requests))).
  destruct (add_rows_spec rows empty_graph) as (g & Hrun & _ & Hedges).
  { apply Forall_forall. intros row [_ Hin]%list_elem_of_filter.
    apply list_elem_of_fmap in Hin as (r & -> & Hr).
    apply elem_of_stored_rows in Hr as (request & url_parts & _ & Hurl & ->).
    split; [by exists url_parts|done]. }
  exists g. split; [done|]. split; [done|].
  intros u v. rewrite Hedges. simpl. split.
  - intros [Hin|(row & Hrow & p & Hp & Ha & Hb & Hna & Hnb)];
      [by apply elem_of_nil in Hin|].
    apply list_elem_of_filter in Hrow as [Htp Hrow].
    apply list_elem_of_fmap in Hrow as (r & -> & Hr).
    apply elem_of_stored_rows in Hr as (request & url_parts & Hreq & Hurl & ->).
    simpl in *. rewrite Hurl in Hp. injection Hp as <-. subst u v.
    split; [done|]. split; [done|]. split; [|by exists request, url_parts].
    destruct (String.eqb_spec (netloc url_parts) (netloc base_parts)); done.
  - intros (<- & Hne & Hbase' & request & url_parts & Hreq & Hurl & Hu). right.
    exists (selected_columns (stored_row (netloc base_parts) request url_parts)).
    split.
    + apply list_elem_of_filter. split.
      * simpl. apply String.eqb_neq in Hbase'. rewrite <- Hu in Hbase'.
        by rewrite Hbase'.
      * apply list_elem_of_fmap. eexists. split; [done|].
        apply elem_of_stored_rows. by exists request, url_parts.
    + exists url_parts. simpl. done.
Qed.
End MonitorFacts.

Section MonitorExamples.
#[local] Existing Instance model_url.
#[local] Existing Instance model_text.

Example contains_tracking_data_examples :
  _contains_tracking_data "https://cdn.example/img?width=640" [] = Ok true ∧
  _contains_tracking_data "https://cdn.example/img?uid=" [] = Ok false ∧
  _contains_tracking_data "https://cdn.example/img?size=640" [("Accept", "*/*")] =
    Ok false ∧
  _contains_tracking_data "https://cdn.example/img" [("X-Client-ID", "7")] = Ok true ∧
  _contains_tracking_data "http://[::1/img?uid=7" [] = Raise ValueError.
Proof. vm_compute. repeat split. Qed.

Lemma monitored_graph_self_loops_witness :
  ∃ table g,
    monitor "http://localhost:8000"
      [MonitoredRequest "http://localhost:8000/index.html" "GET" [] None;
       MonitoredRequest "https://ads.example/pixel?uid=7" "GET" [] None;
       MonitoredRequest "http://[::1/beacon" "POST" [] None] = Ok table ∧
    tracking_graph (map selected_columns table) = Ok g ∧
    ∀ u v, (u, v) ∈ edges g ↔
           u = v ∧ u ≠ EmptyString ∧
           u ≠ netloc (UrlParts "http" "localhost:8000" EmptyString EmptyString
                                EmptyString EmptyString) ∧
           ∃ request url_parts,
             request ∈ [MonitoredRequest "http://localhost:8000/index.html" "GET" [] None;
                        MonitoredRequest "https://ads.example/pixel?uid=7" "GET" [] None;
                        MonitoredRequest "http://[::1/beacon" "POST" [] None] ∧
             urlparse (m_url request) = Ok url_parts ∧
             netloc url_parts = u.
Proof.
  apply (monitored_graph_self_loops "http://localhost:8000").
  vm_compute. reflexivity.
Defined.

(** Three requests: one to the monitored site, one to a third party, one
    whose URL does not parse.  Two rows are stored and the graph has the
    one self-loop. *)
Example monitored_graph_example :
  monitor "http://localhost:8000"
    [MonitoredRequest "http://localhost:8000/index.html" "GET" [] None;
     MonitoredRequest "https://ads.example/pixel?uid=7" "GET" [] None;
     MonitoredRequest "http://[::1/beacon" "POST" [] None] =
  Ok [StoredRequest "http://localhost:8000/index.html" "GET" [] [] None
                    "localhost:8000" false false;
      StoredRequest "https://ads.example/pixel?uid=7" "GET" [] [("uid", ["7"])] None
                    "ads.example" true true] ∧
  tracking_graph
    (map selected_columns
       [StoredRequest "http://localhost:8000/index.html" "GET" [] [] None
                      "localhost:8000" false false;
        StoredRequest "https://ads.example/pixel?uid=7" "GET" [] [("uid", ["7"])] None
                      "ads.example" true true]) =
  Ok (DiGraph ["ads.example"] [("ads.example", "ads.example")]).
Proof. split; vm_compute; reflexivity. Qed.
End MonitorExamples.
(** ** The JavaScript analyses of the engine *)

(** X15.  The canvas entries of [_detect_fingerprinting] are the
    fingerprinting attempts of [_analyze_javascript] whose function is
    [getImageData] or [toDataURL], in the same order.  The audio, font and
    behavioural lists are always empty: a [getFloatFrequencyData] call is
    listed as an attempt and never as audio fingerprinting. *)
Theorem canvas_entries_are_attempts (js_activities : list Engine.js_activity) :
  Engine.canvas_fingerprinting (Engine._detect_fingerprinting js_activities) =
    map Engine.canvas_of
        (filter (fun a => Engine.a_function a ∈ Engine.canvas_apis)
                (Engine.fingerprinting_attempts (Engine._analyze_javascript js_activities))) ∧
  Engine.audio_fingerprinting (Engine._detect_fingerprinting js_activities) = [] ∧
  Engine.font_fingerprinting (Engine._detect_fingerprinting js_activities) = [] ∧
  Engine.behavioral_fingerprinting (Engine._detect_fingerprinting js_activities) = [] ∧
  ∀ row, row ∈ js_activities →
         Engine.function_name row = "getFloatFrequencyData" →
         Engine.Attempt (Engine.script_url row) (Engine.function_name row)
                        (Engine.arguments row) (Engine.timestamp row)
           ∈ Engine.fingerprinting_attempts (Engine._analyze_javascript js_activities).
Proof.
  split; [|repeat split].
  - simpl. induction js_activities as [|row rows IH]; [done|].
    rewrite !filter_cons.
    destruct (decide (Engine.function_name row ∈ Engine.canvas_apis)) as [Hc|Hc].
    + rewrite decide_True.
      2:{ unfold Engine.canvas_apis in Hc.
          apply elem_of_cons in Hc as [->|Hc]; [compute_done|].
          apply list_elem_of_singleton in Hc as ->. compute_done. }
      simpl. rewrite filter_cons. simpl. rewrite decide_True by done.
      simpl. by rewrite IH.
    + case_decide; [|done]. simpl. rewrite filter_cons. simpl.
      by rewrite decide_False.
  - intros row Hin Hf. simpl. apply list_elem_of_fmap. exists row.
    split; [done|]. apply list_elem_of_filter. split; [|done].
    rewrite Hf. compute_done.
Qed.

(** ** When the interceptors cannot raise *)

Section NoRaise.
Context `{PyRe} `{PyUrl} `{PyText}.

Lemma re_search_compiles (pattern text : string) :
  is_Some (re_compile pattern) → ∃ found, re_search pattern text = Ok found.
Proof. intros [p Hp]. unfold re_search. rewrite Hp. eauto. Qed.

Lemma any_search_compiles (patterns : list string) (text : string) :
  Forall (fun p => is_Some (re_compile p)) patterns →
  ∃ found, any_search patterns text = Ok found.
Proof.
  induction 1 as [|p ps Hp _ [found IH]]; simpl; [eauto|].
  destruct (re_search_compiles p text Hp) as [[] ->]; eauto.
Qed.

Lemma url_loop_sound (rs : list rule) (s : session) (url_parts : url_parts) :
  urlparse (req_url (request s)) = Ok url_parts →
  Forall (fun r => sound_rule r ∧ sqlite_integer (r_id r)) rs →
  ∃ f s', for_each rs url_rule_step s = (Ok f, s') ∧
          req_url (request s') = req_url (request s).
Proof.
  intros Hurl. induction 1 as [|r rs [[Hc Hm] Hid] _ IH]; [by exists Next, s|].
  rewrite for_each_cons, url_rule_step_eq, (log_parts_Some _ _ Hid), Hurl.
  destruct (re_search_compiles (r_pattern r) (req_url (request s)) Hc) as [[] ->];
    [|exact IH].
  destruct (String.eqb (r_action r) "block"); [eauto|].
  destruct (String.eqb_spec (r_action r) "modify") as [Ha|]; [|exact IH].
  destruct (contains "strip_params" (r_pattern r)) eqn:Hs; [|exact IH].
  exfalso. by apply Hm.
Qed.

Lemma script_loop_sound (rs : list rule) (s : session) (resp : http_response)
    (url_parts : url_parts) :
  urlparse (req_url (request s)) = Ok url_parts →
  response s = Some resp →
  Forall (fun r => is_Some (re_compile (r_pattern r)) ∧ sqlite_integer (r_id r)) rs →
  ∃ f s', for_each rs script_rule_step s = (Ok f, s').
Proof.
  intros Hurl Hresp Hall. revert s resp Hurl Hresp.
  induction Hall as [|r rs [Hc Hid] _ IH]; intros s resp Hurl Hresp;
    [by exists Next, s|].
  rewrite for_each_cons, (script_rule_step_eq r s resp Hresp).
  rewrite (log_parts_Some _ _ Hid), Hurl.
  destruct (re_search_compiles (r_pattern r) (decode_ignore (resp_body resp)) Hc)
    as [[] ->].
  - by apply (IH _ (HttpResponse (body_after r (resp_body resp)))).
  - by apply (IH _ resp).
Qed.

(** X16.  Once the rules are loaded, the interceptors return normally
    whenever the URL of the request parses, every pattern they evaluate
    compiles, no url rule is a [modify] rule naming [strip_params] and
    the rule ids are integers that SQLite can store (as they are when
    [load_rules] has read them from the table): nothing else in a request
    or a response can make them raise. *)
Theorem interceptors_return (s : session) (url_rules script_rules : list rule)
    (url_parts : url_parts) :
  rules (self s) !! "url" = Some url_rules →
  rules (self s) !! "script" = Some script_rules →
  Forall (fun r => sound_rule r ∧ sqlite_integer (r_id r)) url_rules →
  Forall (fun r => is_Some (re_compile (r_pattern r)) ∧ sqlite_integer (r_id r))
         script_rules →
  Forall (fun p => is_Some (re_compile p)) fingerprinting_patterns →
  urlparse (req_url (request s)) = Ok url_parts →
  fst (_intercept_request s) = Ok tt ∧ fst (_intercept_response s) = Ok tt.
Proof.
  intros Hurl Hscript Hsound Hcomp Hfp Hparts. split.
  - rewrite (intercept_request_eq s _ Hurl).
    destruct (url_loop_sound url_rules s url_parts Hparts Hsound)
      as (f & s' & -> & Hsame).
    destruct f; [|done].
    destruct (any_search_compiles fingerprinting_patterns
                (decode_ignore (default EmptyString (req_body (request s')))) Hfp)
      as [found Hf].
    unfold fingerprint_fires. rewrite Hf, Hsame, Hparts. by destruct found.
  - unfold _intercept_response, mbind, M_bind, gets.
    destruct (response s) as [resp|] eqn:Hresp; [|done].
    rewrite rules_of_eq, Hscript.
    destruct (script_loop_sound script_rules s resp url_parts Hparts Hresp Hcomp)
      as (f & s' & ->).
    by destruct f.
Qed.
End NoRaise.

(** ** The extra properties on concrete sessions *)

Section ExtraExamples.
#[local] Existing Instance model_re.
#[local] Existing Instance model_url.
#[local] Existing Instance model_text.

Lemma interceptors_ignore_other_types_witness :
  _intercept_request
    (with_rules (<["cookie" := [Rule 9 "_ga" "block" "cookie rule" 1]]>
                   (rules observe_then_block))
                (Session observe_then_block track_request None)) =
    (fst (_intercept_request (Session observe_then_block track_request None)),
     with_rules (<["cookie" := [Rule 9 "_ga" "block" "cookie rule" 1]]>
                   (rules observe_then_block))
                (snd (_intercept_request (Session observe_then_block track_request None)))) ∧
  _intercept_response
    (with_rules (<["cookie" := [Rule 9 "_ga" "block" "cookie rule" 1]]>
                   (rules observe_then_block))
                (Session observe_then_block track_request None)) =
    (fst (_intercept_response (Session observe_then_block track_request None)),
     with_rules (<["cookie" := [Rule 9 "_ga" "block" "cookie rule" 1]]>
                   (rules observe_then_block))
                (snd (_intercept_response (Session observe_then_block track_request None)))).
Proof.
  apply (interceptors_ignore_other_types
           (Session observe_then_block track_request None)
           (<["cookie" := [Rule 9 "_ga" "block" "cookie rule" 1]]>
              (rules observe_then_block))).
  - vm_compute. reflexivity.
  - vm_compute. reflexivity.
Defined.

Lemma intercept_response_body_witness :
  response (snd (_intercept_response script_session)) =
    Some (HttpResponse
            (script_body [Rule 1 "analytics" "log" "first" 1;
                          Rule 2 "analytics" "log" "second" 2]
                         (resp_body (HttpResponse "analytics.push(1)")))) ∧
  (Forall inert [Rule 1 "analytics" "log" "first" 1;
                 Rule 2 "analytics" "log" "second" 2] →
   decode_ignore (resp_body (HttpResponse "analytics.push(1)")) =
   resp_body (HttpResponse "analytics.push(1)") →
   script_body [Rule 1 "analytics" "log" "first" 1;
                Rule 2 "analytics" "log" "second" 2]
               (resp_body (HttpResponse "analytics.push(1)")) =
   resp_body (HttpResponse "analytics.push(1)")) ∧
  (∀ r, r ∈ script_trace [Rule 1 "analytics" "log" "first" 1;
                          Rule 2 "analytics" "log" "second" 2]
                         (resp_body (HttpResponse "analytics.push(1)")) →
        r_action r = "block" →
        script_body [Rule 1 "analytics" "log" "first" 1;
                     Rule 2 "analytics" "log" "second" 2]
                    (resp_body (HttpResponse "analytics.push(1)")) = EmptyString).
Proof.
  apply (intercept_response_body script_session
           [Rule 1 "analytics" "log" "first" 1; Rule 2 "analytics" "log" "second" 2]
           (HttpResponse "analytics.push(1)")
           (UrlParts "https" "cdn.example" "/a.js" EmptyString EmptyString EmptyString)).
  - vm_compute. reflexivity.
  - reflexivity.
  - vm_compute. reflexivity.
  - repeat constructor; unfold min_int64, max_int64; simpl; lia.
Defined.

Example blocked_response_stays_empty :
  response
    (snd (_intercept_response
            (Session (snd (add_rule "script" ".*" "modify" "fingerprint stand-ins" 2
                             (snd (add_rule "script" "analytics" "block" "drop" 1
                                     blocker0))))
                     (HttpRequest "https://cdn.example/a.js" None false)
                     (Some (HttpResponse "analytics.push(navigator.userAgent)"))))) =
  Some (HttpResponse EmptyString).
Proof. vm_compute. reflexivity. Qed.

(** With the default rules, a body with a byte that is not UTF-8 comes
    back without that byte once the script rule has matched. *)
Example default_rules_drop_invalid_bytes :
  response
    (snd (_intercept_response
            (Session (Blocker (RulesTable [] 4) []
                              (<["script" := [default_script_rule]]> empty_index))
                     (HttpRequest "https://cdn.example/a.js" None false)
                     (Some (HttpResponse
                              ("navigator.userAgent " +:+
                               String (Ascii.ascii_of_nat 255) "!")))))) =
  Some (HttpResponse "navigator.userAgent !").
Proof. vm_compute. reflexivity. Qed.

Lemma interceptors_return_witness :
  fst (_intercept_request mixed_session) = Ok tt ∧
  fst (_intercept_response mixed_session) = Ok tt.
Proof.
  apply (interceptors_return mixed_session
           [Rule 1 "track" "block" "tracking endpoint" 1]
           [Rule 2 "analytics" "log" "first" 1; Rule 3 "analytics" "log" "second" 2]
           (UrlParts "https" "ads.example" "/track" EmptyString "x=1" EmptyString)).
  - vm_compute. reflexivity.
  - vm_compute. reflexivity.
  - repeat constructor; try (vm_compute; eauto; fail);
      try (unfold min_int64, max_int64; simpl; lia);
      intros [? ?]; discriminate.
  - repeat constructor; try (vm_compute; eauto; fail);
      unfold min_int64, max_int64; simpl; lia.
  - repeat constructor; vm_compute; eauto.
  - vm_compute. reflexivity.
Defined.
End ExtraExamples.
